(** * The RAJA matrix transpose kernel (Cxx11/transpose-vector-raja.cc)

    A shallow embedding of the benchmark: machine integers and doubles, the
    two vectors A and B, the RAJA loop policies the program instantiates, the
    Initialize and Transpose kernels, the validator, the command line and
    [main], followed by the properties of the specification and by further
    properties of the program. *)

From Stdlib Require Import ZArith String Ascii List Lia Permutation.
From Stdlib Require Import Floats.PrimFloat Floats.SpecFloat Floats.FloatOps.
From stdpp Require Import base option list numbers.

Local Open Scope string_scope.
Local Open Scope list_scope.
Local Open Scope Z_scope.

(** ** Machine integers *)

Definition INT_MAX : Z := 2147483647.

(** Two's complement wrap-around of a [w]-bit signed integer. *)
Definition wrap (w : Z) (z : Z) : Z :=
  (z + 2 ^ (w - 1)) mod 2 ^ w - 2 ^ (w - 1).

(** [int]: 32 bits.  [indx] is [RAJA::Index_type], a [std::ptrdiff_t]:
    64 bits. *)
Definition int (z : Z) : Z := wrap 32 z.
Definition indx (z : Z) : Z := wrap 64 z.

(** ** Doubles

    Every [double] the program stores or compares holds an integer (the
    vectors start from integers and are only added to; the reference value
    is a sum of products of integers), so a double is modelled by the integer
    it holds and each operation by the exact operation followed by the IEEE
    754 binary64 rounding: to the nearest number with a 53 bit significand,
    ties to the even significand.  All values of a run are below 2^64, far
    from the overflow threshold 2^1024, which the model leaves out.
    [binary64_samples] and [binary64_failing_run] below compare the model
    with the binary64 arithmetic of the kernel. *)

Abbreviation double := Z (only parsing).

Definition round_double (z : Z) : double :=
  let m := Z.abs z in
  let e := Z.log2 m - 52 in
  if e <=? 0 then z
  else
    let q := m / 2 ^ e in
    let r := m mod 2 ^ e in
    let h := 2 ^ (e - 1) in
    let q' := if r <? h then q
              else if h <? r then q + 1
              else if Z.even q then q else q + 1 in
    Z.sgn z * (q' * 2 ^ e).

(** [static_cast<double>(k)] and the implicit conversions of an integer
    operand. *)
Definition double_of_int (k : Z) : double := round_double k.

Definition dadd (x y : double) : double := round_double (x + y).
Definition dsub (x y : double) : double := round_double (x - y).
Definition dmul (x y : double) : double := round_double (x * y).
Definition fabs (x : double) : double := Z.abs x.

(** [x * (y / 2.)].  Halving is exact in binary floating point, so the
    product is the real number x*y/2 rounded once.  At its only use
    x = y + 1, so x*y is even and x*y/2 is an integer. *)
Definition dmul_half (x y : double) : double := round_double (x * y / 2).

(** [x < 1.0e-8] for an integer-valued [x]: 10^8 * x < 1.  (No integer lies
    between 10^-8 and the double nearest to it.) *)
Definition epsilon_inv : Z := 100000000.
Definition lt_epsilon (x : double) : bool := x * epsilon_inv <? 1.

(** The integer a binary64 number of the kernel holds, when it holds one;
    used to compare the model with the hardware's arithmetic on samples. *)
Definition Z_of_float (f : float) : option Z :=
  match Prim2SF f with
  | S754_zero _ => Some 0
  | S754_finite s m e =>
      let sign := if s then -1 else 1 in
      if 0 <=? e then Some (sign * (Zpos m * 2 ^ e))
      else if Zpos m mod 2 ^ (- e) =? 0 then Some (sign * (Zpos m / 2 ^ (- e)))
      else None
  | _ => None
  end.

(** ** Vectors

    [std::vector<double>] with [operator[]]: an access outside the vector has
    no defined behaviour and is [None] here. *)

Definition vec_get (v : list Z) (k : Z) : option double :=
  if k <? 0 then None else v !! Z.to_nat k.

Definition vec_set (v : list Z) (k : Z) (x : double) : option (list Z) :=
  if (0 <=? k) && (k <? Z.of_nat (length v)) then Some (<[Z.to_nat k := x]> v)
  else None.

(** [v.resize(n)] on an empty vector: [n] value-initialised elements.  (For
    an accepted order [n] = order*order is not negative.  The allocation is
    taken to succeed: a [std::bad_alloc] for want of memory is left out.) *)
Definition resize (n : Z) : list Z := replicate (Z.to_nat n) 0.

(** The two buffers, A first. *)
Definition memory : Type := list Z * list Z.

(** ** The RAJA loop engine

    RAJA is a library outside the repository.  A policy fixes the order in
    which the loop body meets the index pairs; the body runs once per pair.
    The sequential policies run the loop nest in program order.  For the
    OpenMP and TBB policies the model takes the same order: bodies of
    distinct pairs touch distinct cells, and [Transpose_schedule] and
    [Initialize_schedule] below show that every order in which each pair
    is met once gives the same memory. *)

Inductive exec_policy : Type :=
  | seq_exec | simd_exec | omp_parallel_for_exec | omp_for_exec | tbb_for_exec.

Definition tile_size : Z := 32.

(** [NestedPolicy<ExecList<outer, inner>>], with or without
    [Tile<TileList<tile_fixed<tile_size>, tile_fixed<tile_size>>>]. *)
Record NestedPolicy : Type := {
  exec_outer : exec_policy;
  exec_inner : exec_policy;
  tiling : bool
}.

Definition seq_for_simd := {| exec_outer := seq_exec; exec_inner := simd_exec; tiling := false |}.
Definition seq_for_seq := {| exec_outer := seq_exec; exec_inner := seq_exec; tiling := false |}.
Definition seq_for_seq_tiled := {| exec_outer := seq_exec; exec_inner := seq_exec; tiling := true |}.
Definition seq_for_simd_tiled := {| exec_outer := seq_exec; exec_inner := simd_exec; tiling := true |}.
Definition omp_for_seq := {| exec_outer := omp_parallel_for_exec; exec_inner := seq_exec; tiling := false |}.
Definition omp_for_simd := {| exec_outer := omp_parallel_for_exec; exec_inner := simd_exec; tiling := false |}.
Definition omp_for_seq_tiled := {| exec_outer := omp_for_exec; exec_inner := seq_exec; tiling := true |}.
Definition omp_for_simd_tiled := {| exec_outer := omp_for_exec; exec_inner := simd_exec; tiling := true |}.
Definition tbb_for_seq := {| exec_outer := tbb_for_exec; exec_inner := seq_exec; tiling := false |}.
Definition tbb_for_simd := {| exec_outer := tbb_for_exec; exec_inner := simd_exec; tiling := false |}.
Definition tbb_for_seq_tiled := {| exec_outer := tbb_for_exec; exec_inner := seq_exec; tiling := true |}.
Definition tbb_for_simd_tiled := {| exec_outer := tbb_for_exec; exec_inner := simd_exec; tiling := true |}.

(** [range(lo, hi)]: the indices lo, lo+1, ..., hi-1. *)
Definition range (lo hi : Z) : list Z := seqZ lo (hi - lo).

(** [tile_fixed<tile_size>]: [lo, hi) cut into consecutive blocks of
    [tile_size] indices, the last one shorter; each block as (first, end). *)
Definition tiles (lo hi : Z) : list (Z * Z) :=
  (fun t => (lo + t * tile_size, Z.min (lo + (t + 1) * tile_size) hi))
    <$> seqZ 0 ((hi - lo + tile_size - 1) / tile_size).

(** Row-major order of the pairs of [lo1, hi1) x [lo2, hi2). *)
Definition pairs (lo1 hi1 lo2 hi2 : Z) : list (Z * Z) :=
  i ← range lo1 hi1; (fun j => (i, j)) <$> range lo2 hi2.

(** Tile by tile, row-major inside a tile. *)
Definition tiled_pairs (lo1 hi1 lo2 hi2 : Z) : list (Z * Z) :=
  ti ← tiles lo1 hi1; tj ← tiles lo2 hi2; pairs ti.1 ti.2 tj.1 tj.2.

Definition schedule (p : NestedPolicy) (lo1 hi1 lo2 hi2 : Z) : list (Z * Z) :=
  if tiling p then tiled_pairs lo1 hi1 lo2 hi2 else pairs lo1 hi1 lo2 hi2.

(** Run a body over a list of indices, threading the state; an undefined
    step makes the whole loop undefined. *)
Fixpoint for_each {X S : Type} (body : X -> S -> option S) (l : list X) (s : S)
  : option S :=
  match l with
  | [] => Some s
  | x :: l' => s' ← body x s; for_each body l' s'
  end.

(** [RAJA::forall<policy>(lo, hi, body)]. *)
Definition forall_ {S : Type} (policy : exec_policy) (lo hi : Z)
    (body : Z -> S -> option S) (s : S) : option S :=
  for_each body (range lo hi) s.

(** [RAJA::forallN<policy>(range(lo1, hi1), range(lo2, hi2), body)]. *)
Definition forallN {S : Type} (policy : NestedPolicy) (lo1 hi1 lo2 hi2 : Z)
    (body : Z -> Z -> S -> option S) (s : S) : option S :=
  for_each (fun ij => body ij.1 ij.2) (schedule policy lo1 hi1 lo2 hi2) s.

(** ** The kernels *)

(** The lambda of both [Initialize] overloads:
    [A[i*order+j] = static_cast<double>(i*order+j); B[i*order+j] = 0.0]. *)
Definition Initialize_body (order : Z) (i j : Z) (m : memory) : option memory :=
  let k := indx (indx (i * order) + j) in
  A' ← vec_set m.1 k (double_of_int k);
  B' ← vec_set m.2 k 0;
  Some (A', B').

(** [Initialize<exec_policy>], the forallN overload. *)
Definition Initialize (policy : NestedPolicy) (order : Z) (m : memory)
  : option memory :=
  forallN policy 0 order 0 order (Initialize_body order) m.

(** [Initialize<outer_policy, inner_policy>], the overload with two nested
    forall. *)
Definition Initialize2 (outer_policy inner_policy : exec_policy) (order : Z)
    (m : memory) : option memory :=
  forall_ outer_policy 0 order (fun i =>
    forall_ inner_policy 0 order (fun j => Initialize_body order i j)) m.

(** The lambda of both [Transpose] overloads:
    [B[i*order+j] += A[j*order+i]; A[j*order+i] += 1.0]. *)
Definition Transpose_body (order : Z) (i j : Z) (m : memory) : option memory :=
  let ij := indx (indx (i * order) + j) in
  let ji := indx (indx (j * order) + i) in
  b ← vec_get m.2 ij;
  a ← vec_get m.1 ji;
  B' ← vec_set m.2 ij (dadd b a);
  a' ← vec_get m.1 ji;
  A' ← vec_set m.1 ji (dadd a' 1);
  Some (A', B').

(** [Transpose<exec_policy>], the forallN overload. *)
Definition Transpose (policy : NestedPolicy) (order : Z) (m : memory)
  : option memory :=
  forallN policy 0 order 0 order (Transpose_body order) m.

(** [Transpose<outer_policy, inner_policy>], the overload with two nested
    forall. *)
Definition Transpose2 (outer_policy inner_policy : exec_policy) (order : Z)
    (m : memory) : option memory :=
  forall_ outer_policy 0 order (fun i =>
    forall_ inner_policy 0 order (fun j => Transpose_body order i j)) m.

(** The lambda of the validation loop, with the [ReduceSum] as its state:
    [ij] and [ji] are [const int], the rest is double arithmetic. *)
Definition validator_body (order iterations : Z) (B : list Z) (i j : Z)
    (abserr : double) : option double :=
  let ij := int (indx (indx (i * order) + j)) in
  let ji := int (indx (indx (j * order) + i)) in
  let addit := dmul_half (dadd (double_of_int iterations) 1) (double_of_int iterations) in
  let reference :=
    dadd (dmul (double_of_int ij) (dadd 1 (double_of_int iterations))) addit in
  b ← vec_get B ji;
  Some (dadd abserr (fabs (dsub b reference))).

Definition validator (loop_policy : exec_policy) (order iterations : Z)
    (B : list Z) : option double :=
  forallN {| exec_outer := loop_policy; exec_inner := seq_exec; tiling := false |}
    0 order 0 order (validator_body order iterations B) 0.

(** ** The command line *)

(** [std::atoi], as glibc has it: [(int) strtol(s, NULL, 10)].  Leading white
    space, an optional sign, then digits up to the first other character; no
    digits give 0.  [strtol] saturates at the ends of [long].  (The C
    standard leaves the result undefined when it does not fit an int.) *)

Definition isspace (c : ascii) : bool :=
  let n := Z.of_nat (nat_of_ascii c) in
  (n =? 32) || ((9 <=? n) && (n <=? 13)).

Definition digit (c : ascii) : option Z :=
  let n := Z.of_nat (nat_of_ascii c) in
  if (48 <=? n) && (n <=? 57) then Some (n - 48) else None.

Fixpoint skip_space (s : string) : string :=
  match s with
  | String c s' => if isspace c then skip_space s' else s
  | EmptyString => s
  end.

Fixpoint digits (acc : Z) (s : string) : Z :=
  match s with
  | String c s' =>
      match digit c with
      | Some d => digits (10 * acc + d) s'
      | None => acc
      end
  | EmptyString => acc
  end.

Definition LONG_MAX : Z := 9223372036854775807.

Definition strtol (s : string) : Z :=
  match skip_space s with
  | String "-" s' => Z.max (- LONG_MAX - 1) (- digits 0 s')
  | String "+" s' => Z.min LONG_MAX (digits 0 s')
  | s' => Z.min LONG_MAX (digits 0 s')
  end.

Definition atoi (s : string) : Z := int (strtol s).

(** [s.find(pat)]; [None] is [std::string::npos]. *)
Definition find (pat s : string) : option nat := index 0 pat s.

(** [s.substr(pos, s.size())]; [None] is the [std::out_of_range] thrown when
    [pos] is beyond the end. *)
Definition substr (pos : nat) (s : string) : option string :=
  if (pos <=? String.length s)%nat then Some (substring pos (String.length s) s)
  else None.

(** The variant flags, with the initial values of lines 127 and 128. *)
Record variant : Type := {
  use_for : string;
  use_permute : string;
  use_simd : bool;
  use_nested : bool;
  use_tiled : bool
}.

Definition default_variant : variant :=
  {| use_for := "seq"; use_permute := "no";
     use_simd := true; use_nested := true; use_tiled := false |}.

Definition set_for (x : string) (v : variant) : variant :=
  {| use_for := x; use_permute := use_permute v; use_simd := use_simd v;
     use_nested := use_nested v; use_tiled := use_tiled v |}.
Definition set_permute (x : string) (v : variant) : variant :=
  {| use_for := use_for v; use_permute := x; use_simd := use_simd v;
     use_nested := use_nested v; use_tiled := use_tiled v |}.
Definition set_simd (x : bool) (v : variant) : variant :=
  {| use_for := use_for v; use_permute := use_permute v; use_simd := x;
     use_nested := use_nested v; use_tiled := use_tiled v |}.
Definition set_nested (x : bool) (v : variant) : variant :=
  {| use_for := use_for v; use_permute := use_permute v; use_simd := use_simd v;
     use_nested := x; use_tiled := use_tiled v |}.
Definition set_tiled (x : bool) (v : variant) : variant :=
  {| use_for := use_for v; use_permute := use_permute v; use_simd := use_simd v;
     use_nested := use_nested v; use_tiled := x |}.

(** [if (value == lit) assignment;] *)
Definition when_eq (value lit : string) (assign : variant -> variant)
    (v : variant) : variant :=
  if String.eqb value lit then assign v else v.

(** The five blocks of the loop body over argv[3..], in order. *)
Definition flag_for (s : string) (v : variant) : option variant :=
  match find "for=" s with
  | Some pf =>
      sf ← substr 4 s;
      Some (when_eq sf "tbb" (set_for "tbb")
             (when_eq sf "openmp" (set_for "omp")
               (when_eq sf "omp" (set_for "omp") v)))
  | None => Some v
  end.

Definition flag_simd (s : string) (v : variant) : option variant :=
  match find "simd=" s with
  | Some ps =>
      ss ← substr 5 s;
      Some (when_eq ss "np" (set_simd false) (when_eq ss "n" (set_simd false) v))
  | None => Some v
  end.

Definition flag_nested (s : string) (v : variant) : option variant :=
  match find "nested=" s with
  | Some pn =>
      sn ← substr 7 s;
      Some (when_eq sn "no" (set_nested false) (when_eq sn "n" (set_nested false) v))
  | None => Some v
  end.

Definition flag_tiled (s : string) (v : variant) : option variant :=
  match find "tiled=" s with
  | Some pt =>
      st ← substr 6 s;
      Some (when_eq st "yes" (set_tiled true) (when_eq st "y" (set_tiled true) v))
  | None => Some v
  end.

Definition flag_permute (s : string) (v : variant) : option variant :=
  match find "permute=" s with
  | Some pp =>
      sp ← substr 8 s;
      Some (when_eq sp "ji" (set_permute "ji") (when_eq sp "ij" (set_permute "ij") v))
  | None => Some v
  end.

Definition flag (s : string) (v : variant) : option variant :=
  v1 ← flag_for s v;
  v2 ← flag_simd s v1;
  v3 ← flag_nested s v2;
  v4 ← flag_tiled s v3;
  flag_permute s v4.

(** The [try] block: a thrown message, an exception nothing catches, or the
    three settings. *)
Inductive parsed : Type :=
  | Throw (e : string)
  | Terminate
  | Parsed (iterations order : Z) (v : variant).

Definition usage : string :=
  "Usage: <# iterations> <matrix order> <nested={y,n} for={seq,omp,tbb} simd={y,n}>".

Definition parse (argv : list string) : parsed :=
  let argc := Z.of_nat (length argv) in
  if argc <? 3 then Throw usage
  else
    let iterations := atoi (default "" (argv !! 1%nat)) in
    if iterations <? 1 then Throw "ERROR: iterations must be >= 1"
    else
      let order := atoi (default "" (argv !! 2%nat)) in
      if order <=? 0 then Throw "ERROR: Matrix Order must be greater than 0"
      else if Z.sqrt INT_MAX <? order
      then Throw "ERROR: matrix dimension too large - overflow risk"
      else
        match for_each flag (drop 3 argv) default_variant with
        | Some v => Parsed iterations order v
        | None => Terminate
        end.

(** ** The program *)

(** What the build defines.  [PRKVERSION] comes from a header outside the
    file.  [RAJA_ENABLE_OPENMP] and [RAJA_ENABLE_TBB] decide which branches of
    the dispatch chains exist; with the second defined and the first not, the
    text the preprocessor leaves is not a program (an [else] follows a
    statement), so three cases remain.  [VERBOSE] is taken as undefined. *)
Inductive backends : Type := OpenMP_and_TBB | OpenMP_only | Neither.

Record build : Type := {
  PRKVERSION : string;
  RAJA_backends : backends
}.

(** Standard output: lines of chunks.  [Epsilon] is the constant 1.0e-8; the
    two numbers of the rate line come from [prk::wtime] and are left
    abstract ([Timing]). *)
Inductive chunk : Type :=
  | Str (s : string)
  | Int (k : Z)
  | Dbl (x : double)
  | Epsilon
  | Timing.

Inductive termination : Type :=
  | Exit (code : Z)
  | Abort
  | Undefined.

(** [buffers] is [None] as long as A and B were not created. *)
Record run : Type := {
  stdout : list (list chunk);
  buffers : option memory;
  status : termination
}.

Definition kernel : Type := Z -> memory -> option memory.

(** The three blocks of nested conditionals, the same for [Initialize] and
    for [Transpose]: [kN] is the forallN overload, [k2] the overload with two
    nested forall. *)
Definition variant_seq (v : variant) (kN : NestedPolicy -> kernel)
    (k2 : exec_policy -> exec_policy -> kernel) : kernel :=
  if use_nested v then
    if use_tiled v then
      if use_simd v then kN seq_for_simd_tiled else kN seq_for_seq_tiled
    else
      if use_simd v then kN seq_for_simd else kN seq_for_seq
  else
    if use_simd v then k2 seq_exec simd_exec else k2 seq_exec seq_exec.

Definition variant_omp (v : variant) (kN : NestedPolicy -> kernel)
    (k2 : exec_policy -> exec_policy -> kernel) : kernel :=
  if use_nested v then
    if use_tiled v then
      if use_simd v then kN omp_for_simd_tiled else kN omp_for_seq_tiled
    else
      if use_simd v then kN omp_for_simd else kN omp_for_seq
  else
    if use_simd v then k2 omp_parallel_for_exec simd_exec
    else k2 omp_parallel_for_exec seq_exec.

Definition variant_tbb (v : variant) (kN : NestedPolicy -> kernel)
    (k2 : exec_policy -> exec_policy -> kernel) : kernel :=
  if use_nested v then
    if use_tiled v then
      if use_simd v then kN tbb_for_simd_tiled else kN tbb_for_seq_tiled
    else
      if use_simd v then kN tbb_for_simd else kN tbb_for_seq
  else
    if use_simd v then k2 tbb_for_exec simd_exec else k2 tbb_for_exec seq_exec.

(** The chain [if (use_for=="seq") .. else if (use_for=="omp") .. else if
    (use_for=="tbb") ..] as the preprocessor leaves it: the memory after the
    call, and the message of the [#else] branch that is followed by
    [std::abort()], if the build has one. *)
Definition select (b : backends) (v : variant) (kN : NestedPolicy -> kernel)
    (k2 : exec_policy -> exec_policy -> kernel) (order : Z) (m : memory)
  : option memory * option string :=
  match b with
  | OpenMP_and_TBB =>
      (if String.eqb (use_for v) "seq" then variant_seq v kN k2 order m
       else if String.eqb (use_for v) "omp" then variant_omp v kN k2 order m
       else if String.eqb (use_for v) "tbb" then variant_tbb v kN k2 order m
       else Some m,
       None)
  | OpenMP_only =>
      (if String.eqb (use_for v) "seq" then variant_seq v kN k2 order m
       else if String.eqb (use_for v) "omp" then variant_omp v kN k2 order m
       else Some m,
       Some "You are trying to use TBB but RAJA does not support it!")
  | Neither =>
      (if String.eqb (use_for v) "seq" then variant_seq v kN k2 order m
       else Some m,
       Some "You are trying to use OpenMP but RAJA does not support it!")
  end.

(** [n] executions of a step, one after the other. *)
Definition iterate (n : Z) (step : memory -> option memory) (m : memory)
  : option memory :=
  N.iter (Z.to_N n) (fun r => r ≫= step) (Some m).

(** The policy of the validation loop (lines 389 to 395). *)
Definition loop_policy (b : backends) : exec_policy :=
  match b with
  | OpenMP_only => omp_parallel_for_exec
  | _ => seq_exec
  end.

Definition banner (bd : build) : list (list chunk) :=
  [ [Str "Parallel Research Kernels version "; Str (PRKVERSION bd)];
    [Str "C++11/RAJA Matrix transpose: B = A^T"] ].

Definition yes_no (b : bool) : string := if b then "yes" else "no".

Definition for_name (v : variant) : string :=
  if String.eqb (use_for v) "tbb" then "TBB"
  else if String.eqb (use_for v) "omp" then "OpenMP"
  else "Sequential".

Definition echo (iterations order : Z) (v : variant) : list (list chunk) :=
  [ [Str "Number of iterations  = "; Int iterations];
    [Str "Matrix order          = "; Int order];
    [Str "Tile size             = "; Int tile_size;
     Str "(compile-time constant, unlike other impls)"];
    [Str "RAJA threading        = "; Str (for_name v)];
    [Str "RAJA forallN          = "; Str (yes_no (use_nested v))];
    [Str "RAJA use simd         = "; Str (yes_no (use_simd v))];
    [Str "RAJA use tiling       = "; Str (yes_no (use_tiled v))];
    [Str "RAJA use permute      = "; Str (use_permute v)] ].

(** Lines 411 to 423: the lines printed and the value returned. *)
Definition report (abserr : double) : list (list chunk) * Z :=
  if lt_epsilon abserr then
    ([ [Str "Solution validates"];
       [Str "Rate (MB/s): "; Timing; Str " Avg time (s): "; Timing] ], 0)
  else
    ([ [Str "ERROR: Aggregate squared error "; Dbl abserr;
        Str " exceeds threshold "; Epsilon] ], 1).

(** Initialisation followed by [n] calls of Transpose, as dispatched. *)
Definition applications (b : backends) (v : variant) (order n : Z) (m : memory)
  : option memory :=
  m0 ← (select b v Initialize Initialize2 order m).1;
  iterate n (fun m' => (select b v Transpose Transpose2 order m').1) m0.

(** The loop [for (auto iter = 0; iter<=iterations; iter++)]: iterations+1
    calls of Transpose.  (With iterations = INT_MAX the increment of [iter]
    overflows: no defined behaviour.) *)
Definition transpose_loop (b : backends) (v : variant) (order iterations : Z)
    (m : memory) : option memory :=
  if iterations =? INT_MAX then None
  else iterate (iterations + 1)
         (fun m' => (select b v Transpose Transpose2 order m').1) m.

(** Initialisation followed by the loop. *)
Definition kernels (b : backends) (v : variant) (order iterations : Z)
    (m : memory) : option memory :=
  m0 ← (select b v Initialize Initialize2 order m).1;
  transpose_loop b v order iterations m0.

(** Lines 195 to 424: what the program does once the arguments are read. *)
Definition execute (bd : build) (iterations order : Z) (v : variant) : run :=
  let out := banner bd ++ echo iterations order v in
  let A := resize (int (order * order)) in
  let B := resize (int (order * order)) in
  let b := RAJA_backends bd in
  match select b v Initialize Initialize2 order (A, B) with
  | (None, _) =>
      {| stdout := out; buffers := Some (A, B); status := Undefined |}
  | (Some m0, Some msg) =>
      {| stdout := out ++ [[Str msg]]; buffers := Some m0; status := Abort |}
  | (Some m0, None) =>
      match transpose_loop b v order iterations m0 with
      | None =>
          {| stdout := out; buffers := Some m0; status := Undefined |}
      | Some m =>
          match validator (loop_policy b) order iterations m.2 with
          | None =>
              {| stdout := out; buffers := Some m; status := Undefined |}
          | Some abserr =>
              {| stdout := out ++ (report abserr).1;
                 buffers := Some m;
                 status := Exit (report abserr).2 |}
          end
      end
  end.

Definition main (bd : build) (argv : list string) : run :=
  match parse argv with
  | Throw e =>
      {| stdout := banner bd ++ [[Str e]]; buffers := None; status := Exit 1 |}
  | Terminate =>
      {| stdout := banner bd; buffers := None; status := Abort |}
  | Parsed iterations order v => execute bd iterations order v
  end.

(** A build with both back ends. *)
Definition full_build (version : string) : build :=
  {| PRKVERSION := version; RAJA_backends := OpenMP_and_TBB |}.

(** The back ends [use_for] can name. *)
Definition known_for (v : variant) : Prop :=
  use_for v = "seq" \/ use_for v = "omp" \/ use_for v = "tbb".

(** ** The specification's closed forms *)

(** reference(i,j) = ij * (1 + iterations) + (iterations+1)*iterations/2,
    over the integers. *)
Definition reference (order iterations i j : Z) : Z :=
  (i * order + j) * (1 + iterations) + (iterations + 1) * iterations / 2.

(** The sum of |B[j*order+i] - reference(i,j)| over all cells, over the
    integers; a cell outside B counts as 0. *)
Definition aggregate_error (order iterations : Z) (B : list Z) : Z :=
  foldr Z.add 0
    ((fun ij => Z.abs (default 0 (vec_get B (ij.2 * order + ij.1))
                       - reference order iterations ij.1 ij.2))
       <$> pairs 0 order 0 order).

(** The starting pattern: A[k] = (double)k, B[k] = 0.0. *)
Definition initial_memory (order : Z) : memory :=
  (double_of_int <$> seqZ 0 (order * order),
   replicate (Z.to_nat (order * order)) 0).

(** The linear index of the cell across the diagonal from cell [k]. *)
Definition transposed (order k : Z) : Z := (k mod order) * order + k / order.

(** One execution of the kernel, cell by cell: 1.0 is added to every A[k],
    and the old value of the transposed cell of A is added to B[k]. *)
Definition Transpose_step (order : Z) (m : memory) : memory :=
  ((fun a => dadd a 1) <$> m.1,
   (fun k => dadd (default 0 (vec_get m.2 k))
                  (default 0 (vec_get m.1 (transposed order k))))
     <$> seqZ 0 (order * order)).

(** The state after [n] executions of the kernel on the starting pattern,
    over the integers: A[k] = k + n, and B[k] = n * k' + n*(n-1)/2 with k' the
    transposed cell of k. *)
Definition memory_after (order n : Z) : memory :=
  ((fun k => k + n) <$> seqZ 0 (order * order),
   (fun k => n * transposed order k + n * (n - 1) / 2) <$> seqZ 0 (order * order)).

(** Every value of [memory_after order n] is at most 2^53, so a double holds
    it exactly. *)
Definition exact_after (order n : Z) : Prop :=
  order * order + n <= 2 ^ 53 /\
  n * (order * order - 1) + n * (n - 1) / 2 <= 2 ^ 53.

(** Both buffers hold order*order elements. *)
Definition sized (order : Z) (m : memory) : Prop :=
  Z.of_nat (length m.1) = order * order /\ Z.of_nat (length m.2) = order * order.

(** The index pairs of the loops. *)
Definition in_square (order : Z) (p : Z * Z) : Prop :=
  (0 <= p.1 < order) /\ (0 <= p.2 < order).

(** The effect of one token: constants assigned to some of the settings. *)
Definition assign (ofor operm : option string) (osimd onested otiled : option bool)
    (v : variant) : variant :=
  {| use_for := default (use_for v) ofor;
     use_permute := default (use_permute v) operm;
     use_simd := default (use_simd v) osimd;
     use_nested := default (use_nested v) onested;
     use_tiled := default (use_tiled v) otiled |}.

(** Two variants that differ at most in [use_permute]. *)
Definition same_kernel (v v' : variant) : Prop :=
  use_for v = use_for v' /\ use_simd v = use_simd v' /\
  use_nested v = use_nested v' /\ use_tiled v = use_tiled v'.

(** Two runs that differ at most in the line that echoes [use_permute] (the
    tenth line of the output). *)
Definition same_behaviour (r r' : run) : Prop :=
  buffers r = buffers r' /\ status r = status r' /\
  forall k, k <> 9%nat -> stdout r !! k = stdout r' !! k.

(** A token that contains none of the five keys. *)
Definition unrecognized (s : string) : Prop :=
  find "for=" s = None /\ find "simd=" s = None /\ find "nested=" s = None /\
  find "tiled=" s = None /\ find "permute=" s = None.

(** ** Further notions *)

(** The two buffers of [m'] have the lengths of those of [m]. *)
Definition same_lengths (m m' : memory) : Prop :=
  length m'.1 = length m.1 /\ length m'.2 = length m.2.

(** The reference value as the validation loop computes it (lines 400 to
    403), in double arithmetic. *)
Definition reference_double (order iterations i j : Z) : double :=
  let ij := int (indx (indx (i * order) + j)) in
  let addit := dmul_half (dadd (double_of_int iterations) 1) (double_of_int iterations) in
  dadd (dmul (double_of_int ij) (dadd 1 (double_of_int iterations))) addit.

(** The sum of the validation loop, spelled out: the terms
    |B[j*order+i] - reference(i,j)|, with the reference value and the
    difference in double arithmetic, added in row-major order from 0.0; a
    cell outside B counts as 0. *)
Definition aggregate_error_double (order iterations : Z) (B : list Z) : double :=
  foldl (fun acc ij =>
           dadd acc (fabs (dsub (default 0 (vec_get B (ij.2 * order + ij.1)))
                                (reference_double order iterations ij.1 ij.2))))
    0 (pairs 0 order 0 order).

(** The head of a text is not a digit (or the text is empty). *)
Definition no_digit_head (t : string) : Prop :=
  match t with
  | EmptyString => True
  | String c _ => digit c = None
  end.

(** A text in which [atoi] finds no number: after the white space comes
    nothing, or a sign followed by no digit, or another character that is
    not a digit. *)
Definition no_number (s : string) : Prop :=
  match skip_space s with
  | EmptyString => True
  | String c r =>
      if (Ascii.eqb c "-" || Ascii.eqb c "+")%bool then no_digit_head r
      else digit c = None
  end.

(** The tokens spelled out: what a token assigns when it is, letter for
    letter, one of the eleven texts the five blocks act on. *)
Definition token_for (s : string) : option string :=
  if (s =? "for=omp")%string || (s =? "for=openmp")%string then Some "omp"
  else if (s =? "for=tbb")%string then Some "tbb"
  else None.

Definition token_permute (s : string) : option string :=
  if (s =? "permute=ij")%string then Some "ij"
  else if (s =? "permute=ji")%string then Some "ji"
  else None.

Definition simd_off (s : string) : bool :=
  (s =? "simd=n")%string || (s =? "simd=np")%string.

Definition nested_off (s : string) : bool :=
  (s =? "nested=n")%string || (s =? "nested=no")%string.

Definition tiled_on (s : string) : bool :=
  (s =? "tiled=y")%string || (s =? "tiled=yes")%string.

Definition token_simd (s : string) : option bool :=
  if simd_off s then Some false else None.

Definition token_nested (s : string) : option bool :=
  if nested_off s then Some false else None.

Definition token_tiled (s : string) : option bool :=
  if tiled_on s then Some true else None.

(** The eleven tokens that change a setting. *)
Definition tokens : list string :=
  [ "for=omp"; "for=openmp"; "for=tbb"; "simd=n"; "simd=np"; "nested=n";
    "nested=no"; "tiled=y"; "tiled=yes"; "permute=ij"; "permute=ji" ].

(** The variant after the tokens [l], in closed form: the last of the for=
    tokens and the last of the permute= tokens count, simd and nested are
    off as soon as one token turns them off, tiling is on as soon as one
    token turns it on. *)
Definition resolve (l : list string) (v : variant) : variant :=
  {| use_for := default (use_for v) (list.last (omap token_for l));
     use_permute := default (use_permute v) (list.last (omap token_permute l));
     use_simd := use_simd v && negb (existsb simd_off l);
     use_nested := use_nested v && negb (existsb nested_off l);
     use_tiled := use_tiled v || existsb tiled_on l |}.

(** The message of the [#else] branch that a build contains. *)
Definition missing (b : backends) : option string :=
  match b with
  | OpenMP_and_TBB => None
  | OpenMP_only => Some "You are trying to use TBB but RAJA does not support it!"
  | Neither => Some "You are trying to use OpenMP but RAJA does not support it!"
  end.

(** Whether the dispatch chain of a build has a block for the variant. *)
Definition dispatched (b : backends) (v : variant) : bool :=
  match b with
  | OpenMP_and_TBB =>
      (use_for v =? "seq")%string || (use_for v =? "omp")%string
      || (use_for v =? "tbb")%string
  | OpenMP_only => (use_for v =? "seq")%string || (use_for v =? "omp")%string
  | Neither => (use_for v =? "seq")%string
  end.




(** [size_t]: 64 bits, unsigned. *)
Definition size_t (z : Z) : Z := z mod 2 ^ 64.

(** [(size_t)order * (size_t)order * sizeof(double)] (line 415), with a
    double of 8 bytes. *)
Definition bytes (order : Z) : Z :=
  size_t (size_t (size_t order * size_t order) * 8).

(** [2L*bytes] (line 416): the long is converted to [size_t], and the product
    to double when it is multiplied by 1.0e-6. *)
Definition bytes_moved (order : Z) : double :=
  round_double (size_t (size_t 2 * bytes order)).

(** * Properties *)

(** ** Machine integers and doubles *)

Lemma wrap_small (w z : Z) :
  0 < w -> - 2 ^ (w - 1) <= z < 2 ^ (w - 1) -> wrap w z = z.
Proof.
  intros Hw Hz. unfold wrap.
  assert (Hp : 2 ^ w = 2 * 2 ^ (w - 1)).
  { rewrite <- Z.pow_succ_r by lia. f_equal. lia. }
  rewrite Z.mod_small by lia. lia.
Qed.

Lemma int_small (z : Z) : - INT_MAX - 1 <= z <= INT_MAX -> int z = z.
Proof. intros Hz. apply wrap_small; unfold INT_MAX in Hz; simpl; lia. Qed.

Lemma indx_small (z : Z) : - 2 ^ 63 <= z < 2 ^ 63 -> indx z = z.
Proof. intros Hz. apply wrap_small; simpl; lia. Qed.

(** Integers of magnitude up to 2^53 are doubles: rounding keeps them. *)
Lemma round_double_exact (z : Z) : Z.abs z <= 2 ^ 53 -> round_double z = z.
Proof.
  intros Hz. unfold round_double.
  destruct (Z.eq_dec (Z.abs z) (2 ^ 53)) as [He | Hne].
  - destruct (Z.abs_eq_or_opp z) as [Ha | Ha]; rewrite Ha in He.
    + subst z. reflexivity.
    + assert (z = - 2 ^ 53) as -> by lia. reflexivity.
  - assert (Hlog : Z.log2 (Z.abs z) - 52 <= 0).
    { destruct (Z.eq_dec (Z.abs z) 0) as [-> | Hnz]; [simpl; lia |].
      assert (Z.log2 (Z.abs z) < 53); [| lia].
      apply Z.log2_lt_pow2; lia. }
    apply Z.leb_le in Hlog. now rewrite Hlog.
Qed.

Lemma double_of_int_exact (k : Z) : Z.abs k <= 2 ^ 53 -> double_of_int k = k.
Proof. apply round_double_exact. Qed.

Lemma dadd_exact (x y : Z) : Z.abs (x + y) <= 2 ^ 53 -> dadd x y = x + y.
Proof. apply round_double_exact. Qed.

Lemma dmul_exact (x y : Z) : Z.abs (x * y) <= 2 ^ 53 -> dmul x y = x * y.
Proof. apply round_double_exact. Qed.

Lemma dmul_half_exact (x y : Z) :
  Z.abs (x * y / 2) <= 2 ^ 53 -> dmul_half x y = x * y / 2.
Proof. apply round_double_exact. Qed.

(** An integer is below 1e-8 exactly when it is not positive. *)
Lemma lt_epsilon_spec (x : Z) : lt_epsilon x = true <-> x <= 0.
Proof. unfold lt_epsilon, epsilon_inv. rewrite Z.ltb_lt. lia. Qed.

(** ** Agreement with binary64

    The model's rounding against the binary64 arithmetic of the kernel, on
    sums and products at and past 2^53 (ties to even in both directions,
    carries, negative values), and on the last steps of the run
    [transpose 134217730 1]. *)

Example binary64_samples :
  Z_of_float (9007199254740992 + 1)%float = Some (dadd 9007199254740992 1) /\
  Z_of_float (9007199254740992 + 3)%float = Some (dadd 9007199254740992 3) /\
  Z_of_float (9007199254740994 + 1)%float = Some (dadd 9007199254740994 1) /\
  Z_of_float (9007199254740991 + 1)%float = Some (dadd 9007199254740991 1) /\
  Z_of_float (18014398509481984 + 1)%float = Some (dadd 18014398509481984 1) /\
  Z_of_float (18014398509481984 + 2)%float = Some (dadd 18014398509481984 2) /\
  Z_of_float (18014398509481984 + 3)%float = Some (dadd 18014398509481984 3) /\
  Z_of_float (18014398509481984 + 6)%float = Some (dadd 18014398509481984 6) /\
  Z_of_float (18014398509481980 + 7)%float = Some (dadd 18014398509481980 7) /\
  Z_of_float (-9007199254740992 - 3)%float = Some (dsub (-9007199254740992) 3) /\
  Z_of_float (2147483647 * 2147483648)%float = Some (dmul 2147483647 2147483648) /\
  Z_of_float (2147395599 * 2147483647)%float = Some (dmul 2147395599 2147483647) /\
  Z_of_float (134217731 * (134217730 / 2))%float = Some (dmul_half 134217731 134217730) /\
  Z_of_float (2147483647 * (2147483646 / 2))%float = Some (dmul_half 2147483647 2147483646).
Proof. vm_compute. repeat split. Qed.

Example binary64_failing_run :
  let n := 134217730%float in
  let A0 := 134217728%float in
  let B0 := 9007199187632128%float in
  let B1 := (B0 + A0)%float in
  let A1 := (A0 + 1)%float in
  let B2 := (B1 + A1)%float in
  let A2 := (A1 + 1)%float in
  let B3 := (B2 + A2)%float in
  let reference := (0 * (1 + n) + (n + 1) * (n / 2))%float in
  Z_of_float B3 = Some 9007199590285314 /\
  Z_of_float reference = Some 9007199590285316 /\
  Z_of_float (abs (B3 - reference)) = Some 2 /\
  (abs (B3 - reference) <? 0x1.5798ee2308c3ap-27)%float = false.
Proof. vm_compute. repeat split. Qed.

(** ** Vectors *)

Lemma vec_get_in (v : list Z) (k : Z) :
  0 <= k < Z.of_nat (length v) -> vec_get v k = v !! Z.to_nat k.
Proof. intros Hk. unfold vec_get. destruct (Z.ltb_spec k 0); [lia | easy]. Qed.

Lemma vec_set_in (v : list Z) (k x : Z) :
  0 <= k < Z.of_nat (length v) -> vec_set v k x = Some (<[Z.to_nat k := x]> v).
Proof.
  intros Hk. unfold vec_set.
  destruct (Z.leb_spec 0 k); [| lia].
  destruct (Z.ltb_spec k (Z.of_nat (length v))); [easy | lia].
Qed.

(** ** Loops *)

Lemma for_each_app {X S : Type} (body : X -> S -> option S) (l1 l2 : list X) (s : S) :
  for_each body (l1 ++ l2) s = for_each body l1 s ≫= for_each body l2.
Proof.
  revert s. induction l1 as [| x l1 IH]; intros s; simpl; [reflexivity |].
  destruct (body x s) as [s' |]; simpl; [apply IH | reflexivity].
Qed.

Lemma for_each_fmap {X Y S : Type} (h : X -> Y) (body : Y -> S -> option S)
    (l : list X) (s : S) :
  for_each body (h <$> l) s = for_each (fun x => body (h x)) l s.
Proof.
  revert s. induction l as [| x l IH]; intros s; simpl; [reflexivity |].
  destruct (body (h x) s) as [s' |]; simpl; [apply IH | reflexivity].
Qed.

Lemma for_each_bind {X Y S : Type} (g : X -> list Y) (body : Y -> S -> option S)
    (l : list X) (s : S) :
  for_each body (l ≫= g) s = for_each (fun x => for_each body (g x)) l s.
Proof.
  revert s. induction l as [| x l IH]; intros s; [reflexivity |].
  change ((x :: l) ≫= g) with (g x ++ (l ≫= g)).
  rewrite for_each_app. simpl.
  destruct (for_each body (g x) s) as [s' |]; simpl; [apply IH | reflexivity].
Qed.

Lemma for_each_ext {X S : Type} (f g : X -> S -> option S) (l : list X) (s : S) :
  (forall x s', f x s' = g x s') -> for_each f l s = for_each g l s.
Proof.
  intros Hfg. revert s. induction l as [| x l IH]; intros s; simpl; [reflexivity |].
  rewrite Hfg. destruct (g x s) as [s' |]; simpl; [apply IH | reflexivity].
Qed.

(** The overload with two nested forall runs the pairs in row-major order. *)
Lemma forall_forall_pairs {S : Type} (o i : exec_policy) (lo1 hi1 lo2 hi2 : Z)
    (body : Z -> Z -> S -> option S) (s : S) :
  forall_ o lo1 hi1 (fun x => forall_ i lo2 hi2 (fun y => body x y)) s
  = for_each (fun ij => body ij.1 ij.2) (pairs lo1 hi1 lo2 hi2) s.
Proof.
  unfold forall_, pairs. rewrite for_each_bind.
  apply for_each_ext. intros x s'. now rewrite for_each_fmap.
Qed.
(** ** Schedules *)

Lemma list_bind_assoc {X Y V : Type} (f : X -> list Y) (g : Y -> list V) (l : list X) :
  (l ≫= f) ≫= g = l ≫= (fun x => f x ≫= g).
Proof.
  induction l as [| x l IH]; [reflexivity |].
  rewrite !bind_cons, bind_app. now rewrite IH.
Qed.

Lemma bind_nil_r {X Y : Type} (l : list X) : l ≫= (fun _ => @nil Y) = [].
Proof. induction l as [| x l IH]; [reflexivity |]. now rewrite bind_cons. Qed.

Lemma bind_app_perm {X Y : Type} (g h : X -> list Y) (l : list X) :
  l ≫= (fun x => g x ++ h x) ≡ₚ (l ≫= g) ++ (l ≫= h).
Proof.
  induction l as [| x l IH]; [reflexivity |].
  rewrite !bind_cons, IH.
  rewrite <- !app_assoc. apply Permutation_app_head.
  rewrite !app_assoc. apply Permutation_app_tail, Permutation_app_comm.
Qed.

(** Two nested loops visit the same pairs in either nesting order. *)
Lemma bind_swap_perm {X Y V : Type} (f : X -> Y -> list V) (la : list X) (lb : list Y) :
  la ≫= (fun a => lb ≫= (fun b => f a b)) ≡ₚ lb ≫= (fun b => la ≫= (fun a => f a b)).
Proof.
  induction la as [| a la IH].
  - simpl. now rewrite bind_nil_r.
  - rewrite bind_cons, IH.
    rewrite <- bind_app_perm.
    apply eq_subrelation; [typeclasses eauto |].
    apply list_bind_ext; [| reflexivity]. intros b. now rewrite bind_cons.
Qed.

Lemma bind_perm_pointwise {X Y : Type} (f g : X -> list Y) (l : list X) :
  (forall x, f x ≡ₚ g x) -> l ≫= f ≡ₚ l ≫= g.
Proof.
  intros Hfg. induction l as [| x l IH]; [reflexivity |].
  rewrite !bind_cons. now apply Permutation_app.
Qed.

Lemma fmap_bind_list {X Y V : Type} (h : Y -> V) (g : X -> list Y) (l : list X) :
  h <$> (l ≫= g) = l ≫= (fun x => h <$> g x).
Proof.
  induction l as [| x l IH]; [reflexivity |].
  rewrite !bind_cons, fmap_app. now rewrite IH.
Qed.

Lemma elem_of_range (lo hi k : Z) : k ∈ range lo hi <-> lo <= k < hi.
Proof. unfold range. rewrite elem_of_seqZ. lia. Qed.

Lemma NoDup_range (lo hi : Z) : NoDup (range lo hi).
Proof. apply NoDup_seqZ. Qed.

Lemma elem_of_pairs (lo1 hi1 lo2 hi2 : Z) (p : Z * Z) :
  p ∈ pairs lo1 hi1 lo2 hi2 <-> (lo1 <= p.1 < hi1) /\ (lo2 <= p.2 < hi2).
Proof.
  unfold pairs. rewrite list_elem_of_bind. split.
  - intros (i & Hp & Hi). apply list_elem_of_fmap in Hp as (j & -> & Hj).
    apply elem_of_range in Hi, Hj. simpl. lia.
  - intros [H1 H2]. exists p.1. split.
    + apply list_elem_of_fmap. exists p.2. split; [now destruct p |].
      now apply elem_of_range.
    + now apply elem_of_range.
Qed.

Lemma NoDup_pairs (lo1 hi1 lo2 hi2 : Z) : NoDup (pairs lo1 hi1 lo2 hi2).
Proof.
  unfold pairs. apply NoDup_bind.
  - intros x1 x2 y _ _ H1 H2.
    apply list_elem_of_fmap in H1 as (j1 & -> & _).
    apply list_elem_of_fmap in H2 as (j2 & H2 & _). now inversion H2.
  - intros x _. apply NoDup_fmap_2; [| apply NoDup_range].
    intros j1 j2 H. now inversion H.
  - apply NoDup_range.
Qed.

(** The blocks of [tile_fixed] cover the range, in order. *)
Lemma tiles_cover_prefix (lo hi : Z) (k : nat) :
  Z.of_nat k <= (hi - lo + tile_size - 1) / tile_size ->
  ((fun t => (lo + t * tile_size, Z.min (lo + (t + 1) * tile_size) hi))
     <$> seqZ 0 (Z.of_nat k)) ≫= (fun t => range t.1 t.2)
  = seqZ lo (Z.min (Z.of_nat k * tile_size) (hi - lo)).
Proof.
  unfold tile_size. induction k as [| k IH]; intros Hk.
  - simpl. now rewrite seqZ_nil by lia.
  - rewrite seqZ_S, fmap_app, bind_app, IH by lia. simpl.
    rewrite app_nil_r. unfold range. simpl.
    assert (Hlt : Z.of_nat k * 32 < hi - lo).
    { assert (Z.of_nat k + 1 <= (hi - lo + 32 - 1) / 32) by lia.
      pose proof (Z.mul_div_le (hi - lo + 32 - 1) 32). lia. }
    rewrite (Z.min_l (Z.of_nat k * 32)) by lia.
    rewrite <- seqZ_app by lia. f_equal. lia.
Qed.

Lemma tiles_cover (lo hi : Z) : tiles lo hi ≫= (fun t => range t.1 t.2) = range lo hi.
Proof.
  unfold tiles, range.
  destruct (Z.le_gt_cases hi lo) as [Hle | Hgt].
  - rewrite (seqZ_nil lo) by lia. rewrite seqZ_nil; [reflexivity |].
    unfold tile_size. apply Z.lt_succ_r. apply Z.div_lt_upper_bound; lia.
  - set (nt := (hi - lo + tile_size - 1) / tile_size).
    assert (Hnt : 0 <= nt) by (apply Z.div_pos; unfold tile_size; lia).
    rewrite <- (Z2Nat.id nt) at 1 by assumption.
    rewrite tiles_cover_prefix by (fold nt; lia).
    f_equal. rewrite Z2Nat.id by assumption.
    apply Z.min_r. unfold nt, tile_size.
    pose proof (Z.mod_pos_bound (hi - lo + 32 - 1) 32).
    pose proof (Z.div_mod (hi - lo + 32 - 1) 32). lia.
Qed.

(** The tiled schedule is a rearrangement of the row-major one. *)
Lemma tiled_pairs_perm (lo1 hi1 lo2 hi2 : Z) :
  tiled_pairs lo1 hi1 lo2 hi2 ≡ₚ pairs lo1 hi1 lo2 hi2.
Proof.
  unfold tiled_pairs, pairs at 2.
  rewrite <- (tiles_cover lo1 hi1), <- (tiles_cover lo2 hi2).
  rewrite list_bind_assoc.
  apply bind_perm_pointwise. intros ti.
  unfold pairs. rewrite bind_swap_perm.
  apply eq_subrelation; [typeclasses eauto |].
  apply list_bind_ext; [| reflexivity]. intros i.
  now rewrite fmap_bind_list.
Qed.

Lemma schedule_perm (p : NestedPolicy) (lo1 hi1 lo2 hi2 : Z) :
  schedule p lo1 hi1 lo2 hi2 ≡ₚ pairs lo1 hi1 lo2 hi2.
Proof. unfold schedule. destruct (tiling p); [apply tiled_pairs_perm | reflexivity]. Qed.

Lemma elem_of_schedule (p : NestedPolicy) (lo1 hi1 lo2 hi2 : Z) (q : Z * Z) :
  q ∈ schedule p lo1 hi1 lo2 hi2 <-> (lo1 <= q.1 < hi1) /\ (lo2 <= q.2 < hi2).
Proof. rewrite (schedule_perm p). apply elem_of_pairs. Qed.

Lemma NoDup_schedule (p : NestedPolicy) (lo1 hi1 lo2 hi2 : Z) :
  NoDup (schedule p lo1 hi1 lo2 hi2).
Proof. rewrite (schedule_perm p). apply NoDup_pairs. Qed.

(** ** Index arithmetic *)

Section Indexing.
Variable order : Z.
Hypothesis order_int : order <= INT_MAX.

Lemma cell_bounds (i j : Z) :
  0 <= i < order -> 0 <= j < order ->
  0 <= i * order + j < order * order.
Proof. intros Hi Hj. nia. Qed.

Lemma cell_indx (i j : Z) :
  0 <= i < order -> 0 <= j < order ->
  indx (indx (i * order) + j) = i * order + j.
Proof.
  intros Hi Hj. unfold INT_MAX in order_int.
  assert (0 <= i * order < 2 ^ 62) by nia.
  rewrite (indx_small (i * order)) by lia.
  apply indx_small. lia.
Qed.

Lemma cell_inj (i j i' j' : Z) :
  0 <= i < order -> 0 <= j < order -> 0 <= i' < order -> 0 <= j' < order ->
  i * order + j = i' * order + j' -> i = i' /\ j = j'.
Proof.
  intros Hi Hj Hi' Hj' Heq.
  assert (i = i'); [| subst; lia].
  destruct (Z.lt_trichotomy i i') as [Hlt | [Heq' | Hgt]]; [| assumption |].
  - assert ((i + 1) * order <= i' * order) by (apply Z.mul_le_mono_nonneg_r; lia). lia.
  - assert ((i' + 1) * order <= i * order) by (apply Z.mul_le_mono_nonneg_r; lia). lia.
Qed.

Lemma cell_to_nat_inj (i j i' j' : Z) :
  0 <= i < order -> 0 <= j < order -> 0 <= i' < order -> 0 <= j' < order ->
  Z.to_nat (i * order + j) = Z.to_nat (i' * order + j') -> i = i' /\ j = j'.
Proof.
  intros Hi Hj Hi' Hj' Heq. apply cell_inj; try assumption.
  pose proof (cell_bounds i j Hi Hj). pose proof (cell_bounds i' j' Hi' Hj'). lia.
Qed.

(** Every linear index is the cell of one pair. *)
Lemma cell_div_mod (k : Z) :
  0 <= order -> 0 <= k < order * order ->
  0 <= k / order < order /\ 0 <= k mod order < order
  /\ k = (k / order) * order + k mod order.
Proof.
  intros Ho Hk. assert (0 < order) by nia.
  pose proof (Z.mod_pos_bound k order). pose proof (Z.div_mod k order).
  assert (0 <= k / order) by (apply Z.div_pos; lia).
  assert (k / order < order) by (apply Z.div_lt_upper_bound; lia).
  lia.
Qed.
End Indexing.

(** ** The kernels, cell by cell *)

Section Kernels.
Variable order : Z.
Hypothesis order_nonneg : 0 <= order.
Hypothesis order_int : order <= INT_MAX.

Local Abbreviation sized := (sized order).
Local Abbreviation in_square := (in_square order).

(** One body: the two cells it touches, and nothing else. *)
Lemma Transpose_body_Some (i j : Z) (m : memory) :
  sized m -> in_square (i, j) ->
  exists a b,
    m.1 !! Z.to_nat (j * order + i) = Some a /\
    m.2 !! Z.to_nat (i * order + j) = Some b /\
    Transpose_body order i j m
    = Some (<[Z.to_nat (j * order + i) := dadd a 1]> m.1,
            <[Z.to_nat (i * order + j) := dadd b a]> m.2).
Proof.
  intros [HA HB] [Hi Hj]. simpl in Hi, Hj.
  pose proof (cell_bounds order i j Hi Hj) as Hij.
  pose proof (cell_bounds order j i Hj Hi) as Hji.
  destruct (lookup_lt_is_Some_2 m.1 (Z.to_nat (j * order + i))) as [a Ha]; [lia |].
  destruct (lookup_lt_is_Some_2 m.2 (Z.to_nat (i * order + j))) as [b Hb]; [lia |].
  exists a, b. split; [assumption |]. split; [assumption |].
  unfold Transpose_body.
  rewrite !(cell_indx order order_int) by assumption.
  rewrite !vec_get_in, Ha, Hb by lia. simpl.
  rewrite !vec_set_in by lia. reflexivity.
Qed.

Lemma Transpose_cells (l : list (Z * Z)) :
  NoDup l -> Forall in_square l ->
  forall m, sized m ->
  exists m',
    for_each (fun p => Transpose_body order p.1 p.2) l m = Some m' /\
    sized m' /\
    forall i j, in_square (i, j) ->
      m'.1 !! Z.to_nat (j * order + i)
      = (if decide ((i, j) ∈ l)
         then (fun a => dadd a 1) <$> m.1 !! Z.to_nat (j * order + i)
         else m.1 !! Z.to_nat (j * order + i)) /\
      m'.2 !! Z.to_nat (i * order + j)
      = (if decide ((i, j) ∈ l)
         then b ← m.2 !! Z.to_nat (i * order + j);
              a ← m.1 !! Z.to_nat (j * order + i); Some (dadd b a)
         else m.2 !! Z.to_nat (i * order + j)).
Proof.
  induction l as [| p l IH]; intros Hnd Hall m Hm.
  - exists m. split; [reflexivity |]. split; [assumption |].
    intros i j _. rewrite !decide_False by apply not_elem_of_nil. easy.
  - apply list.NoDup_cons in Hnd as [Hp Hnd].
    apply list.Forall_cons in Hall as [Hsq Hall].
    destruct p as [pi pj].
    destruct (Transpose_body_Some pi pj m Hm Hsq) as (a & b & Ha & Hb & Hbody).
    set (m1 := (<[Z.to_nat (pj * order + pi) := dadd a 1]> m.1,
                <[Z.to_nat (pi * order + pj) := dadd b a]> m.2)) in *.
    assert (Hm1 : sized m1).
    { destruct Hm as [HA HB]. split; simpl; now rewrite length_insert. }
    destruct (IH Hnd Hall m1 Hm1) as (m' & Hrun & Hm' & Hcells).
    exists m'. split; [| split; [assumption |]].
    { simpl. rewrite Hbody. simpl. exact Hrun. }
    intros i j Hij. destruct (Hcells i j Hij) as [HA' HB'].
    destruct Hsq as [Hpi Hpj], Hij as [Hi Hj]. simpl in *.
    pose proof (cell_bounds order pi pj Hpi Hpj).
    pose proof (cell_bounds order pj pi Hpj Hpi).
    destruct Hm as [HlA HlB].
    destruct (decide ((i, j) = (pi, pj))) as [Heq | Hne].
    + inversion Heq; subst i j.
      rewrite !decide_True by apply list_elem_of_here.
      rewrite decide_False in HA', HB' by assumption.
      rewrite HA', HB'. simpl.
      rewrite !list_lookup_insert_eq by lia.
      rewrite Ha, Hb. easy.
    + assert (Hji : Z.to_nat (pj * order + pi) <> Z.to_nat (j * order + i)).
      { intros Heq. apply (cell_to_nat_inj order) in Heq as [-> ->]; auto. }
      assert (Hij' : Z.to_nat (pi * order + pj) <> Z.to_nat (i * order + j)).
      { intros Heq. apply (cell_to_nat_inj order) in Heq as [-> ->]; auto. }
      simpl in HA', HB'.
      rewrite !list_lookup_insert_ne in HA' by assumption.
      rewrite !list_lookup_insert_ne in HB' by assumption.
      rewrite HA', HB'.
      destruct (decide ((i, j) ∈ l)) as [Hin | Hnin].
      * rewrite !decide_True by now apply list_elem_of_further. easy.
      * rewrite !decide_False; [easy | |];
        intros Hin; apply elem_of_cons in Hin as [? | ?]; contradiction.
Qed.

(** Every schedule that meets each pair of the square once performs one
    step of the kernel. *)
Lemma Transpose_schedule (l : list (Z * Z)) (m : memory) :
  NoDup l -> (forall q, q ∈ l <-> in_square q) -> sized m ->
  for_each (fun p => Transpose_body order p.1 p.2) l m = Some (Transpose_step order m).
Proof.
  intros Hnd Hl Hm.
  assert (Hall : Forall in_square l) by (apply list.Forall_forall; intros q; apply Hl).
  destruct (Transpose_cells l Hnd Hall m Hm) as (m' & Hrun & [HA' HB'] & Hcells).
  rewrite Hrun. f_equal. destruct Hm as [HA HB].
  destruct m' as [A' B']. unfold Transpose_step. simpl in *. f_equal.
  - apply list_eq. intros k. rewrite list_lookup_fmap.
    destruct (decide (Z.of_nat k < order * order)) as [Hk | Hk].
    + destruct (cell_div_mod order (Z.of_nat k)) as (Hj & Hi & Hkk); [lia .. |].
      destruct (Hcells (Z.of_nat k mod order) (Z.of_nat k / order)) as [Hc _];
        [split; assumption |].
      rewrite <- Hkk, Nat2Z.id in Hc. rewrite Hc.
      rewrite decide_True; [reflexivity |]. apply Hl. split; assumption.
    + rewrite !lookup_ge_None_2 by lia. reflexivity.
  - apply list_eq. intros k. rewrite list_lookup_fmap.
    destruct (decide (Z.of_nat k < order * order)) as [Hk | Hk].
    + destruct (cell_div_mod order (Z.of_nat k)) as (Hi & Hj & Hkk); [lia .. |].
      destruct (Hcells (Z.of_nat k / order) (Z.of_nat k mod order)) as [_ Hc];
        [split; assumption |].
      rewrite <- Hkk, Nat2Z.id in Hc. rewrite Hc.
      rewrite decide_True by (apply Hl; split; assumption).
      rewrite lookup_seqZ_lt by lia. cbn [fmap option_fmap option_map].
      pose proof (cell_bounds order _ _ Hj Hi) as Hji.
      unfold transposed. rewrite Z.add_0_l, !vec_get_in by lia. rewrite Nat2Z.id.
      destruct (lookup_lt_is_Some_2 m.2 k) as [b Hb]; [lia |].
      destruct (lookup_lt_is_Some_2 m.1
                  (Z.to_nat (Z.of_nat k mod order * order + Z.of_nat k / order)))
        as [a Ha]; [lia |].
      rewrite Hb, Ha. reflexivity.
    + rewrite lookup_seqZ_ge by lia. rewrite lookup_ge_None_2 by lia. reflexivity.
Qed.

Lemma Transpose_step_sized (m : memory) : sized m -> sized (Transpose_step order m).
Proof.
  intros [HA HB]. split; simpl.
  - now rewrite length_fmap.
  - rewrite length_fmap, length_seqZ. nia.
Qed.

(** The forallN overload, under every policy. *)
Lemma Transpose_correct (p : NestedPolicy) (m : memory) :
  sized m -> Transpose p order m = Some (Transpose_step order m).
Proof.
  intros Hm. unfold Transpose, forallN. apply Transpose_schedule.
  - apply NoDup_schedule.
  - intros q. apply elem_of_schedule.
  - assumption.
Qed.

(** The overload with two nested forall. *)
Lemma Transpose2_correct (o i : exec_policy) (m : memory) :
  sized m -> Transpose2 o i order m = Some (Transpose_step order m).
Proof.
  intros Hm. unfold Transpose2. rewrite forall_forall_pairs.
  apply Transpose_schedule.
  - apply NoDup_pairs.
  - intros q. apply elem_of_pairs.
  - assumption.
Qed.

Lemma Initialize_body_Some (i j : Z) (m : memory) :
  sized m -> in_square (i, j) ->
  Initialize_body order i j m
  = Some (<[Z.to_nat (i * order + j) := double_of_int (i * order + j)]> m.1,
          <[Z.to_nat (i * order + j) := 0]> m.2).
Proof.
  intros [HA HB] [Hi Hj]. simpl in Hi, Hj.
  pose proof (cell_bounds order i j Hi Hj) as Hij.
  unfold Initialize_body.
  rewrite !(cell_indx order order_int) by assumption.
  rewrite !vec_set_in by lia. reflexivity.
Qed.

Lemma Initialize_cells (l : list (Z * Z)) :
  Forall in_square l ->
  forall m, sized m ->
  exists m',
    for_each (fun p => Initialize_body order p.1 p.2) l m = Some m' /\
    sized m' /\
    forall i j, in_square (i, j) -> (i, j) ∈ l ->
      m'.1 !! Z.to_nat (i * order + j) = Some (double_of_int (i * order + j)) /\
      m'.2 !! Z.to_nat (i * order + j) = Some 0.
Proof.
  induction l as [| p l IH] using rev_ind; intros Hall m Hm.
  - exists m. split; [reflexivity |]. split; [assumption |].
    intros i j _ Hin. now apply not_elem_of_nil in Hin.
  - apply Forall_app in Hall as [Hall Hsq]. apply Forall_inv in Hsq.
    destruct (IH Hall m Hm) as (m1 & Hrun & Hm1 & Hcells).
    destruct p as [pi pj].
    pose proof (Initialize_body_Some pi pj m1 Hm1 Hsq) as Hbody.
    set (m' := (<[Z.to_nat (pi * order + pj) := double_of_int (pi * order + pj)]> m1.1,
                <[Z.to_nat (pi * order + pj) := 0]> m1.2)) in *.
    exists m'. split; [| split].
    + rewrite for_each_app, Hrun. simpl. now rewrite Hbody.
    + destruct Hm1 as [HA HB]. split; simpl; now rewrite length_insert.
    + intros i j Hij Hin.
      destruct Hsq as [Hpi Hpj], Hij as [Hi Hj], Hm1 as [HA HB]. simpl in *.
      pose proof (cell_bounds order pi pj Hpi Hpj).
      destruct (decide ((i, j) = (pi, pj))) as [Heq | Hne].
      * inversion Heq; subst i j.
        rewrite !list_lookup_insert_eq by lia. easy.
      * assert (Hij' : Z.to_nat (pi * order + pj) <> Z.to_nat (i * order + j)).
        { intros Heq. apply (cell_to_nat_inj order) in Heq as [-> ->]; auto. }
        rewrite !list_lookup_insert_ne by assumption.
        apply Hcells; [split; assumption |].
        apply elem_of_app in Hin as [Hin | Hin]; [assumption |].
        apply list_elem_of_singleton in Hin. contradiction.
Qed.

(** Every schedule that meets each pair of the square writes the starting
    pattern, whatever the buffers held. *)
Lemma Initialize_schedule (l : list (Z * Z)) (m : memory) :
  (forall q, q ∈ l <-> in_square q) -> sized m ->
  for_each (fun p => Initialize_body order p.1 p.2) l m = Some (initial_memory order).
Proof.
  intros Hl Hm.
  assert (Hall : Forall in_square l) by (apply list.Forall_forall; intros q; apply Hl).
  destruct (Initialize_cells l Hall m Hm) as (m' & Hrun & [HA' HB'] & Hcells).
  rewrite Hrun. f_equal.
  destruct m' as [A' B']. unfold initial_memory. simpl in *. f_equal.
  - apply list_eq. intros k. rewrite list_lookup_fmap.
    destruct (decide (Z.of_nat k < order * order)) as [Hk | Hk].
    + destruct (cell_div_mod order (Z.of_nat k)) as (Hi & Hj & Hkk); [lia .. |].
      destruct (Hcells (Z.of_nat k / order) (Z.of_nat k mod order)) as [Hc _];
        [split; assumption | apply Hl; split; assumption |].
      rewrite <- Hkk, Nat2Z.id in Hc. rewrite Hc.
      rewrite lookup_seqZ_lt by lia. now rewrite Z.add_0_l.
    + rewrite lookup_seqZ_ge by lia. rewrite lookup_ge_None_2 by lia. reflexivity.
  - apply list_eq. intros k.
    destruct (decide (Z.of_nat k < order * order)) as [Hk | Hk].
    + destruct (cell_div_mod order (Z.of_nat k)) as (Hi & Hj & Hkk); [lia .. |].
      destruct (Hcells (Z.of_nat k / order) (Z.of_nat k mod order)) as [_ Hc];
        [split; assumption | apply Hl; split; assumption |].
      rewrite <- Hkk, Nat2Z.id in Hc. rewrite Hc.
      symmetry. apply lookup_replicate_2. lia.
    + rewrite !lookup_ge_None_2; [reflexivity | rewrite length_replicate; lia | lia].
Qed.

Lemma initial_memory_sized : sized (initial_memory order).
Proof.
  split; simpl.
  - rewrite length_fmap, length_seqZ. nia.
  - rewrite length_replicate. nia.
Qed.

Lemma Initialize_correct (p : NestedPolicy) (m : memory) :
  sized m -> Initialize p order m = Some (initial_memory order).
Proof.
  intros Hm. unfold Initialize, forallN. apply Initialize_schedule; [| assumption].
  intros q. apply elem_of_schedule.
Qed.

Lemma Initialize2_correct (o i : exec_policy) (m : memory) :
  sized m -> Initialize2 o i order m = Some (initial_memory order).
Proof.
  intros Hm. unfold Initialize2. rewrite forall_forall_pairs.
  apply Initialize_schedule; [| assumption].
  intros q. apply elem_of_pairs.
Qed.
End Kernels.

(** ** The closed form of the run *)

Lemma half_succ (n : Z) : n * (n - 1) / 2 + n = (n + 1) * n / 2.
Proof.
  replace ((n + 1) * n) with (n * (n - 1) + n * 2) by ring.
  now rewrite Z.div_add by lia.
Qed.

Lemma half_nonneg (n : Z) : 0 <= n -> 0 <= n * (n - 1) / 2.
Proof.
  intros Hn. apply Z.div_pos; [| lia].
  destruct (Z.eq_dec n 0) as [-> | Hnz]; [lia |]. apply Z.mul_nonneg_nonneg; lia.
Qed.

Lemma half_mono (n n' : Z) : 0 <= n <= n' -> n * (n - 1) / 2 <= n' * (n' - 1) / 2.
Proof.
  intros Hn. apply Z.div_le_mono; [lia |].
  destruct (Z.eq_dec n 0) as [-> | Hnz]; [nia |].
  apply Z.mul_le_mono_nonneg; lia.
Qed.

Lemma exact_after_mono (order n n' : Z) :
  0 < order -> 0 <= n <= n' -> exact_after order n' -> exact_after order n.
Proof.
  intros Ho Hn [HA HB]. pose proof (half_mono n n' Hn).
  split; [lia |]. assert (n * (order * order - 1) <= n' * (order * order - 1)) by nia.
  lia.
Qed.

Section ClosedForm.
Variable order : Z.
Hypothesis order_pos : 0 < order.
Hypothesis order_int : order <= INT_MAX.

Lemma transposed_bounds (k : Z) :
  0 <= k < order * order -> 0 <= transposed order k < order * order.
Proof.
  intros Hk. destruct (cell_div_mod order k) as (Hi & Hj & _); [lia .. |].
  unfold transposed. now apply cell_bounds.
Qed.

Lemma transposed_cell (i j : Z) :
  0 <= i < order -> 0 <= j < order ->
  transposed order (j * order + i) = i * order + j.
Proof.
  intros Hi Hj. unfold transposed.
  replace (j * order + i) with (i + j * order) by lia.
  rewrite Z.mod_add, Z.div_add by lia.
  rewrite Z.mod_small, Z.div_small by lia. lia.
Qed.

Lemma memory_after_sized (n : Z) : sized order (memory_after order n).
Proof. split; simpl; rewrite length_fmap, length_seqZ; nia. Qed.

Lemma memory_after_A (n k : Z) :
  0 <= k < order * order -> vec_get (memory_after order n).1 k = Some (k + n).
Proof.
  intros Hk. pose proof (memory_after_sized n) as [HA _].
  rewrite vec_get_in by lia. simpl.
  rewrite list_lookup_fmap, lookup_seqZ_lt by lia. simpl. f_equal. lia.
Qed.

Lemma memory_after_B (n k : Z) :
  0 <= k < order * order ->
  vec_get (memory_after order n).2 k
  = Some (n * transposed order k + n * (n - 1) / 2).
Proof.
  intros Hk. pose proof (memory_after_sized n) as [_ HB].
  rewrite vec_get_in by lia. simpl.
  rewrite list_lookup_fmap, lookup_seqZ_lt by lia. simpl.
  now rewrite Z.add_0_l, Z2Nat.id by lia.
Qed.

(** With every value exact, the starting pattern is [memory_after order 0]
    and one step leads from [memory_after order n] to the next. *)
Lemma initial_memory_exact :
  order * order <= 2 ^ 53 -> initial_memory order = memory_after order 0.
Proof.
  intros Hb. unfold initial_memory, memory_after. f_equal.
  - apply Forall_fmap_ext_1, Forall_seqZ. intros k Hk.
    rewrite double_of_int_exact by lia. lia.
  - apply list_eq. intros k.
    destruct (decide (Z.of_nat k < order * order)) as [Hk | Hk].
    + rewrite lookup_replicate_2 by lia.
      rewrite list_lookup_fmap, lookup_seqZ_lt by lia. reflexivity.
    + rewrite lookup_ge_None_2 by (rewrite length_replicate; lia).
      rewrite list_lookup_fmap, lookup_seqZ_ge by lia. reflexivity.
Qed.

Lemma Transpose_step_exact (n : Z) :
  0 <= n -> exact_after order (n + 1) ->
  Transpose_step order (memory_after order n) = memory_after order (n + 1).
Proof.
  intros Hn [HA HB]. pose proof (half_nonneg n Hn) as Hh.
  pose proof (half_succ n) as Hs. replace ((n + 1) * n) with ((n + 1) * (n + 1 - 1)) in Hs by ring.
  apply injective_projections.
  - unfold Transpose_step, memory_after. cbn [fst snd].
    rewrite <- list_fmap_compose.
    apply Forall_fmap_ext_1, Forall_seqZ. intros k Hk. simpl.
    rewrite dadd_exact by lia. lia.
  - unfold Transpose_step. cbn [snd].
    change (memory_after order (n + 1)).2
      with ((fun k => (n + 1) * transposed order k + (n + 1) * (n + 1 - 1) / 2)
              <$> seqZ 0 (order * order)).
    apply Forall_fmap_ext_1, Forall_seqZ. intros k Hk.
    pose proof (transposed_bounds k ltac:(lia)) as Ht.
    rewrite memory_after_B, memory_after_A by lia. simpl.
    assert (n * transposed order k <= n * (order * order - 1)) by nia.
    assert ((n + 1) * transposed order k <= (n + 1) * (order * order - 1)) by nia.
    rewrite dadd_exact by lia. lia.
Qed.

(** [n] executions from the starting pattern. *)
Lemma iterate_succ (n : Z) (step : memory -> option memory) (m : memory) :
  0 <= n -> iterate (n + 1) step m = iterate n step m ≫= step.
Proof.
  intros Hn. unfold iterate.
  replace (Z.to_N (n + 1)) with (N.succ (Z.to_N n)) by lia.
  now rewrite N.iter_succ.
Qed.

Lemma iterate_add (n n' : Z) (step : memory -> option memory) (m : memory) :
  0 <= n -> 0 <= n' ->
  iterate (n + n') step m = iterate n step m ≫= iterate n' step.
Proof.
  intros Hn Hn'. unfold iterate.
  replace (Z.to_N (n + n')) with (Z.to_N n' + Z.to_N n)%N by lia.
  rewrite N.iter_add.
  destruct (N.iter (Z.to_N n) (fun r => r ≫= step) (Some m)) as [m1 |]; simpl;
    [reflexivity |].
  induction (Z.to_N n') as [| k IH] using N.peano_ind; [reflexivity |].
  now rewrite N.iter_succ, IH.
Qed.

Lemma iterate_exact (step : memory -> option memory) (n : Z) :
  (forall m, sized order m -> step m = Some (Transpose_step order m)) ->
  0 <= n -> exact_after order n ->
  iterate n step (memory_after order 0) = Some (memory_after order n).
Proof.
  intros Hstep Hn. pattern n. revert n Hn. apply natlike_ind.
  - reflexivity.
  - intros n Hn IH Hex. unfold Z.succ in *.
    rewrite iterate_succ by assumption.
    rewrite IH by (apply (exact_after_mono order n (n + 1)); [lia .. | assumption]).
    simpl. rewrite Hstep by apply memory_after_sized.
    now rewrite Transpose_step_exact.
Qed.
End ClosedForm.

(** ** Dispatch *)

(** With both back ends built in, each of the three chains calls one
    instance of the kernel and no abort follows. *)
Lemma select_full (v : variant) (kN : NestedPolicy -> kernel)
    (k2 : exec_policy -> exec_policy -> kernel) (order : Z) (m : memory)
    (r : option memory) :
  known_for v ->
  (forall p, kN p order m = r) -> (forall o i, k2 o i order m = r) ->
  select OpenMP_and_TBB v kN k2 order m = (r, None).
Proof.
  intros Hv HN H2. unfold select. f_equal.
  destruct Hv as [-> | [-> | ->]]; simpl;
    unfold variant_seq, variant_omp, variant_tbb;
    destruct (use_nested v), (use_tiled v), (use_simd v); auto.
Qed.

Lemma select_Initialize (v : variant) (order : Z) (m : memory) :
  0 <= order <= INT_MAX -> known_for v -> sized order m ->
  select OpenMP_and_TBB v Initialize Initialize2 order m
  = (Some (initial_memory order), None).
Proof.
  intros Ho Hv Hm. apply select_full; [assumption | |]; intros.
  - apply Initialize_correct; (lia || assumption).
  - apply Initialize2_correct; (lia || assumption).
Qed.

Lemma select_Transpose (v : variant) (order : Z) (m : memory) :
  0 <= order <= INT_MAX -> known_for v -> sized order m ->
  select OpenMP_and_TBB v Transpose Transpose2 order m
  = (Some (Transpose_step order m), None).
Proof.
  intros Ho Hv Hm. apply select_full; [assumption | |]; intros.
  - apply Transpose_correct; (lia || assumption).
  - apply Transpose2_correct; (lia || assumption).
Qed.

(** ** Validation of an exact run *)

Lemma for_each_fixed {X S : Type} (body : X -> S -> option S) (l : list X) (s : S) :
  (forall x, x ∈ l -> body x s = Some s) -> for_each body l s = Some s.
Proof.
  induction l as [| x l IH]; intros Hb; [reflexivity |].
  simpl. rewrite Hb by apply list_elem_of_here. simpl.
  apply IH. intros y Hy. apply Hb. now apply list_elem_of_further.
Qed.

Lemma sqrt_INT_MAX : Z.sqrt INT_MAX = 46340.
Proof. reflexivity. Qed.

Section Validation.
Variables order iterations : Z.
Hypothesis order_accepted : 0 < order <= Z.sqrt INT_MAX.
Hypothesis iterations_pos : 0 <= iterations.
Hypothesis exact : exact_after order (iterations + 1).

Lemma accepted_int : order <= INT_MAX.
Proof. rewrite sqrt_INT_MAX in order_accepted. unfold INT_MAX. lia. Qed.

Lemma accepted_square : order * order <= INT_MAX.
Proof. rewrite sqrt_INT_MAX in order_accepted. unfold INT_MAX. nia. Qed.

Lemma reference_is_cell (i j : Z) :
  0 <= i < order -> 0 <= j < order ->
  vec_get (memory_after order (iterations + 1)).2 (j * order + i)
  = Some (reference order iterations i j).
Proof.
  intros Hi Hj. pose proof (cell_bounds order j i Hj Hi).
  rewrite memory_after_B by lia.
  rewrite transposed_cell by lia. unfold reference. f_equal.
  replace (iterations + 1 - 1) with iterations by lia. ring.
Qed.

Lemma reference_exact (i j : Z) :
  0 <= i < order -> 0 <= j < order ->
  dadd (dmul (double_of_int (i * order + j)) (dadd 1 (double_of_int iterations)))
       (dmul_half (dadd (double_of_int iterations) 1) (double_of_int iterations))
  = reference order iterations i j.
Proof.
  intros Hi Hj. destruct exact as [HA HB].
  replace (iterations + 1 - 1) with iterations in HB by lia.
  pose proof (cell_bounds order i j Hi Hj) as Hij.
  assert (Hh : 0 <= (iterations + 1) * iterations / 2)
    by (apply Z.div_pos; [apply Z.mul_nonneg_nonneg |]; lia).
  assert (0 < order * order) by nia.
  assert (0 <= (iterations + 1) * (order * order - 1))
    by (apply Z.mul_nonneg_nonneg; lia).
  assert (0 <= (i * order + j) * (1 + iterations)
          <= (iterations + 1) * (order * order - 1)) by nia.
  rewrite !(double_of_int_exact iterations) by lia.
  rewrite (double_of_int_exact (i * order + j)) by lia.
  rewrite (dadd_exact 1 iterations), (dadd_exact iterations 1) by lia.
  rewrite dmul_exact, dmul_half_exact by lia.
  rewrite dadd_exact by lia. reflexivity.
Qed.

Lemma validator_exact (p : exec_policy) :
  validator p order iterations (memory_after order (iterations + 1)).2 = Some 0.
Proof.
  unfold validator, forallN, schedule. cbn [tiling].
  apply for_each_fixed. intros [i j] Hin.
  apply elem_of_pairs in Hin as [Hi Hj]. simpl in Hi, Hj. cbn [fst snd].
  pose proof accepted_int. pose proof accepted_square.
  pose proof (cell_bounds order i j Hi Hj). pose proof (cell_bounds order j i Hj Hi).
  unfold validator_body.
  rewrite !(cell_indx order) by assumption.
  rewrite !int_small by lia.
  rewrite reference_is_cell by assumption. simpl.
  rewrite reference_exact by assumption.
  unfold dsub. rewrite Z.sub_diag. reflexivity.
Qed.
End Validation.

(** ** The command line *)

Lemma wrap_range (w z : Z) : 0 < w -> - 2 ^ (w - 1) <= wrap w z < 2 ^ (w - 1).
Proof.
  intros Hw. unfold wrap.
  assert (Hp : 2 ^ w = 2 * 2 ^ (w - 1)).
  { rewrite <- Z.pow_succ_r by lia. f_equal. lia. }
  assert (0 < 2 ^ (w - 1)) by (apply Z.pow_pos_nonneg; lia).
  pose proof (Z.mod_pos_bound (z + 2 ^ (w - 1)) (2 ^ w)). lia.
Qed.

Lemma atoi_range (s : string) : - INT_MAX - 1 <= atoi s <= INT_MAX.
Proof.
  unfold atoi, int, INT_MAX. pose proof (wrap_range 32 (strtol s)). simpl in *. lia.
Qed.

Lemma substring_length_le (n k : nat) (s : string) :
  (String.length (substring n k s) <= String.length s - n)%nat.
Proof.
  revert n k. induction s as [| c s IH]; intros [| n] [| k]; simpl; try lia.
  - specialize (IH 0%nat k). lia.
  - apply IH.
  - apply IH.
Qed.

(** A string that contains a key is at least as long as the key, so the
    [substr] that follows a successful [find] does not throw. *)
Lemma find_Some_length (pat s : string) (n : nat) :
  find pat s = Some n -> (String.length pat <= String.length s)%nat.
Proof.
  unfold find. intros Hf. apply index_correct1 in Hf.
  pose proof (substring_length_le n (String.length pat) s).
  rewrite Hf in *. lia.
Qed.

Lemma substr_defined (pos : nat) (s : string) :
  (pos <= String.length s)%nat ->
  substr pos s = Some (substring pos (String.length s) s).
Proof. intros H. unfold substr. now rewrite (proj2 (Nat.leb_le _ _) H). Qed.

(** Each block assigns a constant or nothing, and which one depends on the
    token alone. *)
Lemma flag_for_uniform (s : string) :
  exists o, (o = None \/ o = Some "omp" \/ o = Some "tbb") /\
    forall v, flag_for s v = Some (assign o None None None None v).
Proof.
  unfold flag_for. destruct (find "for=" s) as [n |] eqn:Hf.
  - apply find_Some_length in Hf. rewrite substr_defined by exact Hf.
    unfold when_eq. simpl.
    destruct (String.eqb _ "omp"), (String.eqb _ "openmp"), (String.eqb _ "tbb");
      ((exists (Some "tbb"); split; [auto |]; now intros [])
       || (exists (Some "omp"); split; [auto |]; now intros [])
       || (exists None; split; [auto |]; now intros [])).
  - exists None. split; [auto |]. now intros [].
Qed.

Lemma flag_simd_uniform (s : string) :
  exists o, (o = None \/ o = Some false) /\
    forall v, flag_simd s v = Some (assign None None o None None v).
Proof.
  unfold flag_simd. destruct (find "simd=" s) as [n |] eqn:Hf.
  - apply find_Some_length in Hf. rewrite substr_defined by exact Hf.
    unfold when_eq. simpl.
    destruct (String.eqb _ "n"), (String.eqb _ "np");
      ((exists (Some false); split; [auto |]; now intros [])
       || (exists None; split; [auto |]; now intros [])).
  - exists None. split; [auto |]. now intros [].
Qed.

Lemma flag_nested_uniform (s : string) :
  exists o, (o = None \/ o = Some false) /\
    forall v, flag_nested s v = Some (assign None None None o None v).
Proof.
  unfold flag_nested. destruct (find "nested=" s) as [n |] eqn:Hf.
  - apply find_Some_length in Hf. rewrite substr_defined by exact Hf.
    unfold when_eq. simpl.
    destruct (String.eqb _ "n"), (String.eqb _ "no");
      ((exists (Some false); split; [auto |]; now intros [])
       || (exists None; split; [auto |]; now intros [])).
  - exists None. split; [auto |]. now intros [].
Qed.

Lemma flag_tiled_uniform (s : string) :
  exists o, (o = None \/ o = Some true) /\
    forall v, flag_tiled s v = Some (assign None None None None o v).
Proof.
  unfold flag_tiled. destruct (find "tiled=" s) as [n |] eqn:Hf.
  - apply find_Some_length in Hf. rewrite substr_defined by exact Hf.
    unfold when_eq. simpl.
    destruct (String.eqb _ "y"), (String.eqb _ "yes");
      ((exists (Some true); split; [auto |]; now intros [])
       || (exists None; split; [auto |]; now intros [])).
  - exists None. split; [auto |]. now intros [].
Qed.

Lemma flag_permute_uniform (s : string) :
  exists o, (o = None \/ o = Some "ij" \/ o = Some "ji") /\
    forall v, flag_permute s v = Some (assign None o None None None v).
Proof.
  unfold flag_permute. destruct (find "permute=" s) as [n |] eqn:Hf.
  - apply find_Some_length in Hf. rewrite substr_defined by exact Hf.
    unfold when_eq. simpl.
    destruct (String.eqb _ "ij"), (String.eqb _ "ji");
      ((exists (Some "ji"); split; [auto |]; now intros [])
       || (exists (Some "ij"); split; [auto |]; now intros [])
       || (exists None; split; [auto |]; now intros [])).
  - exists None. split; [auto |]. now intros [].
Qed.

(** One token: the five blocks never throw, and each setting moves in one
    direction only. *)
Lemma flag_uniform (s : string) :
  exists ofor operm osimd onested otiled,
    (ofor = None \/ ofor = Some "omp" \/ ofor = Some "tbb") /\
    (operm = None \/ operm = Some "ij" \/ operm = Some "ji") /\
    (osimd = None \/ osimd = Some false) /\
    (onested = None \/ onested = Some false) /\
    (otiled = None \/ otiled = Some true) /\
    forall v, flag s v = Some (assign ofor operm osimd onested otiled v).
Proof.
  destruct (flag_for_uniform s) as (ofor & Hfor & Ef).
  destruct (flag_simd_uniform s) as (osimd & Hsimd & Es).
  destruct (flag_nested_uniform s) as (onested & Hnested & En).
  destruct (flag_tiled_uniform s) as (otiled & Htiled & Et).
  destruct (flag_permute_uniform s) as (operm & Hperm & Ep).
  exists ofor, operm, osimd, onested, otiled. repeat (split; [assumption |]).
  intros v. unfold flag. rewrite Ef. simpl. rewrite Es. simpl. rewrite En. simpl.
  rewrite Et. simpl. rewrite Ep. reflexivity.
Qed.

Lemma flag_effect (s : string) (v : variant) :
  exists v', flag s v = Some v' /\
    (use_for v' = use_for v \/ use_for v' = "omp" \/ use_for v' = "tbb") /\
    (use_simd v' = use_simd v \/ use_simd v' = false) /\
    (use_nested v' = use_nested v \/ use_nested v' = false) /\
    (use_tiled v' = use_tiled v \/ use_tiled v' = true) /\
    (use_permute v' = use_permute v \/ use_permute v' = "ij" \/ use_permute v' = "ji").
Proof.
  destruct (flag_uniform s)
    as (ofor & operm & osimd & onested & otiled & Hf & Hp & Hs & Hn & Ht & E).
  eexists. split; [apply E |]. simpl.
  repeat split.
  - destruct Hf as [-> | [-> | ->]]; simpl; auto.
  - destruct Hs as [-> | ->]; simpl; auto.
  - destruct Hn as [-> | ->]; simpl; auto.
  - destruct Ht as [-> | ->]; simpl; auto.
  - destruct Hp as [-> | [-> | ->]]; simpl; auto.
Qed.

Lemma flag_known (s : string) (v v' : variant) :
  flag s v = Some v' -> known_for v -> known_for v'.
Proof.
  intros Hf Hv. destruct (flag_effect s v) as (v2 & Hf2 & Hfor & _).
  rewrite Hf in Hf2. inversion Hf2; subst v2.
  unfold known_for in *. destruct Hfor as [-> | [-> | ->]]; auto.
Qed.

Lemma flags_total (l : list string) (v : variant) :
  known_for v -> exists v', for_each flag l v = Some v' /\ known_for v'.
Proof.
  revert v. induction l as [| s l IH]; intros v Hv; [now exists v |].
  destruct (flag_effect s v) as (v1 & Hf & _). simpl. rewrite Hf. simpl.
  apply IH. now apply (flag_known s v).
Qed.

Lemma default_known : known_for default_variant.
Proof. now left. Qed.

(** What [parse] returns, read off the guards. *)
Lemma parse_Parsed (argv : list string) (iterations order : Z) (v : variant) :
  parse argv = Parsed iterations order v ->
  (3 <= length argv)%nat /\
  iterations = atoi (default "" (argv !! 1%nat)) /\
  order = atoi (default "" (argv !! 2%nat)) /\
  1 <= iterations <= INT_MAX /\ 0 < order <= Z.sqrt INT_MAX /\
  for_each flag (drop 3 argv) default_variant = Some v /\ known_for v.
Proof.
  unfold parse.
  destruct (Z.ltb_spec (Z.of_nat (length argv)) 3); [discriminate |].
  destruct (Z.ltb_spec (atoi (default "" (argv !! 1%nat))) 1); [discriminate |].
  destruct (Z.leb_spec (atoi (default "" (argv !! 2%nat))) 0); [discriminate |].
  destruct (Z.ltb_spec (Z.sqrt INT_MAX) (atoi (default "" (argv !! 2%nat))));
    [discriminate |].
  destruct (flags_total (drop 3 argv) default_variant default_known) as (v' & Hv' & Hk).
  rewrite Hv'. intros Hp. inversion Hp; subst.
  pose proof (atoi_range (default "" (argv !! 1%nat))).
  repeat split; (lia || assumption).
Qed.

Lemma parse_never_terminates (argv : list string) : parse argv <> Terminate.
Proof.
  unfold parse.
  repeat match goal with |- context [if ?c then _ else _] => destruct c; [discriminate |] end.
  destruct (flags_total (drop 3 argv) default_variant default_known) as (v' & -> & _).
  discriminate.
Qed.

(** ** Runs *)

Lemma kernels_unfold (b : backends) (v : variant) (order iterations : Z) (m : memory) :
  kernels b v order iterations m
  = if iterations =? INT_MAX then None
    else applications b v order (iterations + 1) m.
Proof.
  unfold kernels, applications, transpose_loop.
  destruct (select b v Initialize Initialize2 order m).1 as [m0 |]; simpl;
    now destruct (iterations =? INT_MAX).
Qed.

Lemma resize_sized (order : Z) :
  0 <= order <= Z.sqrt INT_MAX ->
  sized order (resize (int (order * order)), resize (int (order * order))).
Proof.
  intros Ho. rewrite sqrt_INT_MAX in Ho.
  rewrite int_small by (unfold INT_MAX; nia).
  unfold sized, resize. simpl. rewrite length_replicate. nia.
Qed.

Lemma Transpose_dispatch (v : variant) (order : Z) (m : memory) :
  0 <= order <= INT_MAX -> known_for v -> sized order m ->
  (select OpenMP_and_TBB v Transpose Transpose2 order m).1
  = Some (Transpose_step order m).
Proof. intros Ho Hv Hm. now rewrite select_Transpose. Qed.

Lemma applications_exact (v : variant) (order n : Z) (m : memory) :
  0 < order <= INT_MAX -> 0 <= n -> exact_after order n ->
  known_for v -> sized order m ->
  applications OpenMP_and_TBB v order n m = Some (memory_after order n).
Proof.
  intros Ho Hn Hex Hv Hm. unfold applications.
  rewrite select_Initialize by (lia || assumption). simpl.
  rewrite initial_memory_exact by (destruct Hex; lia).
  apply iterate_exact; try (lia || assumption).
  intros m' Hm'. apply Transpose_dispatch; (lia || assumption).
Qed.

(** The largest reference value bounds every value of the run. *)
Lemma reference_bound_exact (order iterations : Z) :
  0 < order <= Z.sqrt INT_MAX -> 0 <= iterations ->
  reference order iterations (order - 1) (order - 1) <= 2 ^ 53 ->
  exact_after order (iterations + 1) /\ iterations < INT_MAX.
Proof.
  intros Ho Hi Hr. rewrite sqrt_INT_MAX in Ho. unfold reference in Hr.
  replace ((order - 1) * order + (order - 1)) with (order * order - 1) in Hr by ring.
  assert (Hsmall : iterations < 2 ^ 28).
  { destruct (Z.lt_ge_cases iterations (2 ^ 28)) as [? | Hge]; [assumption | exfalso].
    pose proof (half_mono (2 ^ 28 + 1) (iterations + 1) ltac:(lia)) as Hm.
    replace (iterations + 1 - 1) with iterations in Hm by lia.
    assert (0 <= (order * order - 1) * (1 + iterations)) by nia.
    change ((2 ^ 28 + 1) * (2 ^ 28 + 1 - 1) / 2) with 36028797153181696 in Hm.
    change (2 ^ 53) with 9007199254740992 in Hr. lia. }
  split; [| unfold INT_MAX; simpl in Hsmall; lia].
  split.
  - change (2 ^ 53) with 9007199254740992. simpl in Hsmall. nia.
  - replace (iterations + 1 - 1) with iterations by lia. lia.
Qed.

Lemma execute_exact (bd : build) (iterations order : Z) (v : variant) :
  RAJA_backends bd = OpenMP_and_TBB ->
  0 < order <= Z.sqrt INT_MAX -> 0 <= iterations -> known_for v ->
  reference order iterations (order - 1) (order - 1) <= 2 ^ 53 ->
  kernels OpenMP_and_TBB v order iterations
    (resize (int (order * order)), resize (int (order * order)))
  = Some (memory_after order (iterations + 1)) /\
  execute bd iterations order v
  = {| stdout := (banner bd ++ echo iterations order v) ++ (report 0).1;
       buffers := Some (memory_after order (iterations + 1));
       status := Exit 0 |}.
Proof.
  intros Hb Ho Hi Hv Hr.
  destruct (reference_bound_exact order iterations Ho Hi Hr) as [Hex Hlt].
  pose proof (accepted_int order Ho) as Hint.
  pose proof (resize_sized order ltac:(lia)) as Hsz.
  assert (Hk : kernels OpenMP_and_TBB v order iterations
                 (resize (int (order * order)), resize (int (order * order)))
               = Some (memory_after order (iterations + 1))).
  { rewrite kernels_unfold, (proj2 (Z.eqb_neq _ _)) by lia.
    apply applications_exact; (lia || assumption). }
  split; [exact Hk |].
  unfold kernels in Hk. rewrite select_Initialize in Hk by (lia || assumption).
  cbn [fst mbind option_bind] in Hk.
  unfold execute. rewrite Hb.
  rewrite select_Initialize by (lia || assumption).
  rewrite Hk. cbn [loop_policy].
  rewrite validator_exact by (lia || assumption). reflexivity.
Qed.

(** A run that reaches the validation, in a build with both back ends. *)
Lemma execute_run (bd : build) (iterations order : Z) (v : variant)
    (m : memory) (abserr : Z) :
  RAJA_backends bd = OpenMP_and_TBB ->
  0 < order <= Z.sqrt INT_MAX -> known_for v ->
  kernels OpenMP_and_TBB v order iterations
    (resize (int (order * order)), resize (int (order * order))) = Some m ->
  validator seq_exec order iterations m.2 = Some abserr ->
  execute bd iterations order v
  = {| stdout := (banner bd ++ echo iterations order v) ++ (report abserr).1;
       buffers := Some m;
       status := Exit (report abserr).2 |}.
Proof.
  intros Hb Ho Hv Hk Hval.
  pose proof (accepted_int order Ho) as Hint.
  pose proof (resize_sized order ltac:(lia)) as Hsz.
  unfold kernels in Hk. rewrite select_Initialize in Hk by (lia || assumption).
  cbn [fst mbind option_bind] in Hk.
  unfold execute. rewrite Hb.
  rewrite select_Initialize by (lia || assumption).
  rewrite Hk. cbn [loop_policy]. now rewrite Hval.
Qed.

Lemma applications_add (b : backends) (v : variant) (order n n' : Z) (m : memory) :
  0 <= n -> 0 <= n' ->
  applications b v order (n + n') m
  = applications b v order n m
      ≫= iterate n' (fun m' => (select b v Transpose Transpose2 order m').1).
Proof.
  intros Hn Hn'. unfold applications.
  destruct (select b v Initialize Initialize2 order m).1 as [m0 |]; simpl;
    [| reflexivity].
  now apply iterate_add.
Qed.

(** The run of [transpose 134217730 1]: after 2^27 exact executions the sum
    in B[0] passes 2^53 and the next additions are rounded. *)
Lemma kernels_134217730 :
  kernels OpenMP_and_TBB default_variant 1 134217730 (resize (int (1 * 1)), resize (int (1 * 1)))
  = Some ([134217731], [9007199590285314]).
Proof.
  rewrite kernels_unfold.
  change (134217730 =? INT_MAX) with false. cbv iota.
  change (134217730 + 1) with (134217728 + 3).
  rewrite applications_add by lia.
  rewrite applications_exact.
  - vm_compute. reflexivity.
  - unfold INT_MAX. lia.
  - lia.
  - split; vm_compute; discriminate.
  - apply default_known.
  - apply (resize_sized 1). rewrite sqrt_INT_MAX. lia.
Qed.

(** ** Runs with any number of executions *)

Lemma iterate_invariant (P : memory -> Prop) (step : memory -> option memory)
    (n : Z) (m m' : memory) :
  (forall m1 m2, P m1 -> step m1 = Some m2 -> P m2) ->
  P m -> iterate n step m = Some m' -> P m'.
Proof.
  intros Hstep Hm. unfold iterate. revert m'.
  induction (Z.to_N n) as [| k IH] using N.peano_ind; intros m' Hrun.
  - simpl in Hrun. now inversion Hrun; subst.
  - rewrite N.iter_succ in Hrun.
    destruct (N.iter k (fun r => r ≫= step) (Some m)) as [m1 |]; [| discriminate].
    simpl in Hrun. eapply Hstep; [| exact Hrun]. now apply IH.
Qed.

Lemma iterate_ext (P : memory -> Prop) (step step' : memory -> option memory)
    (n : Z) (m : memory) :
  (forall m1 m2, P m1 -> step m1 = Some m2 -> P m2) ->
  (forall m1, P m1 -> step m1 = step' m1) ->
  P m -> iterate n step m = iterate n step' m.
Proof.
  intros Hstep Heq Hm. unfold iterate.
  induction (Z.to_N n) as [| k IH] using N.peano_ind; [reflexivity |].
  rewrite !N.iter_succ, <- IH.
  destruct (N.iter k (fun r => r ≫= step) (Some m)) as [m1 |] eqn:Hk; [| reflexivity].
  simpl. apply Heq.
  apply (iterate_invariant P step (Z.of_N k) m m1 Hstep Hm).
  unfold iterate. now rewrite N2Z.id.
Qed.

(** An empty index range: nothing is executed. *)
Lemma schedule_empty (p : NestedPolicy) (order : Z) :
  order <= 0 -> schedule p 0 order 0 order = [].
Proof.
  intros Ho. apply Permutation_nil. symmetry. rewrite schedule_perm.
  unfold pairs, range. now rewrite seqZ_nil by lia.
Qed.

(** All instances of a kernel agree on buffers of the right size. *)
Lemma Transpose_instances (order : Z) (m : memory) :
  order <= INT_MAX -> sized order m ->
  exists m', sized order m' /\
    (forall p, Transpose p order m = Some m') /\
    (forall o i, Transpose2 o i order m = Some m').
Proof.
  intros Ho Hm. destruct (Z.le_gt_cases 0 order) as [Hpos | Hneg].
  - exists (Transpose_step order m). split; [now apply Transpose_step_sized |].
    split; intros; [now apply Transpose_correct | now apply Transpose2_correct].
  - exists m. split; [assumption |]. split; intros.
    + unfold Transpose, forallN. now rewrite schedule_empty by lia.
    + unfold Transpose2. rewrite forall_forall_pairs.
      unfold pairs, range. now rewrite seqZ_nil by lia.
Qed.

Lemma Initialize_instances (order : Z) (m : memory) :
  order <= INT_MAX -> sized order m ->
  exists m', sized order m' /\
    (forall p, Initialize p order m = Some m') /\
    (forall o i, Initialize2 o i order m = Some m').
Proof.
  intros Ho Hm. destruct (Z.le_gt_cases 0 order) as [Hpos | Hneg].
  - exists (initial_memory order). split; [now apply initial_memory_sized |].
    split; intros; [now apply Initialize_correct | now apply Initialize2_correct].
  - exists m. split; [assumption |]. split; intros.
    + unfold Initialize, forallN. now rewrite schedule_empty by lia.
    + unfold Initialize2. rewrite forall_forall_pairs.
      unfold pairs, range. now rewrite seqZ_nil by lia.
Qed.

Lemma applications_agree (v v' : variant) (order n : Z) (m : memory) :
  order <= INT_MAX -> sized order m -> known_for v -> known_for v' ->
  applications OpenMP_and_TBB v order n m = applications OpenMP_and_TBB v' order n m.
Proof.
  intros Ho Hm Hv Hv'. unfold applications.
  destruct (Initialize_instances order m Ho Hm) as (m0 & Hm0 & HN & H2).
  rewrite !(select_full _ Initialize Initialize2 order m (Some m0)) by assumption.
  cbn [fst mbind option_bind]. apply (iterate_ext (sized order)); [| | assumption].
  - intros m1 m2 Hm1 Hs.
    destruct (Transpose_instances order m1 Ho Hm1) as (m3 & Hm3 & HN' & H2').
    cbv beta in Hs.
    rewrite (select_full _ Transpose Transpose2 order m1 (Some m3)) in Hs by assumption.
    simpl in Hs. now inversion Hs; subst.
  - intros m1 Hm1.
    destruct (Transpose_instances order m1 Ho Hm1) as (m3 & Hm3 & HN' & H2').
    cbv beta.
    now rewrite !(select_full _ Transpose Transpose2 order m1 (Some m3)) by assumption.
Qed.

(** A alone: exact as long as its largest value fits, whatever happens to B. *)
Lemma applications_A (v : variant) (order n : Z) (m : memory) :
  0 < order <= INT_MAX -> 0 <= n -> order * order + n <= 2 ^ 53 ->
  known_for v -> sized order m ->
  exists m', applications OpenMP_and_TBB v order n m = Some m' /\
    sized order m' /\ m'.1 = (fun k => k + n) <$> seqZ 0 (order * order).
Proof.
  intros Ho Hn Hb Hv Hm. unfold applications.
  rewrite select_Initialize by (lia || assumption). simpl.
  revert Hb. pattern n. revert n Hn. apply natlike_ind.
  - intros Hb. exists (initial_memory order).
    split; [reflexivity |]. split; [apply initial_memory_sized; lia |].
    simpl. apply Forall_fmap_ext_1, Forall_seqZ. intros k Hk.
    rewrite double_of_int_exact by lia. lia.
  - intros n Hn IH Hb. unfold Z.succ in *.
    destruct (IH ltac:(lia)) as (m1 & Hrun & Hm1 & HA).
    exists (Transpose_step order m1).
    rewrite iterate_succ, Hrun by assumption. simpl.
    split; [apply Transpose_dispatch; (lia || assumption) |].
    split; [apply Transpose_step_sized; (lia || assumption) |].
    simpl. rewrite HA, <- list_fmap_compose.
    apply Forall_fmap_ext_1, Forall_seqZ. intros k Hk. simpl.
    rewrite dadd_exact by lia. lia.
Qed.

(** ** Defined behaviour of accepted runs *)

Lemma iterate_defined (P : memory -> Prop) (step : memory -> option memory)
    (n : Z) (m : memory) :
  (forall m1, P m1 -> exists m2, step m1 = Some m2 /\ P m2) ->
  P m -> exists m', iterate n step m = Some m' /\ P m'.
Proof.
  intros Hstep Hm. unfold iterate.
  induction (Z.to_N n) as [| k IH] using N.peano_ind; [now exists m |].
  rewrite N.iter_succ. destruct IH as (m1 & -> & Hm1). simpl. now apply Hstep.
Qed.

Lemma for_each_defined {X S : Type} (body : X -> S -> option S) (l : list X) (s : S) :
  (forall x s', x ∈ l -> is_Some (body x s')) -> is_Some (for_each body l s).
Proof.
  revert s. induction l as [| x l IH]; intros s Hb; [now exists s |].
  simpl. destruct (Hb x s (list_elem_of_here x l)) as [s' ->]. simpl.
  apply IH. intros y s'' Hy. apply Hb. now apply list_elem_of_further.
Qed.

Lemma validator_body_defined (order iterations i j abserr : Z) (B : list Z) :
  0 < order <= Z.sqrt INT_MAX -> Z.of_nat (length B) = order * order ->
  0 <= i < order -> 0 <= j < order ->
  is_Some (validator_body order iterations B i j abserr).
Proof.
  intros Ho HB Hi Hj.
  pose proof (accepted_int order Ho). pose proof (accepted_square order Ho).
  pose proof (cell_bounds order j i Hj Hi).
  unfold validator_body.
  rewrite !(cell_indx order) by assumption.
  rewrite (int_small (j * order + i)) by lia.
  rewrite vec_get_in by lia.
  destruct (lookup_lt_is_Some_2 B (Z.to_nat (j * order + i))) as [b ->]; [lia |].
  simpl. eauto.
Qed.

Lemma validator_defined (p : exec_policy) (order iterations : Z) (B : list Z) :
  0 < order <= Z.sqrt INT_MAX -> Z.of_nat (length B) = order * order ->
  is_Some (validator p order iterations B).
Proof.
  intros Ho HB. unfold validator, forallN, schedule. cbn [tiling].
  apply for_each_defined. intros [i j] s Hin.
  apply elem_of_pairs in Hin as [Hi Hj].
  now apply validator_body_defined.
Qed.

Lemma kernels_defined (v : variant) (order iterations : Z) (m : memory) :
  0 < order <= INT_MAX -> iterations < INT_MAX -> known_for v -> sized order m ->
  exists m', kernels OpenMP_and_TBB v order iterations m = Some m' /\ sized order m'.
Proof.
  intros Ho Hi Hv Hm. rewrite kernels_unfold. unfold applications.
  rewrite (proj2 (Z.eqb_neq _ _)) by lia.
  rewrite select_Initialize by (lia || assumption). cbn [fst mbind option_bind].
  apply (iterate_defined (sized order)); [| apply initial_memory_sized; lia].
  intros m1 Hm1. exists (Transpose_step order m1).
  split; [apply Transpose_dispatch; (lia || assumption) |].
  apply Transpose_step_sized; (lia || assumption).
Qed.

(** ** Tokens *)

Lemma substring_all (s : string) (n : nat) :
  (String.length s <= n)%nat -> substring 0 n s = s.
Proof.
  revert n. induction s as [| c s IH]; intros [| n] Hn; simpl in *; try reflexivity;
    try lia.
  f_equal. apply IH. lia.
Qed.

Lemma substring_skip (key val : string) (n : nat) :
  substring (String.length key) n (key ++ val) = substring 0 n val.
Proof. induction key as [| c key IH]; simpl; [reflexivity | exact IH]. Qed.

Lemma string_length_app (a b : string) :
  String.length (a ++ b) = (String.length a + String.length b)%nat.
Proof. induction a as [| c a IH]; simpl; [reflexivity | now rewrite IH]. Qed.

Lemma prefix_app (key val : string) : String.prefix key (key ++ val) = true.
Proof.
  induction key as [| c key IH]; simpl; [now destruct val |].
  destruct (ascii_dec c c); [exact IH | contradiction].
Qed.

(** A token that starts with a key: the key is found and [substr] at the
    key's length is the rest of the token. *)
Lemma find_key (key val : string) : exists n, find key (key ++ val) = Some n.
Proof.
  unfold find. pose proof (prefix_app key val) as Hp.
  destruct (key ++ val)%string as [| c s].
  - destruct key; [simpl; eauto | discriminate].
  - change (index 0 key (String c s))
      with (if String.prefix key (String c s) then Some 0%nat
            else match index 0 key s with Some n => Some (S n) | None => None end).
    rewrite Hp. eauto.
Qed.

Lemma substr_key (key val : string) :
  substr (String.length key) (key ++ val) = Some val.
Proof.
  unfold substr. rewrite string_length_app.
  rewrite (proj2 (Nat.leb_le _ _)) by lia.
  rewrite substring_skip, substring_all by lia. reflexivity.
Qed.

Lemma flag_for_value (val : string) (v : variant) :
  flag_for ("for=" ++ val) v
  = Some (when_eq val "tbb" (set_for "tbb")
           (when_eq val "openmp" (set_for "omp")
             (when_eq val "omp" (set_for "omp") v))).
Proof.
  unfold flag_for. destruct (find_key "for=" val) as [n ->].
  pose proof (substr_key "for=" val) as Hs.
  cbn [String.length] in Hs. now rewrite Hs.
Qed.

Lemma flag_simd_value (val : string) (v : variant) :
  flag_simd ("simd=" ++ val) v
  = Some (when_eq val "np" (set_simd false) (when_eq val "n" (set_simd false) v)).
Proof.
  unfold flag_simd. destruct (find_key "simd=" val) as [n ->].
  pose proof (substr_key "simd=" val) as Hs.
  cbn [String.length] in Hs. now rewrite Hs.
Qed.

Lemma flag_nested_value (val : string) (v : variant) :
  flag_nested ("nested=" ++ val) v
  = Some (when_eq val "no" (set_nested false) (when_eq val "n" (set_nested false) v)).
Proof.
  unfold flag_nested. destruct (find_key "nested=" val) as [n ->].
  pose proof (substr_key "nested=" val) as Hs.
  cbn [String.length] in Hs. now rewrite Hs.
Qed.

Lemma flag_tiled_value (val : string) (v : variant) :
  flag_tiled ("tiled=" ++ val) v
  = Some (when_eq val "yes" (set_tiled true) (when_eq val "y" (set_tiled true) v)).
Proof.
  unfold flag_tiled. destruct (find_key "tiled=" val) as [n ->].
  pose proof (substr_key "tiled=" val) as Hs.
  cbn [String.length] in Hs. now rewrite Hs.
Qed.

(** Each setting of the result of a token is the one its own block gives. *)
Lemma flag_blocks (s : string) (v : variant) :
  exists v' v1 v2 v3 v4 v5,
    flag s v = Some v' /\
    flag_for s v = Some v1 /\ use_for v' = use_for v1 /\
    flag_simd s v = Some v2 /\ use_simd v' = use_simd v2 /\
    flag_nested s v = Some v3 /\ use_nested v' = use_nested v3 /\
    flag_tiled s v = Some v4 /\ use_tiled v' = use_tiled v4 /\
    flag_permute s v = Some v5 /\ use_permute v' = use_permute v5.
Proof.
  destruct (flag_for_uniform s) as (ofor & _ & Ef).
  destruct (flag_simd_uniform s) as (osimd & _ & Es).
  destruct (flag_nested_uniform s) as (onested & _ & En).
  destruct (flag_tiled_uniform s) as (otiled & _ & Et).
  destruct (flag_permute_uniform s) as (operm & _ & Ep).
  do 6 eexists. unfold flag.
  rewrite (Ef v). cbn [mbind option_bind]. rewrite Es. cbn [mbind option_bind].
  rewrite En. cbn [mbind option_bind]. rewrite Et. cbn [mbind option_bind].
  rewrite !Ep, (Es v), (En v), (Et v).
  repeat split; reflexivity.
Qed.

Lemma flag_unrecognized (s : string) (v : variant) :
  unrecognized s -> flag s v = Some v.
Proof.
  intros (Hf & Hs & Hn & Ht & Hp).
  unfold flag, flag_for, flag_simd, flag_nested, flag_tiled, flag_permute.
  now rewrite Hf, Hs, Hn, Ht, Hp.
Qed.

Lemma assign_same_kernel (ofor operm operm' : option string)
    (osimd onested otiled : option bool) (v v' : variant) :
  same_kernel v v' ->
  same_kernel (assign ofor operm osimd onested otiled v)
              (assign ofor operm' osimd onested otiled v').
Proof.
  intros (Hf & Hs & Hn & Ht). unfold same_kernel, assign. simpl.
  now rewrite Hf, Hs, Hn, Ht.
Qed.

Lemma flags_same_kernel (l : list string) (v v' : variant) :
  same_kernel v v' ->
  exists w w', for_each flag l v = Some w /\ for_each flag l v' = Some w' /\
               same_kernel w w'.
Proof.
  revert v v'. induction l as [| s l IH]; intros v v' Hvv'; [now exists v, v' |].
  destruct (flag_uniform s) as (ofor & operm & osimd & onested & otiled & _ & _ & _ & _ & _ & E).
  simpl. rewrite !E. simpl. apply IH. now apply assign_same_kernel.
Qed.

(** ** Tokens in the command line *)

(** The positional arguments and the flags of a command line with one more
    token after the third argument. *)
Lemma parse_insert (pre post : list string) (s : string) :
  (3 <= length pre)%nat ->
  parse (pre ++ s :: post)
  = (let iterations := atoi (default "" (pre !! 1%nat)) in
     if iterations <? 1 then Throw "ERROR: iterations must be >= 1"
     else
       let order := atoi (default "" (pre !! 2%nat)) in
       if order <=? 0 then Throw "ERROR: Matrix Order must be greater than 0"
       else if Z.sqrt INT_MAX <? order
       then Throw "ERROR: matrix dimension too large - overflow risk"
       else
         match (for_each flag (drop 3 pre) default_variant ≫= flag s)
               ≫= for_each flag post with
         | Some v => Parsed iterations order v
         | None => Terminate
         end).
Proof.
  intros Hpre. unfold parse.
  rewrite length_app. simpl length.
  destruct (Z.ltb_spec (Z.of_nat (length pre + S (length post))) 3); [lia |].
  rewrite !lookup_app_l by lia.
  rewrite drop_app_le by lia.
  rewrite for_each_app. cbv zeta.
  destruct (for_each flag (drop 3 pre) default_variant) as [v0 |]; reflexivity.
Qed.

Lemma parse_without (pre post : list string) :
  (3 <= length pre)%nat ->
  parse (pre ++ post)
  = (let iterations := atoi (default "" (pre !! 1%nat)) in
     if iterations <? 1 then Throw "ERROR: iterations must be >= 1"
     else
       let order := atoi (default "" (pre !! 2%nat)) in
       if order <=? 0 then Throw "ERROR: Matrix Order must be greater than 0"
       else if Z.sqrt INT_MAX <? order
       then Throw "ERROR: matrix dimension too large - overflow risk"
       else
         match for_each flag (drop 3 pre) default_variant ≫= for_each flag post with
         | Some v => Parsed iterations order v
         | None => Terminate
         end).
Proof.
  intros Hpre. unfold parse.
  rewrite length_app.
  destruct (Z.ltb_spec (Z.of_nat (length pre + length post)) 3); [lia |].
  rewrite !lookup_app_l by lia.
  rewrite drop_app_le by lia.
  now rewrite for_each_app.
Qed.

(** The program looks at [use_permute] only to echo it. *)
Lemma execute_same_kernel (bd : build) (iterations order : Z) (v v' : variant) :
  same_kernel v v' ->
  same_behaviour (execute bd iterations order v) (execute bd iterations order v').
Proof.
  destruct v as [f p s n t], v' as [f' p' s' n' t'].
  unfold same_kernel. simpl. intros (<- & <- & <- & <-).
  set (v := {| use_for := f; use_permute := p; use_simd := s;
               use_nested := n; use_tiled := t |}).
  set (v' := {| use_for := f; use_permute := p'; use_simd := s;
                use_nested := n; use_tiled := t |}).
  assert (Hsel : forall kN k2 o m,
            select (RAJA_backends bd) v kN k2 o m = select (RAJA_backends bd) v' kN k2 o m)
    by reflexivity.
  assert (Hker : forall o i m,
            transpose_loop (RAJA_backends bd) v o i m
            = transpose_loop (RAJA_backends bd) v' o i m)
    by reflexivity.
  assert (Hout : forall (rest : list (list chunk)) k, k <> 9%nat ->
            ((banner bd ++ echo iterations order v) ++ rest) !! k
            = ((banner bd ++ echo iterations order v') ++ rest) !! k).
  { intros rest k Hk. unfold banner, echo. simpl.
    do 10 (destruct k as [| k]; [reflexivity || contradiction |]).
    reflexivity. }
  unfold execute, same_behaviour. cbv zeta. rewrite Hsel.
  destruct (select (RAJA_backends bd) v' Initialize Initialize2 order
              (resize (int (order * order)), resize (int (order * order))))
    as [[m0 |] [msg |]].
  all: try rewrite Hker.
  all: try destruct (transpose_loop _ _ _ _ _) as [m |].
  all: try destruct (validator _ _ _ _) as [abserr |].
  all: cbn [buffers status stdout]; repeat split; intros k Hk.
  all: first
    [ now apply Hout
    | rewrite <- (app_nil_r (banner bd ++ echo iterations order v)),
              <- (app_nil_r (banner bd ++ echo iterations order v'));
      now apply Hout ].
Qed.

Lemma same_behaviour_refl (r : run) : same_behaviour r r.
Proof. now repeat split. Qed.

Lemma same_behaviour_sym (r r' : run) : same_behaviour r r' -> same_behaviour r' r.
Proof. intros (Hb & Hs & Ho). repeat split; try easy. intros k Hk. symmetry. now apply Ho. Qed.

Lemma same_behaviour_trans (r1 r2 r3 : run) :
  same_behaviour r1 r2 -> same_behaviour r2 r3 -> same_behaviour r1 r3.
Proof.
  intros (Hb & Hs & Ho) (Hb' & Hs' & Ho'). repeat split; try congruence.
  intros k Hk. rewrite Ho by assumption. now apply Ho'.
Qed.

(** A token whose only effect is on [use_permute] does not change what the
    program computes. *)
Lemma main_insert_permute (bd : build) (pre post : list string) (s : string) :
  (3 <= length pre)%nat ->
  (forall v, exists v', flag s v = Some v' /\ same_kernel v v') ->
  same_behaviour (main bd (pre ++ s :: post)) (main bd (pre ++ post)).
Proof.
  intros Hpre Hs. unfold main.
  rewrite parse_insert, parse_without by assumption. cbv zeta.
  destruct (atoi (default "" (pre !! 1%nat)) <? 1); [apply same_behaviour_refl |].
  destruct (atoi (default "" (pre !! 2%nat)) <=? 0); [apply same_behaviour_refl |].
  destruct (Z.sqrt INT_MAX <? atoi (default "" (pre !! 2%nat)));
    [apply same_behaviour_refl |].
  destruct (for_each flag (drop 3 pre) default_variant) as [v0 |];
    [| apply same_behaviour_refl].
  cbn [mbind option_bind]. destruct (Hs v0) as (v1 & -> & Hk).
  cbn [mbind option_bind].
  destruct (flags_same_kernel post v1 v0) as (w & w' & -> & -> & Hw).
  { destruct Hk as (? & ? & ? & ?). now repeat split. }
  now apply execute_same_kernel.
Qed.

Lemma permute_token (s : string) :
  s = "permute=ij" \/ s = "permute=ji" ->
  forall v, exists v', flag s v = Some v' /\ same_kernel v v'.
Proof.
  intros [-> | ->] v; eexists; (split; [reflexivity | now repeat split]).
Qed.

(** ** The sum of differences over the integers *)

Lemma sum_zero {X : Type} (f : X -> Z) (l : list X) :
  (forall x, x ∈ l -> f x = 0) -> foldr Z.add 0 (f <$> l) = 0.
Proof.
  induction l as [| x l IH]; intros Hf; [reflexivity |].
  rewrite fmap_cons. cbn [foldr]. rewrite Hf by apply list_elem_of_here.
  rewrite IH; [reflexivity |]. intros y Hy. apply Hf. now apply list_elem_of_further.
Qed.

Lemma aggregate_error_exact (order iterations : Z) :
  0 < order <= Z.sqrt INT_MAX ->
  aggregate_error order iterations (memory_after order (iterations + 1)).2 = 0.
Proof.
  intros Ho. unfold aggregate_error. apply sum_zero. intros [i j] Hin.
  apply elem_of_pairs in Hin as [Hi Hj]. cbn [fst snd] in *.
  rewrite reference_is_cell by assumption. simpl. lia.
Qed.

(** ** Builds without a back end *)

(** Without TBB, or without OpenMP, the statements of the [#else] branches
    follow the dispatch chain unconditionally: every run stops after
    Initialize, whatever back end was asked for. *)
Lemma execute_without_backend (bd : build) (iterations order : Z) (v : variant) :
  RAJA_backends bd <> OpenMP_and_TBB ->
  status (execute bd iterations order v) = Abort \/
  status (execute bd iterations order v) = Undefined.
Proof.
  intros Hb. unfold execute. cbv zeta.
  destruct (select (RAJA_backends bd) v Initialize Initialize2 order _)
    as [r o] eqn:E.
  destruct (RAJA_backends bd); [contradiction | |]; unfold select in E;
    injection E as Er Eo; subst o; destruct r; auto.
Qed.

(** ** The sum of the validation loop *)

Lemma round_double_sgn (z : Z) : Z.sgn (round_double z) = Z.sgn z.
Proof.
  unfold round_double. cbv zeta.
  destruct (Z.leb_spec (Z.log2 (Z.abs z) - 52) 0) as [He | He]; [reflexivity |].
  set (m := Z.abs z) in *. set (e := Z.log2 m - 52) in *.
  assert (Hm : 0 < m).
  { destruct (Z.le_gt_cases m 0) as [H | H]; [| exact H].
    pose proof (Z.log2_nonpos m H) as E. unfold e in He. lia. }
  assert (Hpe : 0 < 2 ^ e) by (apply Z.pow_pos_nonneg; lia).
  assert (Hle : 2 ^ e <= m).
  { apply Z.le_trans with (2 ^ Z.log2 m).
    - apply Z.pow_le_mono_r; lia.
    - apply Z.log2_spec. exact Hm. }
  assert (Hq : 0 < m / 2 ^ e) by (apply Z.div_str_pos; lia).
  assert (Hq' : 0 < (if m mod 2 ^ e <? 2 ^ (e - 1) then m / 2 ^ e
                     else if 2 ^ (e - 1) <? m mod 2 ^ e then m / 2 ^ e + 1
                     else if Z.even (m / 2 ^ e) then m / 2 ^ e else m / 2 ^ e + 1)).
  { repeat match goal with |- context [if ?c then _ else _] => destruct c end; lia. }
  rewrite Z.sgn_mul.
  rewrite (Z.sgn_pos (_ * 2 ^ e)) by (apply Z.mul_pos_pos; assumption).
  rewrite Z.sgn_sgn. lia.
Qed.

Lemma round_double_nonneg (z : Z) : 0 <= z -> 0 <= round_double z.
Proof.
  intros Hz. pose proof (round_double_sgn z) as H.
  destruct (Z.sgn_spec z) as [[? E] | [[? E] | [? E]]]; try lia;
    rewrite E in H; destruct (Z.sgn_spec (round_double z)) as [[? E'] | [[? E'] | [? E']]];
    lia.
Qed.

Lemma round_double_zero (z : Z) : round_double z = 0 <-> z = 0.
Proof.
  pose proof (round_double_sgn z) as H. split; intros E.
  - rewrite E in H. change (Z.sgn 0) with 0 in H. symmetry in H.
    exact (proj1 (Z.sgn_null_iff z) H).
  - subst z. reflexivity.
Qed.

Lemma validator_body_unfold (order iterations : Z) (B : list Z) (i j abserr : Z) :
  validator_body order iterations B i j abserr
  = b ← vec_get B (int (indx (indx (j * order) + i)));
    Some (dadd abserr (fabs (dsub b (reference_double order iterations i j)))).
Proof. unfold validator_body, reference_double. cbv zeta. reflexivity. Qed.

(** The sum is never negative, and it is 0 only if it started from 0 and
    every cell it met held its reference value. *)
Lemma validator_loop (order iterations : Z) (B : list Z) (l : list (Z * Z))
    (acc r : Z) :
  0 <= acc ->
  for_each (fun q => validator_body order iterations B q.1 q.2) l acc = Some r ->
  0 <= r /\
  (r = 0 <->
   acc = 0 /\
   forall q, q ∈ l ->
     vec_get B (int (indx (indx (q.2 * order) + q.1)))
     = Some (reference_double order iterations q.1 q.2)).
Proof.
  revert acc. induction l as [| q l IH]; intros acc Hacc Hrun.
  - simpl in Hrun. injection Hrun as <-. split; [exact Hacc |].
    split; [| tauto]. intros ->. split; [reflexivity |].
    intros q Hq. now apply elem_of_nil in Hq.
  - cbn [for_each] in Hrun. rewrite validator_body_unfold in Hrun.
    destruct (vec_get B _) as [b |] eqn:Eb; [| discriminate].
    cbn [mbind option_bind] in Hrun.
    set (t := fabs (dsub b (reference_double order iterations q.1 q.2))) in *.
    assert (Ht : 0 <= t) by (unfold t, fabs; lia).
    assert (Hsum : 0 <= dadd acc t) by (apply round_double_nonneg; lia).
    destruct (IH _ Hsum Hrun) as [Hr Hiff]. split; [exact Hr |].
    rewrite Hiff. unfold dadd at 1. rewrite round_double_zero.
    assert (Hzero : t = 0 <-> b = reference_double order iterations q.1 q.2).
    { unfold t, fabs, dsub. rewrite Z.abs_0_iff, round_double_zero. lia. }
    split.
    + intros [Hs Hall]. assert (acc = 0 /\ t = 0) as [Ha Hb] by lia.
      split; [exact Ha |]. intros q' Hq'. apply elem_of_cons in Hq' as [-> | Hq'].
      * rewrite Eb. f_equal. now apply Hzero.
      * now apply Hall.
    + intros [Ha Hall]. split.
      * assert (Hq : vec_get B (int (indx (indx (q.2 * order) + q.1)))
                     = Some (reference_double order iterations q.1 q.2))
          by (apply Hall; apply list_elem_of_here).
        rewrite Eb in Hq. injection Hq as Hq. apply Hzero in Hq. lia.
      * intros q' Hq'. apply Hall. now apply list_elem_of_further.
Qed.

Lemma validator_ji (order i j : Z) :
  0 < order <= Z.sqrt INT_MAX -> 0 <= i < order -> 0 <= j < order ->
  int (indx (indx (j * order) + i)) = j * order + i.
Proof.
  intros Ho Hi Hj. pose proof (accepted_int order Ho) as Hint.
  pose proof (accepted_square order Ho) as Hsq.
  pose proof (cell_bounds order j i Hj Hi) as Hb.
  rewrite cell_indx by assumption. apply int_small. lia.
Qed.

Lemma validator_loop_sum (order iterations : Z) (B : list Z) (l : list (Z * Z))
    (acc r : Z) :
  0 < order <= Z.sqrt INT_MAX -> Forall (in_square order) l ->
  for_each (fun q => validator_body order iterations B q.1 q.2) l acc = Some r ->
  r = foldl (fun acc ij =>
               dadd acc (fabs (dsub (default 0 (vec_get B (ij.2 * order + ij.1)))
                                    (reference_double order iterations ij.1 ij.2))))
        acc l.
Proof.
  intros Ho. revert acc. induction l as [| q l IH]; intros acc Hl Hrun.
  - simpl in Hrun. now injection Hrun as <-.
  - apply Forall_cons_1 in Hl as [[Hq1 Hq2] Hl].
    cbn [for_each] in Hrun. rewrite validator_body_unfold in Hrun.
    rewrite validator_ji in Hrun by assumption.
    destruct (vec_get B (q.2 * order + q.1)) as [b |] eqn:Eb; [| discriminate].
    cbn [mbind option_bind] in Hrun.
    cbn [foldl]. rewrite Eb. cbn [default from_option id].
    now apply IH.
Qed.

Lemma validator_sum (p : exec_policy) (order iterations : Z) (B : list Z)
    (abserr : Z) :
  0 < order <= Z.sqrt INT_MAX ->
  validator p order iterations B = Some abserr ->
  abserr = aggregate_error_double order iterations B.
Proof.
  intros Ho Hrun. unfold validator, forallN in Hrun. cbn [schedule tiling] in Hrun.
  apply (validator_loop_sum order iterations B _ 0 abserr Ho); [| exact Hrun].
  apply list.Forall_forall. intros q Hq. now apply elem_of_pairs in Hq.
Qed.

Lemma validator_cells (p : exec_policy) (order iterations : Z) (B : list Z)
    (abserr : Z) :
  0 < order <= Z.sqrt INT_MAX ->
  validator p order iterations B = Some abserr ->
  0 <= abserr /\
  (lt_epsilon abserr = true <->
   forall i j, 0 <= i < order -> 0 <= j < order ->
     vec_get B (j * order + i) = Some (reference_double order iterations i j)).
Proof.
  intros Ho Hrun. unfold validator, forallN in Hrun. cbn [schedule tiling] in Hrun.
  destruct (validator_loop order iterations B _ 0 abserr (Z.le_refl 0) Hrun)
    as [Hpos Hiff].
  split; [exact Hpos |].
  assert (Heps : lt_epsilon abserr = true <-> abserr = 0).
  { rewrite lt_epsilon_spec. lia. }
  rewrite Heps, Hiff. split.
  - intros [_ Hall] i j Hi Hj.
    rewrite <- (validator_ji order i j Ho Hi Hj).
    apply (Hall (i, j)). apply elem_of_pairs. now split.
  - intros Hall. split; [reflexivity |]. intros [i j] Hq.
    apply elem_of_pairs in Hq as [Hi Hj]. cbn [fst snd] in *.
    rewrite validator_ji by assumption. now apply Hall.
Qed.

(** The run of [transpose 134217729 1]: the last of the 2^27 + 2 sums in
    B[0] is rounded. *)
Lemma kernels_134217729 :
  kernels OpenMP_and_TBB default_variant 1 134217729 (resize (int (1 * 1)), resize (int (1 * 1)))
  = Some ([134217730], [9007199456067584]).
Proof.
  rewrite kernels_unfold.
  change (134217729 =? INT_MAX) with false. cbv iota.
  change (134217729 + 1) with (134217728 + 2).
  rewrite applications_add by lia.
  rewrite applications_exact.
  - vm_compute. reflexivity.
  - unfold INT_MAX. lia.
  - lia.
  - split; vm_compute; discriminate.
  - apply default_known.
  - apply (resize_sized 1). rewrite sqrt_INT_MAX. lia.
Qed.

Example binary64_validating_run :
  let n := 134217729%float in
  let A0 := 134217728%float in
  let B0 := 9007199187632128%float in
  let B1 := (B0 + A0)%float in
  let A1 := (A0 + 1)%float in
  let B2 := (B1 + A1)%float in
  let reference := (0 * (1 + n) + (n + 1) * (n / 2))%float in
  Z_of_float B2 = Some 9007199456067584 /\
  Z_of_float reference = Some 9007199456067584 /\
  Z_of_float (abs (B2 - reference)) = Some 0 /\
  (abs (B2 - reference) <? 0x1.5798ee2308c3ap-27)%float = true.
Proof. vm_compute. repeat split. Qed.

(** * The properties of the specification *)

(** C1, as amended.  For every accepted order (1 <= order <= 46340), every
    iterations >= 1 and every variant, if the largest reference value
    reference(order-1, order-1) is at most 2^53 (so that a double holds every
    value of the run exactly), then Initialize followed by the iterations+1
    executions of Transpose leaves B[j*order+i] = reference(i,j) in every
    cell, the validator's sum is 0, which is below 1e-8, and the program
    prints "Solution validates" and returns 0. *)
Theorem exact_runs_validate (bd : build) (iterations order : Z) (v : variant) :
  RAJA_backends bd = OpenMP_and_TBB ->
  1 <= order <= Z.sqrt INT_MAX -> 1 <= iterations -> known_for v ->
  reference order iterations (order - 1) (order - 1) <= 2 ^ 53 ->
  exists m,
    kernels OpenMP_and_TBB v order iterations
      (resize (int (order * order)), resize (int (order * order))) = Some m /\
    (forall i j, 0 <= i < order -> 0 <= j < order ->
       vec_get m.2 (j * order + i) = Some (reference order iterations i j)) /\
    aggregate_error order iterations m.2 = 0 /\
    validator seq_exec order iterations m.2 = Some 0 /\
    lt_epsilon 0 = true /\
    buffers (execute bd iterations order v) = Some m /\
    status (execute bd iterations order v) = Exit 0 /\
    [Str "Solution validates"] ∈ stdout (execute bd iterations order v).
Proof.
  intros Hb Ho Hi Hv Hr.
  destruct (execute_exact bd iterations order v Hb ltac:(lia) ltac:(lia) Hv Hr)
    as [Hk He].
  destruct (reference_bound_exact order iterations ltac:(lia) ltac:(lia) Hr)
    as [Hex _].
  exists (memory_after order (iterations + 1)).
  split; [exact Hk |]. split; [| split; [| split; [| split; [reflexivity |]]]].
  - intros i j Hij Hji. apply reference_is_cell; (lia || assumption).
  - apply aggregate_error_exact. lia.
  - apply validator_exact; (lia || assumption).
  - rewrite He. cbn [buffers status stdout]. split; [reflexivity |].
    split; [reflexivity |].
    apply elem_of_app. right. apply list_elem_of_here.
Qed.

Lemma exact_runs_validate_witness :
  status (execute (full_build "2.16") 5 10 default_variant) = Exit 0.
Proof.
  destruct (exact_runs_validate (full_build "2.16") 5 10 default_variant)
    as (m & _ & _ & _ & _ & _ & _ & Hs & _).
  - reflexivity.
  - rewrite sqrt_INT_MAX. lia.
  - lia.
  - apply default_known.
  - vm_compute. discriminate.
  - exact Hs.
Defined.

(** C1 as stated fails: [transpose 134217730 1] is accepted, B[0] ends as
    9007199590285314 while reference(0,0) = 9007199590285315 (the program
    computes 9007199590285316 for it), the sum of differences is 2 and the
    program reports the error and returns 1. *)
Lemma large_run_fails_validation :
  let r := main (full_build "2.16") ["transpose"; "134217730"; "1"] in
  parse ["transpose"; "134217730"; "1"] = Parsed 134217730 1 default_variant /\
  buffers r = Some ([134217731], [9007199590285314]) /\
  reference 1 134217730 0 0 = 9007199590285315 /\
  vec_get [9007199590285314] (0 * 1 + 0) <> Some (reference 1 134217730 0 0) /\
  aggregate_error 1 134217730 [9007199590285314] = 1 /\
  validator seq_exec 1 134217730 [9007199590285314] = Some 2 /\
  lt_epsilon 2 = false /\
  status r = Exit 1.
Proof.
  assert (Hp : parse ["transpose"; "134217730"; "1"]
               = Parsed 134217730 1 default_variant) by (vm_compute; reflexivity).
  assert (Hv : validator seq_exec 1 134217730 [9007199590285314] = Some 2)
    by (vm_compute; reflexivity).
  cbv zeta. unfold main. rewrite Hp.
  rewrite (execute_run (full_build "2.16") 134217730 1 default_variant
             ([134217731], [9007199590285314]) 2);
    [| reflexivity | rewrite sqrt_INT_MAX; lia | apply default_known
     | apply kernels_134217730 | exact Hv].
  repeat split; try reflexivity; try exact Hv.
  vm_compute. discriminate.
Qed.

(** C2.  For every accepted order and every number n of executions the
    program's loop can make (n <= INT_MAX + 1): after Initialize and n
    executions of the kernel every element of A is its linear index plus n,
    A[j*order+i] = (j*order+i) + n, on the diagonal A[i*order+i] =
    i*order+i + n.  One execution adds 1.0 to every element of A, once:
    every linear index is the cell j*order+i of exactly one pair (i,j) of
    the square. *)
Theorem A_counts_executions (v : variant) (order n : Z) (m0 : memory) :
  1 <= order <= Z.sqrt INT_MAX -> 0 <= n <= INT_MAX + 1 ->
  known_for v -> sized order m0 ->
  exists m,
    applications OpenMP_and_TBB v order n m0 = Some m /\
    (forall i j, 0 <= i < order -> 0 <= j < order ->
       vec_get m.1 (j * order + i) = Some (j * order + i + n)) /\
    (forall i, 0 <= i < order -> vec_get m.1 (i * order + i) = Some (i * order + i + n)) /\
    (forall p m1, sized order m1 ->
       exists m2, Transpose p order m1 = Some m2 /\
                  m2.1 = (fun a => dadd a 1) <$> m1.1) /\
    (forall k, 0 <= k < order * order ->
       exists i j, (0 <= i < order /\ 0 <= j < order /\ j * order + i = k) /\
         forall i' j', 0 <= i' < order -> 0 <= j' < order ->
           j' * order + i' = k -> i' = i /\ j' = j).
Proof.
  intros Ho Hn Hv Hm0. rewrite sqrt_INT_MAX in Ho.
  assert (Hb : order * order + n <= 2 ^ 53)
    by (unfold INT_MAX in *; change (2 ^ 53) with 9007199254740992; nia).
  assert (Hint : order <= INT_MAX) by (unfold INT_MAX; lia).
  destruct (applications_A v order n m0) as (m & Hrun & Hm & HA);
    try (lia || assumption).
  assert (Hcell : forall i j, 0 <= i < order -> 0 <= j < order ->
            vec_get m.1 (j * order + i) = Some (j * order + i + n)).
  { intros i j Hi Hj. pose proof (cell_bounds order j i Hj Hi) as Hji.
    destruct Hm as [HlA _]. rewrite vec_get_in by lia.
    rewrite HA, list_lookup_fmap, lookup_seqZ_lt by lia. simpl. f_equal. lia. }
  exists m. split; [exact Hrun |]. split; [exact Hcell |].
  split; [intros i Hi; now apply Hcell |]. split.
  - intros p m1 Hm1. exists (Transpose_step order m1).
    split; [apply Transpose_correct; (lia || assumption) | reflexivity].
  - intros k Hk. destruct (cell_div_mod order k) as (Hj & Hi & Hkk); [lia .. |].
    exists (k mod order), (k / order). split; [repeat split; lia |].
    intros i' j' Hi' Hj' Heq.
    destruct (cell_inj order j' i' (k / order) (k mod order)); (lia || auto).
Qed.

Lemma A_counts_executions_witness :
  exists m,
    applications OpenMP_and_TBB default_variant 3 4 (resize 9, resize 9) = Some m /\
    vec_get m.1 (2 * 3 + 1) = Some (2 * 3 + 1 + 4).
Proof.
  destruct (A_counts_executions default_variant 3 4 (resize 9, resize 9))
    as (m & Hrun & Hcell & _).
  - rewrite sqrt_INT_MAX. lia.
  - unfold INT_MAX. lia.
  - apply default_known.
  - split; reflexivity.
  - exists m. split; [exact Hrun |]. apply Hcell; lia.
Defined.

(** C3.  For every order and iterations the run gives the same A and B
    whatever the variant: tiled or not, forallN or two nested forall, with
    or without simd, on any back end.  The instances of Transpose, and those
    of Initialize, agree on every pair of buffers of order*order elements. *)
Theorem variants_agree (order iterations : Z) (v v' : variant) (m0 : memory) :
  order <= INT_MAX -> sized order m0 -> known_for v -> known_for v' ->
  kernels OpenMP_and_TBB v order iterations m0
  = kernels OpenMP_and_TBB v' order iterations m0 /\
  (forall p p' o i m, sized order m ->
     Transpose p order m = Transpose p' order m /\
     Transpose2 o i order m = Transpose p order m /\
     Initialize p order m = Initialize p' order m /\
     Initialize2 o i order m = Initialize p order m) /\
  (forall p, schedule p 0 order 0 order ≡ₚ pairs 0 order 0 order).
Proof.
  intros Ho Hm0 Hv Hv'. split; [| split].
  - rewrite !kernels_unfold. destruct (iterations =? INT_MAX); [reflexivity |].
    now apply applications_agree.
  - intros p p' o i m Hm.
    destruct (Transpose_instances order m Ho Hm) as (mT & _ & HTN & HT2).
    destruct (Initialize_instances order m Ho Hm) as (mI & _ & HIN & HI2).
    now rewrite !HTN, !HT2, !HIN, !HI2.
  - intros p. apply schedule_perm.
Qed.

Lemma variants_agree_witness :
  kernels OpenMP_and_TBB
    (set_tiled true default_variant) 33 2 (resize 1089, resize 1089)
  = kernels OpenMP_and_TBB
    (set_nested false default_variant) 33 2 (resize 1089, resize 1089).
Proof.
  destruct (variants_agree 33 2 (set_tiled true default_variant)
              (set_nested false default_variant) (resize 1089, resize 1089))
    as [H _].
  - unfold INT_MAX. lia.
  - split; reflexivity.
  - now left.
  - now left.
  - exact H.
Defined.

(** C4.  With fewer than two positional arguments, iterations < 1,
    order <= 0 or order > floor(sqrt(INT_MAX)), the program prints the banner
    and one of its four messages and returns 1; A and B are never created. *)
Theorem bad_arguments_exit (bd : build) (argv : list string) :
  (length argv < 3)%nat \/
  atoi (default "" (argv !! 1%nat)) < 1 \/
  atoi (default "" (argv !! 2%nat)) <= 0 \/
  Z.sqrt INT_MAX < atoi (default "" (argv !! 2%nat)) ->
  exists e,
    (e = usage \/ e = "ERROR: iterations must be >= 1" \/
     e = "ERROR: Matrix Order must be greater than 0" \/
     e = "ERROR: matrix dimension too large - overflow risk") /\
    parse argv = Throw e /\
    main bd argv
    = {| stdout := banner bd ++ [[Str e]]; buffers := None; status := Exit 1 |}.
Proof.
  intros Hbad. unfold main, parse.
  destruct (Z.ltb_spec (Z.of_nat (length argv)) 3); [eauto 10 |].
  destruct (Z.ltb_spec (atoi (default "" (argv !! 1%nat))) 1); [eauto 10 |].
  destruct (Z.leb_spec (atoi (default "" (argv !! 2%nat))) 0); [eauto 10 |].
  destruct (Z.ltb_spec (Z.sqrt INT_MAX) (atoi (default "" (argv !! 2%nat))));
    [eauto 10 |].
  lia.
Qed.

Lemma bad_arguments_exit_witness :
  exists e, parse ["transpose"; "2"; "50000"] = Throw e /\
    main (full_build "2.16") ["transpose"; "2"; "50000"]
    = {| stdout := banner (full_build "2.16") ++ [[Str e]];
         buffers := None; status := Exit 1 |}.
Proof.
  destruct (bad_arguments_exit (full_build "2.16") ["transpose"; "2"; "50000"])
    as (e & _ & Hp & Hm).
  - right. right. right. vm_compute. reflexivity.
  - exists e. split; assumption.
Defined.

(** C5, as amended.  A run that reaches the validation returns 0 and prints
    "Solution validates" exactly when the sum the validation loop computes
    is strictly below 1e-8, and returns 1 and prints the error line with
    that sum and the threshold exactly when it is not.  The sum is that of
    the terms |B[j*order+i] - reference(i,j)| taken in double arithmetic,
    the reference value included, in row-major order; it is never negative,
    and it is below 1e-8 exactly when every B[j*order+i] equals the
    reference value as the doubles give it.  Where every value of the run
    is at most 2^53 the doubles give the closed form reference(i,j) itself
    and the sum is the exact one.  (iterations = INT_MAX, where the loop
    counter overflows, is left out.) *)
Theorem validation_decides_exit (bd : build) (argv : list string)
    (iterations order : Z) (v : variant) :
  RAJA_backends bd = OpenMP_and_TBB ->
  parse argv = Parsed iterations order v -> iterations < INT_MAX ->
  exists m abserr,
    buffers (main bd argv) = Some m /\
    validator seq_exec order iterations m.2 = Some abserr /\
    abserr = aggregate_error_double order iterations m.2 /\
    0 <= abserr /\
    (lt_epsilon abserr = true <-> abserr * 100000000 < 1) /\
    (lt_epsilon abserr = true <->
       forall i j, 0 <= i < order -> 0 <= j < order ->
         vec_get m.2 (j * order + i) = Some (reference_double order iterations i j)) /\
    (reference order iterations (order - 1) (order - 1) <= 2 ^ 53 ->
       (forall i j, 0 <= i < order -> 0 <= j < order ->
          reference_double order iterations i j = reference order iterations i j) /\
       abserr = aggregate_error order iterations m.2) /\
    (lt_epsilon abserr = true <-> status (main bd argv) = Exit 0) /\
    (lt_epsilon abserr = true <->
       [Str "Solution validates"] ∈ stdout (main bd argv)) /\
    (lt_epsilon abserr = false <-> status (main bd argv) = Exit 1) /\
    (lt_epsilon abserr = false <->
       [Str "ERROR: Aggregate squared error "; Dbl abserr;
        Str " exceeds threshold "; Epsilon] ∈ stdout (main bd argv)).
Proof.
  intros Hb Hp Hlt.
  destruct (parse_Parsed argv iterations order v Hp) as (_ & _ & _ & Hi & Ho & _ & Hv).
  pose proof (accepted_int order Ho) as Hint.
  destruct (kernels_defined v order iterations
              (resize (int (order * order)), resize (int (order * order))))
    as (m & Hk & Hm); try (lia || assumption).
  { apply resize_sized. lia. }
  destruct (validator_defined seq_exec order iterations m.2 Ho (proj2 Hm))
    as [abserr Hval].
  destruct (validator_cells seq_exec order iterations m.2 abserr Ho Hval)
    as [Hpos Hcells].
  exists m, abserr. unfold main. rewrite Hp.
  rewrite (execute_run bd iterations order v m abserr) by assumption.
  cbn [buffers status stdout].
  split; [reflexivity |]. split; [exact Hval |].
  split; [now apply (validator_sum seq_exec) |].
  split; [exact Hpos |].
  split; [apply Z.ltb_lt |].
  split; [exact Hcells |].
  split.
  { intros Hbound.
    destruct (reference_bound_exact order iterations Ho ltac:(lia) Hbound) as [Hex _].
    split.
    - intros i j Hin Hjn. unfold reference_double. cbv zeta.
      rewrite (validator_ji order j i Ho Hjn Hin).
      apply (reference_exact order iterations Ho ltac:(lia) Hex i j Hin Hjn).
    - destruct (execute_exact bd iterations order v Hb Ho ltac:(lia) Hv Hbound)
        as [Hk' _].
      rewrite Hk in Hk'. injection Hk' as ->.
      rewrite (validator_exact order iterations Ho ltac:(lia) Hex seq_exec) in Hval.
      injection Hval as <-.
      now rewrite aggregate_error_exact. }
  unfold report. destruct (lt_epsilon abserr); cbn [fst snd].
  - split; [easy |]. split.
    { split; [intros _ | easy]. apply elem_of_app. right. apply list_elem_of_here. }
    split; [split; [discriminate | intros H; inversion H] |].
    split; [discriminate |]. intros Hin. exfalso.
    unfold banner, echo in Hin.
    repeat (apply elem_of_app in Hin as [Hin | Hin]);
      repeat (apply elem_of_cons in Hin as [Hin | Hin]; [discriminate Hin |]);
      now apply not_elem_of_nil in Hin.
  - split; [split; [discriminate | intros H; inversion H] |]. split.
    { split; [discriminate |]. intros Hin. exfalso.
      unfold banner, echo in Hin.
      repeat (apply elem_of_app in Hin as [Hin | Hin]);
        repeat (apply elem_of_cons in Hin as [Hin | Hin]; [discriminate Hin |]);
        now apply not_elem_of_nil in Hin. }
    split; [easy |].
    split; [intros _ | easy]. apply elem_of_app. right. apply list_elem_of_here.
Qed.

Lemma validation_decides_exit_witness :
  status (main (full_build "2.16") ["transpose"; "5"; "10"]) = Exit 0.
Proof.
  destruct (validation_decides_exit (full_build "2.16") ["transpose"; "5"; "10"]
              5 10 default_variant)
    as (m & abserr & Hbuf & Hval & _ & _ & _ & _ & _ & Hex & _).
  - reflexivity.
  - vm_compute. reflexivity.
  - unfold INT_MAX. lia.
  - apply Hex.
    assert (Hm : Some m = Some (memory_after 10 6)) by (rewrite <- Hbuf; vm_compute; reflexivity).
    inversion Hm; subst m.
    assert (Ha : Some abserr = Some 0) by (rewrite <- Hval; vm_compute; reflexivity).
    inversion Ha. reflexivity.
Defined.

(** C5 as stated fails for the closed form reference(i,j): [transpose
    134217729 1] leaves B[0] = 9007199456067584 while reference(0,0) =
    9007199456067585, so the sum of the absolute differences is 1, not
    below 1e-8; the loop computes the reference value in doubles as
    9007199456067584, its sum is 0, and the program prints "Solution
    validates" and returns 0. *)
Lemma rounded_run_validates :
  let r := main (full_build "2.16") ["transpose"; "134217729"; "1"] in
  parse ["transpose"; "134217729"; "1"] = Parsed 134217729 1 default_variant /\
  buffers r = Some ([134217730], [9007199456067584]) /\
  reference 1 134217729 0 0 = 9007199456067585 /\
  vec_get [9007199456067584] (0 * 1 + 0) <> Some (reference 1 134217729 0 0) /\
  aggregate_error 1 134217729 [9007199456067584] = 1 /\
  ~ aggregate_error 1 134217729 [9007199456067584] * 100000000 < 1 /\
  reference_double 1 134217729 0 0 = 9007199456067584 /\
  validator seq_exec 1 134217729 [9007199456067584] = Some 0 /\
  lt_epsilon 0 = true /\
  status r = Exit 0 /\
  [Str "Solution validates"] ∈ stdout r.
Proof.
  assert (Hp : parse ["transpose"; "134217729"; "1"]
               = Parsed 134217729 1 default_variant) by (vm_compute; reflexivity).
  assert (Hv : validator seq_exec 1 134217729 [9007199456067584] = Some 0)
    by (vm_compute; reflexivity).
  cbv zeta. unfold main. rewrite Hp.
  rewrite (execute_run (full_build "2.16") 134217729 1 default_variant
             ([134217730], [9007199456067584]) 0);
    [| reflexivity | rewrite sqrt_INT_MAX; lia | apply default_known
     | apply kernels_134217729 | exact Hv].
  cbn [buffers status stdout].
  repeat split; try reflexivity; try exact Hv.
  - vm_compute. discriminate.
  - vm_compute. discriminate.
  - apply elem_of_app. right. apply list_elem_of_here.
Qed.

(** C6.  The permute flag changes nothing but the line that echoes it: with
    permute=ij, with permute=ji or without the token, the program leaves the
    same A and B, reaches the same verdict and returns the same value, and
    prints the same lines except the tenth. *)
Theorem permute_has_no_effect (bd : build) (pre post : list string) (s s' : string) :
  (3 <= length pre)%nat ->
  s = "permute=ij" \/ s = "permute=ji" ->
  s' = "permute=ij" \/ s' = "permute=ji" ->
  same_behaviour (main bd (pre ++ s :: post)) (main bd (pre ++ post)) /\
  same_behaviour (main bd (pre ++ s :: post)) (main bd (pre ++ s' :: post)) /\
  (forall v, exists v', flag s v = Some v' /\ same_kernel v v') /\
  (forall iterations order v v', same_kernel v v' ->
     same_behaviour (execute bd iterations order v) (execute bd iterations order v')).
Proof.
  intros Hpre Hs Hs'.
  pose proof (main_insert_permute bd pre post s Hpre (permute_token s Hs)) as H1.
  pose proof (main_insert_permute bd pre post s' Hpre (permute_token s' Hs')) as H2.
  split; [exact H1 |]. split.
  - apply (same_behaviour_trans _ _ _ H1). now apply same_behaviour_sym.
  - split; [now apply permute_token |].
    intros. now apply execute_same_kernel.
Qed.

Lemma permute_has_no_effect_witness :
  same_behaviour
    (main (full_build "2.16") ["transpose"; "3"; "4"; "permute=ji"; "tiled=y"])
    (main (full_build "2.16") ["transpose"; "3"; "4"; "tiled=y"]).
Proof.
  destruct (permute_has_no_effect (full_build "2.16") ["transpose"; "3"; "4"]
              ["tiled=y"] "permute=ji" "permute=ij") as [H _].
  - simpl. lia.
  - now right.
  - now left.
  - exact H.
Defined.

(** C7.  Whatever A and B hold, Initialize (either overload, any policy)
    leaves A[i*order+j] = (double)(i*order+j) and B[i*order+j] = 0.0 in every
    cell.  So running it twice, or again after any number of executions of
    Transpose, gives the same starting state as running it once. *)
Theorem Initialize_resets (order : Z) (m : memory) :
  0 <= order <= INT_MAX -> sized order m ->
  (forall p, Initialize p order m = Some (initial_memory order)) /\
  (forall o i, Initialize2 o i order m = Some (initial_memory order)) /\
  (forall i j, 0 <= i < order -> 0 <= j < order ->
     vec_get (initial_memory order).1 (i * order + j)
     = Some (double_of_int (i * order + j)) /\
     vec_get (initial_memory order).2 (i * order + j) = Some 0) /\
  (forall p p', Initialize p order m ≫= Initialize p' order
                = Some (initial_memory order)) /\
  (forall p p' n m',
     iterate n (Transpose p order) m = Some m' ->
     Initialize p' order m' = Some (initial_memory order)).
Proof.
  intros Ho Hm.
  assert (HN : forall p m1, sized order m1 ->
                 Initialize p order m1 = Some (initial_memory order))
    by (intros; apply Initialize_correct; (lia || assumption)).
  split; [intros p; now apply HN |].
  split; [intros; apply Initialize2_correct; (lia || assumption) |].
  split; [| split].
  - intros i j Hi Hj. pose proof (cell_bounds order i j Hi Hj) as Hij.
    pose proof (initial_memory_sized order) as [HA HB].
    rewrite !vec_get_in by lia. simpl. split.
    + rewrite list_lookup_fmap, lookup_seqZ_lt by lia. simpl.
      now rewrite Z2Nat.id by lia.
    + apply lookup_replicate_2. lia.
  - intros p p'. rewrite HN by assumption. simpl.
    apply HN, initial_memory_sized.
  - intros p p' n m' Hrun. apply HN.
    apply (iterate_invariant (sized order) (Transpose p order) n m m');
      [| assumption | assumption].
    intros m1 m2 Hm1 Hs. rewrite Transpose_correct in Hs by (lia || assumption).
    inversion Hs; subst. apply Transpose_step_sized; (lia || assumption).
Qed.

Lemma Initialize_resets_witness :
  Initialize seq_for_simd_tiled 2 ([7; 7; 7; 7], [1; 2; 3; 4])
  = Some ([0; 1; 2; 3], [0; 0; 0; 0]).
Proof.
  destruct (Initialize_resets 2 ([7; 7; 7; 7], [1; 2; 3; 4])) as [H _].
  - unfold INT_MAX. lia.
  - split; reflexivity.
  - apply H.
Defined.

(** C8.  With no token after the two positional arguments the variant is
    for=seq, simd on, nested on, tiled off.  A token that contains none of
    for=, simd=, nested=, tiled=, permute= changes no setting and raises no
    error: the command line is read, and the program runs, as without it. *)
Theorem defaults_and_unrecognized_tokens :
  (forall argv iterations order v,
     length argv = 3%nat -> parse argv = Parsed iterations order v ->
     v = default_variant /\ use_for v = "seq" /\ use_simd v = true /\
     use_nested v = true /\ use_tiled v = false) /\
  (forall s v, unrecognized s -> flag s v = Some v) /\
  (forall bd pre post s, (3 <= length pre)%nat -> unrecognized s ->
     parse (pre ++ s :: post) = parse (pre ++ post) /\
     main bd (pre ++ s :: post) = main bd (pre ++ post)).
Proof.
  split; [| split].
  - intros argv iterations order v Hlen Hp.
    apply parse_Parsed in Hp as (_ & _ & _ & _ & _ & Hf & _).
    rewrite drop_ge in Hf by lia. simpl in Hf. inversion Hf. now repeat split.
  - intros s v Hs. now apply flag_unrecognized.
  - intros bd pre post s Hpre Hs.
    assert (Hp : parse (pre ++ s :: post) = parse (pre ++ post)).
    { rewrite parse_insert, parse_without by assumption. cbv zeta.
      destruct (for_each flag (drop 3 pre) default_variant) as [v0 |]; [| reflexivity].
      cbn [mbind option_bind]. now rewrite flag_unrecognized by assumption. }
    split; [exact Hp |]. unfold main. now rewrite Hp.
Qed.

Lemma defaults_and_unrecognized_tokens_witness :
  parse ["transpose"; "5"; "3"] = Parsed 5 3 default_variant /\
  parse ["transpose"; "5"; "3"; "--verbose"; "tiled=y"]
  = parse ["transpose"; "5"; "3"; "tiled=y"].
Proof.
  destruct defaults_and_unrecognized_tokens as (Hd & _ & Hu).
  split.
  - destruct (parse ["transpose"; "5"; "3"]) as [e | | i o v] eqn:Hp;
      try (vm_compute in Hp; discriminate Hp).
    destruct (Hd ["transpose"; "5"; "3"] i o v eq_refl Hp) as [-> _].
    vm_compute in Hp. inversion Hp. reflexivity.
  - apply (Hu (full_build "2.16") ["transpose"; "5"; "3"] ["tiled=y"] "--verbose").
    + simpl. lia.
    + repeat split.
Defined.

(** C9.  For an accepted order (0 < order <= floor(sqrt(INT_MAX)) = 46340)
    and i, j in [0, order), the index expressions i*order+j and j*order+i lie
    in [0, order*order), and so does order*order in the range of int: nothing
    wraps, in 32 or in 64 bits.  On buffers of order*order elements the
    bodies of Initialize, Transpose and the validation loop, and the loops
    themselves, never leave the buffers. *)
Theorem accepted_indices_in_bounds (order iterations i j abserr : Z) (m : memory) :
  0 < order <= Z.sqrt INT_MAX -> 0 <= i < order -> 0 <= j < order -> sized order m ->
  (0 <= i * order + j < order * order) /\
  (0 <= j * order + i < order * order) /\
  order * order <= INT_MAX /\
  int (order * order) = order * order /\
  int (int (i * order) + j) = i * order + j /\
  int (int (j * order) + i) = j * order + i /\
  indx (indx (i * order) + j) = i * order + j /\
  indx (indx (j * order) + i) = j * order + i /\
  int (indx (indx (i * order) + j)) = i * order + j /\
  int (indx (indx (j * order) + i)) = j * order + i /\
  is_Some (Initialize_body order i j m) /\
  is_Some (Transpose_body order i j m) /\
  is_Some (validator_body order iterations m.2 i j abserr) /\
  (forall p, is_Some (Initialize p order m)) /\
  (forall p, is_Some (Transpose p order m)) /\
  (forall p, is_Some (validator p order iterations m.2)).
Proof.
  intros Ho Hi Hj Hm.
  pose proof (accepted_int order Ho) as Hint.
  pose proof (accepted_square order Ho) as Hsq.
  pose proof (cell_bounds order i j Hi Hj) as Hij.
  pose proof (cell_bounds order j i Hj Hi) as Hji.
  assert (0 <= i * order <= INT_MAX) by nia.
  assert (0 <= j * order <= INT_MAX) by nia.
  repeat match goal with |- _ /\ _ => split end; try lia.
  - apply int_small. lia.
  - rewrite (int_small (i * order)) by lia. apply int_small. lia.
  - rewrite (int_small (j * order)) by lia. apply int_small. lia.
  - now apply cell_indx.
  - now apply cell_indx.
  - rewrite cell_indx by assumption. apply int_small. lia.
  - rewrite cell_indx by assumption. apply int_small. lia.
  - rewrite Initialize_body_Some by (lia || assumption || (split; assumption)). eauto.
  - destruct (Transpose_body_Some order ltac:(lia) i j m Hm) as (a & b & _ & _ & ->);
      [split; assumption | eauto].
  - apply validator_body_defined; (assumption || apply Hm).
  - intros p. rewrite Initialize_correct by (lia || assumption). eauto.
  - intros p. rewrite Transpose_correct by (lia || assumption). eauto.
  - intros p. apply validator_defined; (assumption || apply Hm).
Qed.

Lemma accepted_indices_in_bounds_witness :
  0 <= 2 * 3 + 1 < 3 * 3 /\
  int (int (2 * 3) + 1) = 2 * 3 + 1 /\
  is_Some (Transpose_body 3 2 1 (resize 9, resize 9)).
Proof.
  destruct (accepted_indices_in_bounds 3 1 2 1 0 (resize 9, resize 9))
    as (H1 & _ & _ & _ & H2 & _ & _ & _ & _ & _ & _ & H3 & _).
  - rewrite sqrt_INT_MAX. lia.
  - lia.
  - lia.
  - split; reflexivity.
  - exact (conj H1 (conj H2 H3)).
Defined.

(** C10, as amended.  The flag values are read permissively and each setting
    moves in one direction.  for=omp and for=openmp select OpenMP, for=tbb
    selects TBB, and for= with any other value leaves the back end as it is
    (sequential only if no earlier token selected another one).  simd=n and
    simd=np turn simd off and no token turns it on again; nested=n and
    nested=no turn nested off and no token turns it on again; tiled=y and
    tiled=yes turn tiling on and no token turns it off again; any other value
    after simd=, nested= or tiled= leaves that setting as it is. *)
Theorem flags_one_directional :
  (forall val v, exists v', flag ("for=" ++ val) v = Some v' /\
     use_for v' = if (val =? "omp")%string || (val =? "openmp")%string then "omp"
                  else if (val =? "tbb")%string then "tbb" else use_for v) /\
  (forall val v, exists v', flag ("simd=" ++ val) v = Some v' /\
     use_simd v' = if (val =? "n")%string || (val =? "np")%string then false
                   else use_simd v) /\
  (forall val v, exists v', flag ("nested=" ++ val) v = Some v' /\
     use_nested v' = if (val =? "n")%string || (val =? "no")%string then false
                     else use_nested v) /\
  (forall val v, exists v', flag ("tiled=" ++ val) v = Some v' /\
     use_tiled v' = if (val =? "y")%string || (val =? "yes")%string then true
                    else use_tiled v) /\
  (forall l v, exists v', for_each flag l v = Some v' /\
     (use_simd v = false -> use_simd v' = false) /\
     (use_nested v = false -> use_nested v' = false) /\
     (use_tiled v = true -> use_tiled v' = true)) /\
  (forall pre post v v',
     for_each flag (pre ++ "simd=n" :: post) v = Some v' -> use_simd v' = false).
Proof.
  assert (Hmono : forall l v, exists v', for_each flag l v = Some v' /\
            (use_simd v = false -> use_simd v' = false) /\
            (use_nested v = false -> use_nested v' = false) /\
            (use_tiled v = true -> use_tiled v' = true)).
  { induction l as [| s l IH]; intros v; [now exists v |].
    destruct (flag_effect s v) as (v1 & Hf & _ & Hs & Hn & Ht & _).
    destruct (IH v1) as (v' & Hrun & Hs' & Hn' & Ht').
    exists v'. simpl. rewrite Hf. simpl. split; [exact Hrun |].
    repeat split; intros H; [apply Hs' | apply Hn' | apply Ht'];
      intuition congruence. }
  repeat match goal with |- _ /\ _ => split end.
  - intros val v.
    destruct (flag_blocks ("for=" ++ val) v)
      as (v' & v1 & v2 & v3 & v4 & v5 & Hf & H1 & E1 & _).
    exists v'. split; [exact Hf |]. rewrite E1.
    rewrite flag_for_value in H1. inversion H1. unfold when_eq.
    destruct (String.eqb_spec val "omp"), (String.eqb_spec val "openmp"),
      (String.eqb_spec val "tbb"); subst; (reflexivity || congruence).
  - intros val v.
    destruct (flag_blocks ("simd=" ++ val) v)
      as (v' & v1 & v2 & v3 & v4 & v5 & Hf & _ & _ & H2 & E2 & _).
    exists v'. split; [exact Hf |]. rewrite E2.
    rewrite flag_simd_value in H2. inversion H2. unfold when_eq.
    destruct (val =? "n")%string, (val =? "np")%string; reflexivity.
  - intros val v.
    destruct (flag_blocks ("nested=" ++ val) v)
      as (v' & v1 & v2 & v3 & v4 & v5 & Hf & _ & _ & _ & _ & H3 & E3 & _).
    exists v'. split; [exact Hf |]. rewrite E3.
    rewrite flag_nested_value in H3. inversion H3. unfold when_eq.
    destruct (val =? "n")%string, (val =? "no")%string; reflexivity.
  - intros val v.
    destruct (flag_blocks ("tiled=" ++ val) v)
      as (v' & v1 & v2 & v3 & v4 & v5 & Hf & _ & _ & _ & _ & _ & _ & H4 & E4 & _).
    exists v'. split; [exact Hf |]. rewrite E4.
    rewrite flag_tiled_value in H4. inversion H4. unfold when_eq.
    destruct (val =? "y")%string, (val =? "yes")%string; reflexivity.
  - exact Hmono.
  - intros pre post v v' Hrun. rewrite for_each_app in Hrun.
    destruct (for_each flag pre v) as [v0 |]; [| discriminate].
    cbn [mbind option_bind for_each] in Hrun.
    assert (Hn : exists v1, flag "simd=n" v0 = Some v1 /\ use_simd v1 = false).
    { destruct (flag_blocks "simd=n" v0)
        as (v1 & ? & v2 & ? & ? & ? & Hf & _ & _ & H2 & E2 & _).
      exists v1. split; [exact Hf |]. rewrite E2.
      change "simd=n" with ("simd=" ++ "n")%string in H2.
      rewrite flag_simd_value in H2. now inversion H2. }
    destruct Hn as (v1 & Hf & Hs). rewrite Hf in Hrun.
    cbn [mbind option_bind] in Hrun.
    destruct (Hmono post v1) as (v2 & Hrun2 & Hs2 & _).
    rewrite Hrun2 in Hrun. inversion Hrun; subst. now apply Hs2.
Qed.

Lemma flags_one_directional_witness :
  exists v',
    for_each flag (["tiled=y"] ++ "simd=n" :: ["simd=y"; "simd=yes"]) default_variant
    = Some v' /\ use_simd v' = false.
Proof.
  destruct flags_one_directional as (_ & _ & _ & _ & Hm & H).
  destruct (Hm (["tiled=y"] ++ "simd=n" :: ["simd=y"; "simd=yes"]) default_variant)
    as (v' & Hrun & _).
  exists v'. split; [exact Hrun |].
  exact (H ["tiled=y"] ["simd=y"; "simd=yes"] default_variant v' Hrun).
Defined.

(** C10 as stated fails for for=: after for=omp the token for=seq does not
    bring the sequential back end back; the run stays on OpenMP. *)
Lemma for_keeps_earlier_backend :
  parse ["transpose"; "1"; "1"; "for=omp"; "for=seq"]
  = Parsed 1 1 (set_for "omp" default_variant) /\
  flag "for=seq" (set_for "omp" default_variant)
  = Some (set_for "omp" default_variant) /\
  use_for (set_for "omp" default_variant) <> "seq" /\
  for_name (set_for "omp" default_variant) = "OpenMP".
Proof. repeat split. discriminate. Qed.

(** * Further properties of the program *)

(** ** Any order of the pairs *)

Lemma perm_square (order : Z) (l : list (Z * Z)) :
  l ≡ₚ pairs 0 order 0 order ->
  NoDup l /\ forall q, q ∈ l <-> in_square order q.
Proof.
  intros Hl. split.
  - rewrite Hl. apply NoDup_pairs.
  - intros q. rewrite Hl. apply elem_of_pairs.
Qed.

(** X1.  The body of Transpose may meet the index pairs in any order: run
    over any arrangement of the pairs of [0,order) x [0,order), each pair
    once, it leaves the memory that the row-major loop leaves, and that is
    what every instance of Transpose leaves (forallN or two nested forall,
    any policy). *)
Theorem Transpose_any_order (order : Z) (l : list (Z * Z)) (m : memory) :
  0 <= order <= INT_MAX -> sized order m -> l ≡ₚ pairs 0 order 0 order ->
  for_each (fun q => Transpose_body order q.1 q.2) l m
  = for_each (fun q => Transpose_body order q.1 q.2) (pairs 0 order 0 order) m /\
  (forall p, Transpose p order m
             = for_each (fun q => Transpose_body order q.1 q.2) l m) /\
  (forall o i, Transpose2 o i order m
               = for_each (fun q => Transpose_body order q.1 q.2) l m).
Proof.
  intros [Ho Hi] Hm Hl. destruct (perm_square order l Hl) as [Hnd Hin].
  rewrite (Transpose_schedule order Ho Hi l m Hnd Hin Hm).
  split; [| split].
  - symmetry. apply Transpose_schedule; try assumption.
    + apply NoDup_pairs.
    + intros q. apply elem_of_pairs.
  - intros p. now apply Transpose_correct.
  - intros o i. now apply Transpose2_correct.
Qed.

Lemma Transpose_any_order_witness :
  for_each (fun q => Transpose_body 2 q.1 q.2) [(1, 1); (0, 1); (1, 0); (0, 0)]
    ([0; 1; 2; 3], [0; 0; 0; 0])
  = Some ([1; 2; 3; 4], [0; 2; 1; 3]) /\
  Transpose seq_for_seq 2 ([0; 1; 2; 3], [0; 0; 0; 0])
  = Some ([1; 2; 3; 4], [0; 2; 1; 3]).
Proof.
  destruct (Transpose_any_order 2 [(1, 1); (0, 1); (1, 0); (0, 0)]
              ([0; 1; 2; 3], [0; 0; 0; 0])) as (_ & H & _).
  - unfold INT_MAX. lia.
  - split; reflexivity.
  - vm_compute.
    apply perm_trans with [(0, 1); (1, 1); (1, 0); (0, 0)]; [apply perm_swap |].
    apply perm_trans with [(0, 1); (1, 0); (1, 1); (0, 0)];
      [apply perm_skip, perm_swap |].
    apply perm_trans with [(0, 1); (1, 0); (0, 0); (1, 1)];
      [apply perm_skip, perm_skip, perm_swap |].
    apply perm_trans with [(0, 1); (0, 0); (1, 0); (1, 1)];
      [apply perm_skip, perm_swap |].
    apply perm_swap.
  - split; [reflexivity |]. rewrite (H seq_for_seq). reflexivity.
Defined.

(** X2.  The body of Initialize may meet the pairs in any order and any
    number of times: over any list that holds exactly the pairs of the
    square, repeated or not, it leaves the starting pattern, as every
    instance of Initialize does. *)
Theorem Initialize_any_order (order : Z) (l : list (Z * Z)) (m : memory) :
  0 <= order <= INT_MAX -> sized order m ->
  (forall q, q ∈ l <-> in_square order q) ->
  for_each (fun q => Initialize_body order q.1 q.2) l m = Some (initial_memory order) /\
  (forall p, Initialize p order m
             = for_each (fun q => Initialize_body order q.1 q.2) l m) /\
  (forall o i, Initialize2 o i order m
               = for_each (fun q => Initialize_body order q.1 q.2) l m).
Proof.
  intros [Ho Hi] Hm Hl.
  rewrite (Initialize_schedule order Ho Hi l m Hl Hm).
  split; [reflexivity | split].
  - intros p. now apply Initialize_correct.
  - intros o i. now apply Initialize2_correct.
Qed.

Lemma Initialize_any_order_witness :
  for_each (fun q => Initialize_body 2 q.1 q.2)
    [(1, 1); (0, 1); (1, 1); (1, 0); (0, 0); (0, 1)] ([7; 7; 7; 7], [8; 8; 8; 8])
  = Some ([0; 1; 2; 3], [0; 0; 0; 0]).
Proof.
  destruct (Initialize_any_order 2 [(1, 1); (0, 1); (1, 1); (1, 0); (0, 0); (0, 1)]
              ([7; 7; 7; 7], [8; 8; 8; 8])) as (H & _).
  - unfold INT_MAX. lia.
  - split; reflexivity.
  - intros [i j]. unfold in_square. cbn [fst snd].
    rewrite !elem_of_cons, elem_of_nil.
    split.
    + intros H; repeat destruct H as [H | H]; try (inversion H; lia); contradiction.
    + intros [Hi Hj].
      assert (Ei : i = 0 \/ i = 1) by lia. assert (Ej : j = 0 \/ j = 1) by lia.
      destruct Ei as [-> | ->], Ej as [-> | ->]; auto 10.
  - exact H.
Defined.

(** X3.  One call of Transpose, cell by cell, on any buffers of order*order
    elements: B[i*order+j] receives its old value plus the old value of
    A[j*order+i], A[j*order+i] receives its old value plus 1.0 (on the
    diagonal both are the same cell of A, and B still receives the old
    value), and both buffers keep their lengths. *)
Theorem Transpose_cell_contract (order : Z) (p : NestedPolicy) (m : memory)
    (i j : Z) :
  order <= INT_MAX -> sized order m -> 0 <= i < order -> 0 <= j < order ->
  exists m' a b,
    Transpose p order m = Some m' /\
    vec_get m.1 (j * order + i) = Some a /\
    vec_get m.2 (i * order + j) = Some b /\
    vec_get m'.2 (i * order + j) = Some (dadd b a) /\
    vec_get m'.1 (j * order + i) = Some (dadd a 1) /\
    length m'.1 = length m.1 /\ length m'.2 = length m.2.
Proof.
  intros Hi Hm Hin Hjn.
  destruct (Transpose_cells order Hi (schedule p 0 order 0 order)
              (NoDup_schedule p 0 order 0 order)) with (m := m)
    as (m' & Hrun & Hm' & Hcells); [| exact Hm |].
  { apply list.Forall_forall. intros q Hq. now apply elem_of_schedule in Hq. }
  assert (Hsq : in_square order (i, j)) by (split; assumption).
  destruct (Hcells i j Hsq) as [HA HB].
  destruct (Transpose_body_Some order Hi i j m Hm Hsq) as (a & b & Ea & Eb & _).
  rewrite decide_True in HA, HB by (apply elem_of_schedule; exact Hsq).
  rewrite Ea in HA, HB. rewrite Eb in HB. simpl in HA, HB.
  pose proof (cell_bounds order i j Hin Hjn) as Hij.
  pose proof (cell_bounds order j i Hjn Hin) as Hji.
  destruct Hm as [HmA HmB], Hm' as [HmA' HmB'].
  exists m', a, b. repeat split.
  - exact Hrun.
  - rewrite vec_get_in by lia. exact Ea.
  - rewrite vec_get_in by lia. exact Eb.
  - rewrite vec_get_in by lia. exact HB.
  - rewrite vec_get_in by lia. exact HA.
  - lia.
  - lia.
Qed.

Lemma Transpose_cell_contract_witness :
  exists m' a b,
    Transpose seq_for_simd_tiled 2 ([10; 20; 30; 40], [1; 2; 3; 4]) = Some m' /\
    vec_get [10; 20; 30; 40] (1 * 2 + 0) = Some a /\
    vec_get [1; 2; 3; 4] (0 * 2 + 1) = Some b /\
    vec_get m'.2 (0 * 2 + 1) = Some (dadd b a) /\
    vec_get m'.1 (1 * 2 + 0) = Some (dadd a 1) /\
    length m'.1 = 4%nat /\ length m'.2 = 4%nat.
Proof.
  apply (Transpose_cell_contract 2 seq_for_simd_tiled ([10; 20; 30; 40], [1; 2; 3; 4]) 0 1).
  - unfold INT_MAX. lia.
  - split; reflexivity.
  - lia.
  - lia.
Defined.

(** X4.  B = A^T: when B holds zeros, one call of Transpose leaves in
    B[i*order+j] the value that A[j*order+i] held (the values of A being
    doubles, that is, left unchanged by the rounding). *)
Theorem Transpose_gives_transpose (order : Z) (p : NestedPolicy) (m : memory) :
  order <= INT_MAX -> sized order m ->
  Forall (fun a => round_double a = a) m.1 -> Forall (fun b => b = 0) m.2 ->
  exists m',
    Transpose p order m = Some m' /\
    forall i j, 0 <= i < order -> 0 <= j < order ->
      vec_get m'.2 (i * order + j) = vec_get m.1 (j * order + i).
Proof.
  intros Hi Hm HA HB.
  destruct (Transpose_cells order Hi (schedule p 0 order 0 order)
              (NoDup_schedule p 0 order 0 order)) with (m := m)
    as (m' & Hrun & Hm' & Hcells); [| exact Hm |].
  { apply list.Forall_forall. intros q Hq. now apply elem_of_schedule in Hq. }
  exists m'. split; [exact Hrun |]. intros i j Hin Hjn.
  assert (Hsq : in_square order (i, j)) by (split; assumption).
  destruct (Hcells i j Hsq) as [_ Hcell].
  destruct (Transpose_body_Some order Hi i j m Hm Hsq) as (a & b & Ea & Eb & _).
  rewrite decide_True in Hcell by (apply elem_of_schedule; exact Hsq).
  rewrite Ea, Eb in Hcell. cbn [mbind option_bind] in Hcell.
  pose proof (cell_bounds order i j Hin Hjn) as Hij.
  pose proof (cell_bounds order j i Hjn Hin) as Hji.
  destruct Hm as [HmA HmB], Hm' as [HmA' HmB'].
  rewrite !vec_get_in by lia. rewrite Hcell, Ea. f_equal.
  rewrite list.Forall_forall in HA, HB.
  apply list_elem_of_lookup_2 in Ea, Eb.
  rewrite (HB b Eb). unfold dadd. rewrite Z.add_0_l. now apply HA.
Qed.

Lemma Transpose_gives_transpose_witness :
  exists m',
    Transpose omp_for_seq_tiled 2 ([10; 20; 30; 40], [0; 0; 0; 0]) = Some m' /\
    forall i j, 0 <= i < 2 -> 0 <= j < 2 ->
      vec_get m'.2 (i * 2 + j) = vec_get [10; 20; 30; 40] (j * 2 + i).
Proof.
  apply (Transpose_gives_transpose 2 omp_for_seq_tiled ([10; 20; 30; 40], [0; 0; 0; 0])).
  - unfold INT_MAX. lia.
  - split; reflexivity.
  - repeat constructor.
  - repeat constructor.
Defined.

(** ** Buffers that are too short, and the size of the buffers *)

Lemma vec_set_length (v v' : list Z) (k x : Z) :
  vec_set v k x = Some v' -> length v' = length v.
Proof.
  unfold vec_set. destruct (_ && _); [| discriminate].
  intros H. injection H as <-. apply length_insert.
Qed.

Lemma vec_get_short (v : list Z) (k : Z) :
  Z.of_nat (length v) <= k -> vec_get v k = None.
Proof.
  intros H. unfold vec_get. destruct (Z.ltb_spec k 0); [reflexivity |].
  apply lookup_ge_None_2. lia.
Qed.

Lemma vec_set_short (v : list Z) (k x : Z) :
  Z.of_nat (length v) <= k -> vec_set v k x = None.
Proof.
  intros H. unfold vec_set.
  destruct (Z.ltb_spec k (Z.of_nat (length v))); [lia |].
  now rewrite andb_false_r.
Qed.

(** A loop that ends has run its body, defined, on every element, in a state
    that an invariant of the body describes. *)
Lemma for_each_reaches {X S : Type} (P : S -> Prop) (body : X -> S -> option S)
    (l : list X) (s s' : S) :
  (forall x s1 s2, P s1 -> body x s1 = Some s2 -> P s2) ->
  P s -> for_each body l s = Some s' ->
  forall x, x ∈ l -> exists s1, P s1 /\ is_Some (body x s1).
Proof.
  intros Hinv. revert s. induction l as [| y l IH]; intros s Hs Hrun x Hx.
  - now apply elem_of_nil in Hx.
  - simpl in Hrun. destruct (body y s) as [s1 |] eqn:Hy; [| discriminate].
    simpl in Hrun. apply elem_of_cons in Hx as [-> | Hx].
    + exists s. split; [exact Hs |]. rewrite Hy. eauto.
    + apply (IH s1); try assumption. now apply (Hinv y s).
Qed.

Lemma for_each_fails {X S : Type} (P : S -> Prop) (body : X -> S -> option S)
    (l : list X) (s : S) (x : X) :
  (forall y s1 s2, P s1 -> body y s1 = Some s2 -> P s2) ->
  P s -> x ∈ l -> (forall s1, P s1 -> body x s1 = None) ->
  for_each body l s = None.
Proof.
  intros Hinv Hs Hx Hfail.
  destruct (for_each body l s) as [s' |] eqn:Hrun; [| reflexivity].
  destruct (for_each_reaches P body l s s' Hinv Hs Hrun x Hx) as (s1 & Hs1 & Hd).
  rewrite (Hfail s1 Hs1) in Hd. now destruct Hd.
Qed.

Lemma Transpose_body_lengths (order i j : Z) (m m1 m2 : memory) :
  same_lengths m m1 -> Transpose_body order i j m1 = Some m2 -> same_lengths m m2.
Proof.
  unfold Transpose_body, same_lengths. intros [HA HB] H.
  destruct (vec_get m1.2 _) as [b |]; [| discriminate]. simpl in H.
  destruct (vec_get m1.1 _) as [a |]; [| discriminate]. simpl in H.
  destruct (vec_set m1.2 _ _) as [B' |] eqn:EB; [| discriminate]. simpl in H.
  destruct (vec_set m1.1 _ _) as [A' |] eqn:EA; [| discriminate]. simpl in H.
  injection H as <-. simpl.
  apply vec_set_length in EA, EB. split; congruence.
Qed.

Lemma Initialize_body_lengths (order i j : Z) (m m1 m2 : memory) :
  same_lengths m m1 -> Initialize_body order i j m1 = Some m2 -> same_lengths m m2.
Proof.
  unfold Initialize_body, same_lengths. intros [HA HB] H.
  destruct (vec_set m1.1 _ _) as [A' |] eqn:EA; [| discriminate]. simpl in H.
  destruct (vec_set m1.2 _ _) as [B' |] eqn:EB; [| discriminate]. simpl in H.
  injection H as <-. simpl.
  apply vec_set_length in EA, EB. split; congruence.
Qed.

Lemma last_cell (order : Z) :
  1 <= order <= INT_MAX ->
  indx (indx ((order - 1) * order) + (order - 1)) = order * order - 1.
Proof. intros Ho. rewrite cell_indx by lia. lia. Qed.

Lemma Transpose_body_short (order : Z) (m : memory) :
  1 <= order <= INT_MAX ->
  Z.of_nat (length m.1) < order * order \/ Z.of_nat (length m.2) < order * order ->
  Transpose_body order (order - 1) (order - 1) m = None.
Proof.
  intros Ho Hshort. unfold Transpose_body. rewrite last_cell by exact Ho.
  destruct Hshort as [HA | HB].
  - rewrite (vec_get_short m.1) by lia.
    now destruct (vec_get m.2 _).
  - now rewrite (vec_get_short m.2) by lia.
Qed.

Lemma Initialize_body_short (order : Z) (m : memory) :
  1 <= order <= INT_MAX ->
  Z.of_nat (length m.1) < order * order \/ Z.of_nat (length m.2) < order * order ->
  Initialize_body order (order - 1) (order - 1) m = None.
Proof.
  intros Ho Hshort. unfold Initialize_body. rewrite last_cell by exact Ho.
  destruct Hshort as [HA | HB].
  - now rewrite (vec_set_short m.1) by lia.
  - rewrite (vec_set_short m.2) by lia.
    now destruct (vec_set m.1 _ _).
Qed.

Lemma short_loop (body : Z -> Z -> memory -> option memory) (order : Z)
    (l : list (Z * Z)) (m : memory) :
  (forall i j m1 m2, same_lengths m m1 -> body i j m1 = Some m2 -> same_lengths m m2) ->
  (forall m1, same_lengths m m1 -> body (order - 1) (order - 1) m1 = None) ->
  (order - 1, order - 1) ∈ l ->
  for_each (fun q => body q.1 q.2) l m = None.
Proof.
  intros Hinv Hfail Hin.
  apply (for_each_fails (same_lengths m) _ l m (order - 1, order - 1)).
  - intros [i j] m1 m2. apply Hinv.
  - now split.
  - exact Hin.
  - exact Hfail.
Qed.

(** X5.  The kernels do not check the size of the buffers: if A or B has
    fewer than order*order elements (order >= 1), every instance of Transpose
    and of Initialize reaches an access outside a vector, which has no
    defined behaviour. *)
Theorem kernels_need_room (order : Z) (m : memory) :
  1 <= order <= INT_MAX ->
  Z.of_nat (length m.1) < order * order \/ Z.of_nat (length m.2) < order * order ->
  (forall p, Transpose p order m = None) /\
  (forall o i, Transpose2 o i order m = None) /\
  (forall p, Initialize p order m = None) /\
  (forall o i, Initialize2 o i order m = None).
Proof.
  intros Ho Hshort.
  assert (HT : forall m1, same_lengths m m1 ->
            Transpose_body order (order - 1) (order - 1) m1 = None).
  { intros m1 [HA HB]. apply Transpose_body_short; [exact Ho |].
    rewrite HA, HB. exact Hshort. }
  assert (HI : forall m1, same_lengths m m1 ->
            Initialize_body order (order - 1) (order - 1) m1 = None).
  { intros m1 [HA HB]. apply Initialize_body_short; [exact Ho |].
    rewrite HA, HB. exact Hshort. }
  assert (Hlast : forall p, (order - 1, order - 1) ∈ schedule p 0 order 0 order).
  { intros p. apply elem_of_schedule. simpl. lia. }
  assert (Hlast' : (order - 1, order - 1) ∈ pairs 0 order 0 order).
  { apply elem_of_pairs. simpl. lia. }
  repeat split.
  - intros p. unfold Transpose, forallN.
    apply (short_loop (Transpose_body order) order); auto.
    intros i j m1 m2. apply Transpose_body_lengths.
  - intros o i. unfold Transpose2. rewrite forall_forall_pairs.
    apply (short_loop (Transpose_body order) order); auto.
    intros i' j m1 m2. apply Transpose_body_lengths.
  - intros p. unfold Initialize, forallN.
    apply (short_loop (Initialize_body order) order); auto.
    intros i j m1 m2. apply Initialize_body_lengths.
  - intros o i. unfold Initialize2. rewrite forall_forall_pairs.
    apply (short_loop (Initialize_body order) order); auto.
    intros i' j m1 m2. apply Initialize_body_lengths.
Qed.

Lemma kernels_need_room_witness :
  Transpose seq_for_seq 2 ([0; 1; 2; 3], [0; 0; 0]) = None /\
  Initialize omp_for_simd_tiled 2 ([0; 1; 2; 3], [0; 0; 0]) = None.
Proof.
  destruct (kernels_need_room 2 ([0; 1; 2; 3], [0; 0; 0])) as (HT & _ & HI & _).
  - unfold INT_MAX. lia.
  - right. simpl. lia.
  - split; [apply HT | apply HI].
Defined.

Lemma select_sized (b : backends) (v : variant) (order : Z) (m : memory) :
  0 <= order <= INT_MAX -> sized order m ->
  (forall m', (select b v Initialize Initialize2 order m).1 = Some m' -> sized order m') /\
  (forall m', (select b v Transpose Transpose2 order m).1 = Some m' -> sized order m').
Proof.
  intros [Ho Hi] Hm.
  assert (HI : forall m', Some (initial_memory order) = Some m' -> sized order m').
  { intros m' H. injection H as <-. apply initial_memory_sized. }
  assert (HT : forall m', Some (Transpose_step order m) = Some m' -> sized order m').
  { intros m' H. injection H as <-. now apply Transpose_step_sized. }
  assert (HM : forall m', Some m = Some m' -> sized order m').
  { intros m' H. now injection H as <-. }
  split; intros m'; unfold select, variant_seq, variant_omp, variant_tbb;
    destruct b; cbn [fst];
    repeat match goal with
           | |- context [if ?c then _ else _] => destruct c
           end;
    rewrite ?(Initialize_correct order Ho Hi), ?(Initialize2_correct order Ho Hi),
            ?(Transpose_correct order Ho Hi), ?(Transpose2_correct order Ho Hi)
      by exact Hm;
    auto.
Qed.

(** X6.  The buffers are created once and never resized: whenever the run
    of an accepted command line leaves buffers, in any build, A and B hold
    order*order elements each, and order*order fits an int. *)
Theorem buffers_keep_size (bd : build) (argv : list string)
    (iterations order : Z) (v : variant) (m : memory) :
  parse argv = Parsed iterations order v ->
  buffers (main bd argv) = Some m ->
  Z.of_nat (length m.1) = order * order /\ Z.of_nat (length m.2) = order * order /\
  order * order <= INT_MAX.
Proof.
  intros Hp. pose proof (parse_Parsed argv iterations order v Hp)
    as (_ & _ & _ & _ & Ho & _ & _).
  pose proof (accepted_int order Ho) as Hint.
  pose proof (accepted_square order Ho) as Hsq.
  pose proof (resize_sized order ltac:(lia)) as H0.
  assert (Hsz : sized order m -> Z.of_nat (length m.1) = order * order /\
            Z.of_nat (length m.2) = order * order /\ order * order <= INT_MAX).
  { intros [HA HB]. auto. }
  intros Hb. apply Hsz. clear Hsz.
  unfold main in Hb. rewrite Hp in Hb. unfold execute in Hb. cbv zeta in Hb.
  destruct (select_sized (RAJA_backends bd) v order _ ltac:(lia) H0) as [HI _].
  destruct (select (RAJA_backends bd) v Initialize Initialize2 order _)
    as [[m0 |] [msg |]] eqn:Es; cbn [fst] in HI.
  - injection Hb as <-. now apply HI.
  - specialize (HI m0 eq_refl).
    destruct (transpose_loop _ _ _ _ _) as [m1 |] eqn:El.
    + assert (Hm1 : sized order m1).
      { unfold transpose_loop in El. destruct (iterations =? INT_MAX); [discriminate |].
        apply (iterate_invariant (sized order) _ _ m0 m1) in El; [exact El | | exact HI].
        intros ma mb Hma Hmb.
        now apply (select_sized (RAJA_backends bd) v order ma ltac:(lia) Hma). }
      destruct (validator _ _ _ _); injection Hb as <-; exact Hm1.
    + injection Hb as <-. exact HI.
  - injection Hb as <-. exact H0.
  - injection Hb as <-. exact H0.
Qed.

Lemma buffers_keep_size_witness :
  buffers (main (full_build "2.16") ["transpose"; "3"; "2"; "tiled=y"])
  = Some ([4; 5; 6; 7], [6; 14; 10; 18]) /\
  Z.of_nat (length [4; 5; 6; 7]) = 2 * 2 /\
  Z.of_nat (length [6; 14; 10; 18]) = 2 * 2 /\ 2 * 2 <= INT_MAX.
Proof.
  assert (Hb : buffers (main (full_build "2.16") ["transpose"; "3"; "2"; "tiled=y"])
               = Some ([4; 5; 6; 7], [6; 14; 10; 18])) by (vm_compute; reflexivity).
  split; [exact Hb |].
  apply (buffers_keep_size (full_build "2.16") ["transpose"; "3"; "2"; "tiled=y"]
           3 2 (set_tiled true default_variant) ([4; 5; 6; 7], [6; 14; 10; 18])).
  - vm_compute. reflexivity.
  - exact Hb.
Defined.

(** ** The validation *)

(** X7.  The sum of the validation loop is never negative, and since every
    value it adds is a whole number it is below 1.0e-8 only when it is 0:
    the run validates exactly when every B[j*order+i] equals its reference
    value as the loop computes it in double arithmetic.  The tolerance
    forgives no difference. *)
Theorem validation_is_exact (p : exec_policy) (order iterations : Z) (B : list Z)
    (abserr : Z) :
  validator p order iterations B = Some abserr ->
  0 <= abserr /\
  (lt_epsilon abserr = true <-> abserr = 0) /\
  (lt_epsilon abserr = true <->
   forall i j, 0 <= i < order -> 0 <= j < order ->
     vec_get B (int (indx (indx (j * order) + i)))
     = Some (reference_double order iterations i j)).
Proof.
  unfold validator, forallN. cbn [schedule tiling]. intros Hrun.
  destruct (validator_loop order iterations B _ 0 abserr (Z.le_refl 0) Hrun)
    as [Hpos Hiff].
  split; [exact Hpos |].
  assert (Heps : lt_epsilon abserr = true <-> abserr = 0).
  { rewrite lt_epsilon_spec. lia. }
  split; [exact Heps |]. rewrite Heps, Hiff. split.
  - intros [_ Hall] i j Hi Hj. apply (Hall (i, j)). apply elem_of_pairs. now split.
  - intros Hall. split; [reflexivity |]. intros [i j] Hq.
    apply elem_of_pairs in Hq as [Hi Hj]. now apply Hall.
Qed.

Lemma validation_is_exact_witness :
  validator seq_exec 2 1 [1; 5; 3; 8] = Some 1 /\
  lt_epsilon 1 = false /\
  ~ (forall i j, 0 <= i < 2 -> 0 <= j < 2 ->
       vec_get [1; 5; 3; 8] (int (indx (indx (j * 2) + i)))
       = Some (reference_double 2 1 i j)).
Proof.
  assert (Hv : validator seq_exec 2 1 [1; 5; 3; 8] = Some 1) by (vm_compute; reflexivity).
  split; [exact Hv |]. split; [vm_compute; reflexivity |].
  destruct (validation_is_exact seq_exec 2 1 [1; 5; 3; 8] 1 Hv) as (_ & _ & H).
  intros Hall. apply H in Hall. vm_compute in Hall. discriminate Hall.
Defined.

(** ** The positional arguments *)

Lemma strtol_sign (c : ascii) (r : string) :
  match String c r with
  | String "-" s' => Z.max (- LONG_MAX - 1) (- digits 0 s')
  | String "+" s' => Z.min LONG_MAX (digits 0 s')
  | s' => Z.min LONG_MAX (digits 0 s')
  end
  = if Ascii.eqb c "-" then Z.max (- LONG_MAX - 1) (- digits 0 r)
    else if Ascii.eqb c "+" then Z.min LONG_MAX (digits 0 r)
    else Z.min LONG_MAX (digits 0 (String c r)).
Proof. destruct c as [[] [] [] [] [] [] [] []]; reflexivity. Qed.

Lemma strtol_unfold (s : string) :
  strtol s
  = match skip_space s with
    | EmptyString => 0
    | String c r =>
        if Ascii.eqb c "-" then Z.max (- LONG_MAX - 1) (- digits 0 r)
        else if Ascii.eqb c "+" then Z.min LONG_MAX (digits 0 r)
        else Z.min LONG_MAX (digits 0 (String c r))
    end.
Proof.
  unfold strtol. destruct (skip_space s) as [| c r]; [reflexivity |].
  apply strtol_sign.
Qed.

Lemma digits_no_digit (acc : Z) (t : string) : no_digit_head t -> digits acc t = acc.
Proof. destruct t as [| c t]; [reflexivity |]. simpl. now intros ->. Qed.

Lemma digits_app (acc : Z) (s t : string) :
  no_digit_head t -> digits acc (s ++ t) = digits acc s.
Proof.
  intros Ht. revert acc. induction s as [| c s IH]; intros acc.
  - now apply digits_no_digit.
  - simpl. destruct (digit c); [apply IH | reflexivity].
Qed.

Lemma skip_space_app (s t : string) :
  skip_space s <> "" -> skip_space (s ++ t) = (skip_space s ++ t)%string.
Proof.
  induction s as [| c s IH]; intros Hs; [now elim Hs |].
  simpl in *. destruct (isspace c); [now apply IH | reflexivity].
Qed.

Lemma strtol_app (s t : string) :
  skip_space s <> "" -> no_digit_head t -> strtol (s ++ t) = strtol s.
Proof.
  intros Hs Ht. rewrite !strtol_unfold, skip_space_app by exact Hs.
  destruct (skip_space s) as [| c r]; [now elim Hs |].
  change (String c r ++ t)%string with (String c (r ++ t)). cbv iota.
  rewrite (digits_app 0 r t Ht).
  change (String c (r ++ t)) with (String c r ++ t)%string.
  now rewrite (digits_app 0 (String c r) t Ht).
Qed.

Lemma atoi_app (s t : string) :
  skip_space s <> "" -> no_digit_head t -> atoi (s ++ t) = atoi s.
Proof. intros Hs Ht. unfold atoi. now rewrite strtol_app. Qed.

Lemma atoi_no_number (s : string) : no_number s -> atoi s = 0.
Proof.
  unfold no_number, atoi. rewrite strtol_unfold.
  destruct (skip_space s) as [| c r]; [reflexivity |].
  destruct (Ascii.eqb c "-"); cbn [orb].
  { intros Hr. now rewrite digits_no_digit. }
  destruct (Ascii.eqb c "+"); cbn [orb].
  { intros Hr. now rewrite digits_no_digit. }
  intros Hc. simpl. now rewrite Hc.
Qed.

Lemma parse_positional (prog x y : string) (flags : list string) :
  parse (prog :: x :: y :: flags)
  = if atoi x <? 1 then Throw "ERROR: iterations must be >= 1"
    else if atoi y <=? 0 then Throw "ERROR: Matrix Order must be greater than 0"
    else if Z.sqrt INT_MAX <? atoi y
    then Throw "ERROR: matrix dimension too large - overflow risk"
    else match for_each flag flags default_variant with
         | Some v => Parsed (atoi x) (atoi y) v
         | None => Terminate
         end.
Proof.
  unfold parse.
  destruct (Z.ltb_spec (Z.of_nat (length (prog :: x :: y :: flags))) 3) as [H | H];
    [simpl length in H; lia | reflexivity].
Qed.

(** X8.  The two numbers are read by prefix: text after the digits of the
    iterations or of the order argument (anything that does not start with a
    digit) is ignored, and the program runs as without it. *)
Theorem numbers_are_read_by_prefix (bd : build) (prog a1 a2 t1 t2 : string)
    (flags : list string) :
  skip_space a1 <> "" -> skip_space a2 <> "" ->
  no_digit_head t1 -> no_digit_head t2 ->
  atoi (a1 ++ t1) = atoi a1 /\ atoi (a2 ++ t2) = atoi a2 /\
  parse (prog :: (a1 ++ t1) :: (a2 ++ t2) :: flags)%string
  = parse (prog :: a1 :: a2 :: flags) /\
  main bd (prog :: (a1 ++ t1) :: (a2 ++ t2) :: flags)%string
  = main bd (prog :: a1 :: a2 :: flags).
Proof.
  intros H1 H2 Ht1 Ht2.
  pose proof (atoi_app a1 t1 H1 Ht1) as E1.
  pose proof (atoi_app a2 t2 H2 Ht2) as E2.
  assert (Hp : parse (prog :: (a1 ++ t1) :: (a2 ++ t2) :: flags)%string
               = parse (prog :: a1 :: a2 :: flags)).
  { rewrite !parse_positional. now rewrite E1, E2. }
  repeat split; try assumption.
  unfold main. now rewrite Hp.
Qed.

Lemma numbers_are_read_by_prefix_witness :
  atoi "5 times" = 5 /\ atoi "10x10" = 10 /\
  parse ["transpose"; "5 times"; "10x10"; "tiled=y"]
  = Parsed 5 10 (set_tiled true default_variant).
Proof.
  destruct (numbers_are_read_by_prefix (full_build "2.16") "transpose" "5" "10"
              " times" "x10" ["tiled=y"]) as (H1 & H2 & Hp & _).
  - discriminate.
  - discriminate.
  - reflexivity.
  - reflexivity.
  - split; [exact H1 | split; [exact H2 |]].
    etransitivity; [exact Hp | reflexivity].
Defined.

(** X9.  An argument in which atoi finds no number counts as 0: with an
    iterations argument that is empty, blank, a lone sign or text that does
    not start with a digit, the program prints the iterations message and
    returns 1; with such an order argument (after valid iterations), the
    order message. *)
Theorem arguments_without_number_are_rejected (bd : build) (argv : list string)
    (a1 a2 : string) :
  (3 <= length argv)%nat -> argv !! 1%nat = Some a1 -> argv !! 2%nat = Some a2 ->
  (no_number a1 ->
   main bd argv
   = {| stdout := banner bd ++ [[Str "ERROR: iterations must be >= 1"]];
        buffers := None; status := Exit 1 |}) /\
  (1 <= atoi a1 -> no_number a2 ->
   main bd argv
   = {| stdout := banner bd ++ [[Str "ERROR: Matrix Order must be greater than 0"]];
        buffers := None; status := Exit 1 |}).
Proof.
  intros Hlen E1 E2. unfold main, parse. rewrite E1, E2.
  change (default "" (Some a1)) with a1. change (default "" (Some a2)) with a2.
  destruct (Z.ltb_spec (Z.of_nat (length argv)) 3); [lia |].
  split.
  - intros H1. rewrite (atoi_no_number a1 H1). reflexivity.
  - intros H1 H2. destruct (Z.ltb_spec (atoi a1) 1); [lia |].
    rewrite (atoi_no_number a2 H2). reflexivity.
Qed.

Lemma arguments_without_number_are_rejected_witness :
  main (full_build "2.16") ["transpose"; "ten"; "-"]
  = {| stdout := banner (full_build "2.16") ++ [[Str "ERROR: iterations must be >= 1"]];
       buffers := None; status := Exit 1 |} /\
  main (full_build "2.16") ["transpose"; "3"; ""; "for=omp"]
  = {| stdout := banner (full_build "2.16")
                 ++ [[Str "ERROR: Matrix Order must be greater than 0"]];
       buffers := None; status := Exit 1 |}.
Proof.
  split.
  - apply (arguments_without_number_are_rejected (full_build "2.16")
             ["transpose"; "ten"; "-"] "ten" "-");
      first [reflexivity | simpl; lia].
  - apply (arguments_without_number_are_rejected (full_build "2.16")
             ["transpose"; "3"; ""; "for=omp"] "3" "");
      first [reflexivity | simpl; lia | vm_compute; discriminate].
Defined.

(** ** The four messages *)

Lemma sqrt_guard (order : Z) :
  0 < order -> (Z.sqrt INT_MAX < order <-> INT_MAX < order * order).
Proof.
  intros Ho. rewrite sqrt_INT_MAX. unfold INT_MAX. split; intros H; nia.
Qed.

Ltac message_table :=
  repeat split; intros;
  repeat match goal with
         | H : _ /\ _ |- _ => destruct H
         | H : exists _, _ |- _ => destruct H
         end;
  try discriminate; try lia; try reflexivity.

(** X10.  Which message for which arguments.  The checks are made in the
    order argc, iterations, order, and the first that fails decides: the
    usage text exactly when fewer than two arguments are given; the
    iterations message exactly when there are two and iterations < 1; the
    order message exactly when moreover iterations >= 1 and order <= 0; the
    overflow message exactly when moreover order > 0 and order*order exceeds
    INT_MAX; and the command line is accepted exactly when order*order fits
    an int.  The guard rejects no order whose square fits. *)
Theorem error_messages (argv : list string) :
  let iterations := atoi (default "" (argv !! 1%nat)) in
  let order := atoi (default "" (argv !! 2%nat)) in
  (parse argv = Throw usage <-> (length argv < 3)%nat) /\
  (parse argv = Throw "ERROR: iterations must be >= 1" <->
     (3 <= length argv)%nat /\ iterations < 1) /\
  (parse argv = Throw "ERROR: Matrix Order must be greater than 0" <->
     (3 <= length argv)%nat /\ 1 <= iterations /\ order <= 0) /\
  (parse argv = Throw "ERROR: matrix dimension too large - overflow risk" <->
     (3 <= length argv)%nat /\ 1 <= iterations /\ 0 < order /\
     INT_MAX < order * order) /\
  ((exists v, parse argv = Parsed iterations order v) <->
     (3 <= length argv)%nat /\ 1 <= iterations /\ 0 < order /\
     order * order <= INT_MAX).
Proof.
  intros iterations order.
  destruct (flags_total (drop 3 argv) default_variant default_known) as (v & Hv & _).
  unfold parse. fold iterations. fold order. rewrite Hv. unfold usage.
  destruct (Z.ltb_spec (Z.of_nat (length argv)) 3) as [Hc | Hc]; [message_table |].
  destruct (Z.ltb_spec iterations 1) as [Hi | Hi]; [message_table |].
  destruct (Z.leb_spec order 0) as [Ho | Ho]; [message_table |].
  pose proof (sqrt_guard order Ho) as Hg.
  destruct (Z.ltb_spec (Z.sqrt INT_MAX) order) as [Hs | Hs]; [message_table |].
  message_table. eauto.
Qed.

(** ** Tokens, spelled out *)

Lemma index_cons (key : string) (c : ascii) (s : string) :
  index 0 key (String c s)
  = if String.prefix key (String c s) then Some 0%nat
    else match index 0 key s with Some n => Some (S n) | None => None end.
Proof. reflexivity. Qed.

Lemma index_empty (a : ascii) (key : string) : index 0 (String a key) "" = None.
Proof. reflexivity. Qed.

Lemma prefix_String (a b : ascii) (key s : string) :
  String.prefix (String a key) (String b s) = Ascii.eqb a b && String.prefix key s.
Proof.
  simpl. destruct (ascii_dec a b) as [-> | Hne].
  - now rewrite Ascii.eqb_refl.
  - now rewrite (proj2 (Ascii.eqb_neq a b) Hne).
Qed.

Lemma prefix_empty (s : string) : String.prefix "" s = true.
Proof. now destruct s. Qed.

Lemma prefix_nil (a : ascii) (key : string) : String.prefix (String a key) "" = false.
Proof. reflexivity. Qed.

(** Decide the comparisons of characters in [H]: first those between two
    known characters, then the others one by one. *)
Ltac compare_chars H :=
  repeat
    (match type of H with
     | context [Ascii.eqb ?a ?b] =>
         tryif is_var b then fail
         else (let r := eval vm_compute in (Ascii.eqb a b) in
               change (Ascii.eqb a b) with r in H)
     end);
  rewrite ?andb_false_r, ?andb_true_r in H; cbn [andb] in H; cbv iota in H;
  repeat
    (match type of H with
     | context [Ascii.eqb ?a ?b] => destruct (Ascii.eqb_spec a b); [subst b |]
     end;
     cbn [andb] in H; cbv iota in H).

(** A token whose text from position [length key] on is a given value, and
    in which the key occurs, is the key followed by the value. *)
Ltac spell_token s Hf Hs :=
  unfold substr in Hs;
  repeat (destruct s as [| ? s]; cbn in Hs; try discriminate Hs);
  injection Hs as Hs; repeat (injection Hs as ? Hs); subst;
  unfold find in Hf;
  rewrite ?index_cons, ?index_empty, ?prefix_String, ?prefix_empty, ?prefix_nil in Hf;
  compare_chars Hf;
  first [reflexivity | discriminate Hf].

Lemma spelled (key val s : string) (n : nat) :
  In (key, val)
    [ ("for=", "omp"); ("for=", "openmp"); ("for=", "tbb");
      ("simd=", "n"); ("simd=", "np"); ("nested=", "n"); ("nested=", "no");
      ("tiled=", "y"); ("tiled=", "yes"); ("permute=", "ij"); ("permute=", "ji") ] ->
  find key s = Some n -> substr (String.length key) s = Some val ->
  s = (key ++ val)%string.
Proof.
  intros Hin Hf Hs. simpl in Hin.
  destruct Hin as [Hin | [Hin | [Hin | [Hin | [Hin | [Hin | [Hin | [Hin | [Hin |
    [Hin | [Hin | []]]]]]]]]]]];
    injection Hin as <- <-; cbn [String.length] in Hs.
  all: spell_token s Hf Hs.
Qed.

(** After a successful [find], [substr] gives the rest of the token. *)
Lemma substr_after_find (key s : string) (n : nat) :
  find key s = Some n ->
  exists val, substr (String.length key) s = Some val.
Proof.
  intros Hf. apply find_Some_length in Hf. rewrite substr_defined by exact Hf. eauto.
Qed.

Lemma assign_nothing (v : variant) : assign None None None None None v = v.
Proof. now destruct v. Qed.

Lemma flag_for_spelled (s : string) (v : variant) :
  flag_for s v = Some (assign (token_for s) None None None None v).
Proof.
  unfold token_for.
  destruct (String.eqb_spec s "for=omp") as [-> | H1]; [reflexivity |].
  destruct (String.eqb_spec s "for=openmp") as [-> | H2]; [reflexivity |].
  destruct (String.eqb_spec s "for=tbb") as [-> | H3]; [reflexivity |].
  cbn [orb]. rewrite assign_nothing.
  unfold flag_for. destruct (find "for=" s) as [n |] eqn:Hf; [| reflexivity].
  destruct (substr_after_find _ _ _ Hf) as [val Hs]. cbn [String.length] in Hs.
  rewrite Hs. cbn [mbind option_bind]. unfold when_eq.
  destruct (String.eqb_spec val "omp") as [-> | _].
  { now apply (spelled "for=" "omp" s n) in Hs; [| simpl; auto 12 |]. }
  destruct (String.eqb_spec val "openmp") as [-> | _].
  { now apply (spelled "for=" "openmp" s n) in Hs; [| simpl; auto 12 |]. }
  destruct (String.eqb_spec val "tbb") as [-> | _].
  { now apply (spelled "for=" "tbb" s n) in Hs; [| simpl; auto 12 |]. }
  reflexivity.
Qed.

Lemma flag_simd_spelled (s : string) (v : variant) :
  flag_simd s v = Some (assign None None (token_simd s) None None v).
Proof.
  unfold token_simd, simd_off.
  destruct (String.eqb_spec s "simd=n") as [-> | H1]; [reflexivity |].
  destruct (String.eqb_spec s "simd=np") as [-> | H2]; [reflexivity |].
  cbn [orb]. rewrite assign_nothing.
  unfold flag_simd. destruct (find "simd=" s) as [n |] eqn:Hf; [| reflexivity].
  destruct (substr_after_find _ _ _ Hf) as [val Hs]. cbn [String.length] in Hs.
  rewrite Hs. cbn [mbind option_bind]. unfold when_eq.
  destruct (String.eqb_spec val "n") as [-> | _].
  { now apply (spelled "simd=" "n" s n) in Hs; [| simpl; auto 12 |]. }
  destruct (String.eqb_spec val "np") as [-> | _].
  { now apply (spelled "simd=" "np" s n) in Hs; [| simpl; auto 12 |]. }
  reflexivity.
Qed.

Lemma flag_nested_spelled (s : string) (v : variant) :
  flag_nested s v = Some (assign None None None (token_nested s) None v).
Proof.
  unfold token_nested, nested_off.
  destruct (String.eqb_spec s "nested=n") as [-> | H1]; [reflexivity |].
  destruct (String.eqb_spec s "nested=no") as [-> | H2]; [reflexivity |].
  cbn [orb]. rewrite assign_nothing.
  unfold flag_nested. destruct (find "nested=" s) as [n |] eqn:Hf; [| reflexivity].
  destruct (substr_after_find _ _ _ Hf) as [val Hs]. cbn [String.length] in Hs.
  rewrite Hs. cbn [mbind option_bind]. unfold when_eq.
  destruct (String.eqb_spec val "n") as [-> | _].
  { now apply (spelled "nested=" "n" s n) in Hs; [| simpl; auto 12 |]. }
  destruct (String.eqb_spec val "no") as [-> | _].
  { now apply (spelled "nested=" "no" s n) in Hs; [| simpl; auto 12 |]. }
  reflexivity.
Qed.

Lemma flag_tiled_spelled (s : string) (v : variant) :
  flag_tiled s v = Some (assign None None None None (token_tiled s) v).
Proof.
  unfold token_tiled, tiled_on.
  destruct (String.eqb_spec s "tiled=y") as [-> | H1]; [reflexivity |].
  destruct (String.eqb_spec s "tiled=yes") as [-> | H2]; [reflexivity |].
  cbn [orb]. rewrite assign_nothing.
  unfold flag_tiled. destruct (find "tiled=" s) as [n |] eqn:Hf; [| reflexivity].
  destruct (substr_after_find _ _ _ Hf) as [val Hs]. cbn [String.length] in Hs.
  rewrite Hs. cbn [mbind option_bind]. unfold when_eq.
  destruct (String.eqb_spec val "y") as [-> | _].
  { now apply (spelled "tiled=" "y" s n) in Hs; [| simpl; auto 12 |]. }
  destruct (String.eqb_spec val "yes") as [-> | _].
  { now apply (spelled "tiled=" "yes" s n) in Hs; [| simpl; auto 12 |]. }
  reflexivity.
Qed.

Lemma flag_permute_spelled (s : string) (v : variant) :
  flag_permute s v = Some (assign None (token_permute s) None None None v).
Proof.
  unfold token_permute.
  destruct (String.eqb_spec s "permute=ij") as [-> | H1]; [reflexivity |].
  destruct (String.eqb_spec s "permute=ji") as [-> | H2]; [reflexivity |].
  rewrite assign_nothing.
  unfold flag_permute. destruct (find "permute=" s) as [n |] eqn:Hf; [| reflexivity].
  destruct (substr_after_find _ _ _ Hf) as [val Hs]. cbn [String.length] in Hs.
  rewrite Hs. cbn [mbind option_bind]. unfold when_eq.
  destruct (String.eqb_spec val "ij") as [-> | _].
  { now apply (spelled "permute=" "ij" s n) in Hs; [| simpl; auto 12 |]. }
  destruct (String.eqb_spec val "ji") as [-> | _].
  { now apply (spelled "permute=" "ji" s n) in Hs; [| simpl; auto 12 |]. }
  reflexivity.
Qed.

Lemma flag_spelled (s : string) (v : variant) :
  flag s v
  = Some (assign (token_for s) (token_permute s) (token_simd s) (token_nested s)
            (token_tiled s) v).
Proof.
  unfold flag.
  rewrite flag_for_spelled. cbn [mbind option_bind].
  rewrite flag_simd_spelled. cbn [mbind option_bind].
  rewrite flag_nested_spelled. cbn [mbind option_bind].
  rewrite flag_tiled_spelled. cbn [mbind option_bind].
  rewrite flag_permute_spelled. reflexivity.
Qed.

Lemma not_a_token (s : string) :
  ~ In s tokens ->
  token_for s = None /\ token_permute s = None /\ token_simd s = None /\
  token_nested s = None /\ token_tiled s = None.
Proof.
  intros Hs. unfold tokens in Hs. simpl in Hs.
  unfold token_for, token_permute, token_simd, token_nested, token_tiled,
    simd_off, nested_off, tiled_on.
  repeat match goal with
         | |- context [String.eqb s ?t] =>
             destruct (String.eqb_spec s t) as [E | _]; [exfalso; apply Hs; auto 20 |]
         end.
  now repeat split.
Qed.

(** X11.  The key is searched anywhere in the token but the value is taken
    from a fixed position, and the two together leave no room: a token
    changes a setting only if it is, letter for letter, one of for=omp,
    for=openmp, for=tbb, simd=n, simd=np, nested=n, nested=no, tiled=y,
    tiled=yes, permute=ij, permute=ji.  Text before the key or after the
    value makes the token one that is ignored. *)
Theorem tokens_are_spelled_exactly (s : string) (v : variant) :
  flag s v
  = Some (assign (token_for s) (token_permute s) (token_simd s) (token_nested s)
            (token_tiled s) v) /\
  (flag s v <> Some v -> In s tokens).
Proof.
  split; [apply flag_spelled |].
  intros Hne. destruct (in_dec string_dec s tokens) as [Hin | Hout]; [exact Hin |].
  exfalso. apply Hne. rewrite flag_spelled.
  destruct (not_a_token s Hout) as (-> & -> & -> & -> & ->).
  now rewrite assign_nothing.
Qed.

Lemma last_cons_default {X : Type} (x : X) (l : list X) :
  list.last (x :: l) = Some (default x (list.last l)).
Proof.
  revert x. induction l as [| y l IH]; intros x; [reflexivity |].
  rewrite last_cons_cons, IH. reflexivity.
Qed.

Lemma last_omap_cons {X : Type} (tok : string -> option X) (s : string)
    (l : list string) (d : X) :
  default d (list.last (omap tok (s :: l)))
  = default (default d (tok s)) (list.last (omap tok l)).
Proof.
  cbn [omap list_omap]. destruct (tok s) as [x |]; [| reflexivity].
  rewrite last_cons_default. reflexivity.
Qed.

Lemma flags_resolve_all (l : list string) (v : variant) :
  for_each flag l v = Some (resolve l v).
Proof.
  revert v. induction l as [| s l IH]; intros v.
  - simpl. unfold resolve. simpl. destruct v as [f p [] [] []]; reflexivity.
  - cbn [for_each]. rewrite flag_spelled. cbn [mbind option_bind]. rewrite IH.
    f_equal. unfold resolve.
    rewrite !last_omap_cons. cbn [existsb].
    unfold assign, token_simd, token_nested, token_tiled. cbn [use_for use_permute use_simd use_nested use_tiled].
    destruct (simd_off s), (nested_off s), (tiled_on s),
      (use_simd v), (use_nested v), (use_tiled v); reflexivity.
Qed.

(** X12.  The settings after any list of tokens, in closed form: the back
    end is that of the last for=omp, for=openmp or for=tbb token (the
    earlier setting if there is none), use_permute that of the last
    permute=ij or permute=ji token, simd and nested stay on exactly when no
    token turns them off, tiling is on exactly when it was or a token turns
    it on.  Reading a list in two parts gives the same settings. *)
Theorem flags_resolve (l : list string) (v : variant) :
  for_each flag l v = Some (resolve l v) /\
  (forall argv iterations order v',
     parse argv = Parsed iterations order v' ->
     v' = resolve (drop 3 argv) default_variant) /\
  (forall l', for_each flag (l ++ l') v = for_each flag l' (resolve l v)).
Proof.
  split; [apply flags_resolve_all | split].
  - intros argv iterations order v' Hp.
    apply parse_Parsed in Hp as (_ & _ & _ & _ & _ & Hv & _).
    rewrite flags_resolve_all in Hv. now injection Hv.
  - intros l'. rewrite for_each_app, flags_resolve_all. reflexivity.
Qed.

Lemma existsb_perm {X : Type} (f : X -> bool) (l l' : list X) :
  l ≡ₚ l' -> existsb f l = existsb f l'.
Proof.
  induction 1 as [| x l l' _ IH | x y l | l l' l'' _ IH1 _ IH2]; simpl.
  - reflexivity.
  - now rewrite IH.
  - now destruct (f x), (f y).
  - now rewrite IH1.
Qed.

(** X13.  The order of the flags matters only among the for= tokens and
    among the permute= tokens: two arrangements of the same tokens that keep
    those in the same order give the same settings. *)
Theorem flags_commute (l l' : list string) (v : variant) :
  l ≡ₚ l' ->
  omap token_for l = omap token_for l' ->
  omap token_permute l = omap token_permute l' ->
  for_each flag l v = for_each flag l' v.
Proof.
  intros Hp Hf Hperm. rewrite !flags_resolve_all. f_equal. unfold resolve.
  rewrite Hf, Hperm.
  now rewrite (existsb_perm simd_off l l' Hp), (existsb_perm nested_off l l' Hp),
    (existsb_perm tiled_on l l' Hp).
Qed.

Lemma flags_commute_witness :
  for_each flag ["tiled=y"; "for=tbb"; "simd=n"] default_variant
  = for_each flag ["for=tbb"; "simd=n"; "tiled=y"] default_variant.
Proof.
  apply (flags_commute ["tiled=y"; "for=tbb"; "simd=n"] ["for=tbb"; "simd=n"; "tiled=y"]).
  - apply perm_trans with ["for=tbb"; "tiled=y"; "simd=n"];
      [apply perm_swap | apply perm_skip, perm_swap].
  - reflexivity.
  - reflexivity.
Defined.

(** ** Runs, whatever the build *)

Section Instances.

Variable order : Z.
Hypothesis order_accepted : 0 <= order <= INT_MAX.
Variable m : memory.
Hypothesis m_sized : sized order m.

Lemma variant_seq_Initialize (v : variant) :
  variant_seq v Initialize Initialize2 order m = Some (initial_memory order).
Proof.
  destruct order_accepted as [Ho Hi]. unfold variant_seq.
  destruct (use_nested v), (use_tiled v), (use_simd v);
    first [now apply Initialize_correct | now apply Initialize2_correct].
Qed.

Lemma variant_omp_Initialize (v : variant) :
  variant_omp v Initialize Initialize2 order m = Some (initial_memory order).
Proof.
  destruct order_accepted as [Ho Hi]. unfold variant_omp.
  destruct (use_nested v), (use_tiled v), (use_simd v);
    first [now apply Initialize_correct | now apply Initialize2_correct].
Qed.

Lemma variant_tbb_Initialize (v : variant) :
  variant_tbb v Initialize Initialize2 order m = Some (initial_memory order).
Proof.
  destruct order_accepted as [Ho Hi]. unfold variant_tbb.
  destruct (use_nested v), (use_tiled v), (use_simd v);
    first [now apply Initialize_correct | now apply Initialize2_correct].
Qed.

End Instances.

Lemma select_Initialize_any (b : backends) (v : variant) (order : Z) (m : memory) :
  0 <= order <= INT_MAX -> sized order m ->
  select b v Initialize Initialize2 order m
  = (Some (if dispatched b v then initial_memory order else m), missing b).
Proof.
  intros Ho Hm. unfold select, dispatched, missing.
  destruct b;
    destruct (use_for v =? "seq")%string; cbn [orb];
    rewrite ?(variant_seq_Initialize order Ho m Hm); try reflexivity;
    destruct (use_for v =? "omp")%string; cbn [orb];
    rewrite ?(variant_omp_Initialize order Ho m Hm); try reflexivity;
    destruct (use_for v =? "tbb")%string; cbn [orb];
    rewrite ?(variant_tbb_Initialize order Ho m Hm); reflexivity.
Qed.

(** X14.  In a build without TBB, or without OpenMP and TBB, the statements
    of the [#else] branch follow the first dispatch chain unconditionally:
    every accepted command line, also one that asks for the sequential back
    end, prints the echo and the message of the missing back end and ends by
    abort right after the initialisation.  Transpose is never called; the
    buffers hold the starting pattern if the chain of the build has a block
    for the variant, and the zeros of their creation otherwise. *)
Theorem missing_backend_aborts (bd : build) (argv : list string)
    (iterations order : Z) (v : variant) (msg : string) :
  parse argv = Parsed iterations order v ->
  missing (RAJA_backends bd) = Some msg ->
  main bd argv
  = {| stdout := (banner bd ++ echo iterations order v) ++ [[Str msg]];
       buffers := Some (if dispatched (RAJA_backends bd) v then initial_memory order
                        else (resize (int (order * order)), resize (int (order * order))));
       status := Abort |} /\
  (RAJA_backends bd = Neither ->
   msg = "You are trying to use OpenMP but RAJA does not support it!") /\
  (RAJA_backends bd = OpenMP_only ->
   msg = "You are trying to use TBB but RAJA does not support it!").
Proof.
  intros Hp Hmsg.
  pose proof (parse_Parsed argv iterations order v Hp) as (_ & _ & _ & _ & Ho & _ & _).
  pose proof (accepted_int order Ho) as Hint.
  split.
  - unfold main. rewrite Hp. unfold execute. cbv zeta.
    rewrite select_Initialize_any by (lia || (apply resize_sized; lia)).
    rewrite Hmsg. reflexivity.
  - split; intros Hb; rewrite Hb in Hmsg; now injection Hmsg.
Qed.

Lemma missing_backend_aborts_witness :
  main {| PRKVERSION := "2.16"; RAJA_backends := OpenMP_only |} ["transpose"; "2"; "2"]
  = {| stdout := (banner {| PRKVERSION := "2.16"; RAJA_backends := OpenMP_only |}
                  ++ echo 2 2 default_variant)
                 ++ [[Str "You are trying to use TBB but RAJA does not support it!"]];
       buffers := Some ([0; 1; 2; 3], [0; 0; 0; 0]);
       status := Abort |}.
Proof.
  destruct (missing_backend_aborts {| PRKVERSION := "2.16"; RAJA_backends := OpenMP_only |}
              ["transpose"; "2"; "2"] 2 2 default_variant
              "You are trying to use TBB but RAJA does not support it!") as [H _].
  - vm_compute. reflexivity.
  - reflexivity.
  - exact H.
Defined.

(** ** Runs in a build with both back ends *)





(** ** The shape of every run *)

Lemma validates_in_report (abserr : Z) :
  (report abserr).2 = 0 <-> [Str "Solution validates"] ∈ (report abserr).1.
Proof.
  unfold report. destruct (lt_epsilon abserr); cbn [fst snd].
  - split; [intros _; apply list_elem_of_here | reflexivity].
  - split; [discriminate |]. intros H.
    apply list_elem_of_singleton in H. discriminate H.
Qed.

Lemma validates_not_before (bd : build) (iterations order : Z) (v : variant) :
  [Str "Solution validates"] ∉ banner bd ++ echo iterations order v.
Proof.
  unfold banner, echo. cbn [app]. intros H.
  repeat (apply elem_of_cons in H as [H | H]; [discriminate H |]).
  now apply elem_of_nil in H.
Qed.

Lemma parse_Throw (argv : list string) (e : string) :
  parse argv = Throw e ->
  e = usage \/ e = "ERROR: iterations must be >= 1" \/
  e = "ERROR: Matrix Order must be greater than 0" \/
  e = "ERROR: matrix dimension too large - overflow risk".
Proof.
  unfold parse.
  repeat match goal with
         | |- context [if ?c then _ else _] => destruct c; [intros [= <-]; auto |]
         end.
  destruct (for_each flag _ _); discriminate.
Qed.

Lemma exit_0_inj (code : Z) : Exit code = Exit 0 <-> code = 0.
Proof. split; [now intros [= ->] | now intros ->]. Qed.

Lemma select_missing (b : backends) (v : variant) (kN : NestedPolicy -> kernel)
    (k2 : exec_policy -> exec_policy -> kernel) (order : Z) (m : memory) :
  (select b v kN k2 order m).2 = missing b.
Proof. now destruct b. Qed.

(** What a run that passed the argument checks leaves: nothing more when it
    meets an undefined step, the message of a missing back end, or the
    report. *)
Lemma execute_shape (bd : build) (iterations order : Z) (v : variant) :
  exists tail m st,
    execute bd iterations order v
    = {| stdout := (banner bd ++ echo iterations order v) ++ tail;
         buffers := Some m; status := st |} /\
    ((tail = [] /\ st = Undefined) \/
     (exists msg, missing (RAJA_backends bd) = Some msg /\
                  tail = [[Str msg]] /\ st = Abort) \/
     (exists abserr, tail = (report abserr).1 /\ st = Exit (report abserr).2)).
Proof.
  unfold execute. cbv zeta.
  pose proof (select_missing (RAJA_backends bd) v Initialize Initialize2 order
                (resize (int (order * order)), resize (int (order * order)))) as Hmsg.
  destruct (select (RAJA_backends bd) v Initialize Initialize2 order _)
    as [[m0 |] [msg |]]; cbn [snd] in Hmsg.
  - do 3 eexists. split; [reflexivity |]. right. left. eauto.
  - destruct (transpose_loop _ _ _ _ _) as [m |].
    + destruct (validator _ _ _ _) as [abserr |].
      * do 3 eexists. split; [reflexivity |]. right. right. eauto.
      * do 3 eexists. split; [now rewrite app_nil_r |]. now left.
    + do 3 eexists. split; [now rewrite app_nil_r |]. now left.
  - do 3 eexists. split; [now rewrite app_nil_r |]. now left.
  - do 3 eexists. split; [now rewrite app_nil_r |]. now left.
Qed.

Lemma missing_not_validates (b : backends) (msg : string) :
  missing b = Some msg -> msg <> "Solution validates".
Proof. destruct b; intros [= <-]; discriminate. Qed.

(** X16.  Every run, in any build and for any command line: the banner is
    printed first; the program returns 0 exactly when it printed "Solution
    validates"; it leaves no buffers exactly when the arguments were
    rejected; and a value it returns is 0 or 1. *)
Theorem exit_zero_iff_validates (bd : build) (argv : list string) :
  (status (main bd argv) = Exit 0 <->
   [Str "Solution validates"] ∈ stdout (main bd argv)) /\
  (buffers (main bd argv) = None <-> exists e, parse argv = Throw e) /\
  take 2 (stdout (main bd argv)) = banner bd /\
  (forall code, status (main bd argv) = Exit code -> code = 0 \/ code = 1).
Proof.
  unfold main. destruct (parse argv) as [e | | iterations order v] eqn:Hp.
  - cbn [status stdout buffers]. repeat split; eauto; try discriminate.
    2: { intros code [= <-]. now right. }
    unfold banner. cbn [app]. intros H.
    apply parse_Throw in Hp. unfold usage in Hp.
    repeat (apply elem_of_cons in H as [H | H];
            [try discriminate H; injection H as H;
             destruct Hp as [-> | [-> | [-> | ->]]]; discriminate H |]).
    apply elem_of_nil in H. contradiction.
  - now apply parse_never_terminates in Hp.
  - pose proof (validates_not_before bd iterations order v) as Hout.
    destruct (execute_shape bd iterations order v) as (tail & m & st & -> & Hcase).
    cbn [status stdout buffers].
    split; [| split; [| split]].
    + destruct Hcase as [[-> ->] | [(msg & Hm & -> & ->) | (abserr & -> & ->)]].
      * rewrite app_nil_r. split; [discriminate | intros H; now elim Hout].
      * split; [discriminate |]. intros H.
        apply elem_of_app in H as [H | H]; [now elim Hout |].
        apply list_elem_of_singleton in H. injection H as H.
        symmetry in H. now apply missing_not_validates in Hm.
      * rewrite exit_0_inj, validates_in_report, elem_of_app. split; [now right |].
        intros [H | H]; [now elim Hout | exact H].
    + split; [discriminate |]. intros [e He]. discriminate He.
    + reflexivity.
    + intros code.
      destruct Hcase as [[-> ->] | [(msg & Hm & -> & ->) | (abserr & -> & ->)]];
        try discriminate.
      intros [= <-]. unfold report. destruct (lt_epsilon abserr); cbn [snd]; auto.
Qed.

(** ** The option loop does not throw *)

(** X17.  The option loop never throws.  s.substr(n, s.size()) is called
    only after s.find(key) succeeded, and a text that contains the key is at
    least as long as the key, so std::out_of_range cannot arise: every
    token and every list of tokens is read, and parsing ends in one of the
    four messages or in the settings. *)
Theorem option_loop_never_throws :
  (forall key s n, find key s = Some n ->
     (String.length key <= String.length s)%nat /\
     is_Some (substr (String.length key) s)) /\
  (forall s v, is_Some (flag s v)) /\
  (forall l v, is_Some (for_each flag l v)) /\
  (forall argv, parse argv <> Terminate).
Proof.
  repeat split.
  - now apply find_Some_length in H.
  - apply find_Some_length in H. rewrite substr_defined by exact H. eauto.
  - intros s v. destruct (flag_effect s v) as (v' & -> & _). eauto.
  - intros l v. apply for_each_defined. intros s v' _.
    destruct (flag_effect s v') as (v'' & -> & _). eauto.
  - apply parse_never_terminates.
Qed.

(** ** The variant that reaches the dispatch *)

Lemma token_permute_value (s x : string) :
  token_permute s = Some x -> x = "ij" \/ x = "ji".
Proof.
  unfold token_permute. destruct (s =? "permute=ij")%string; [intros [= <-]; auto |].
  destruct (s =? "permute=ji")%string; [intros [= <-]; auto | discriminate].
Qed.

Lemma last_omap_value {X : Type} (tok : string -> option X) (l : list string) (x : X) :
  list.last (omap tok l) = Some x -> exists s, s ∈ l /\ tok s = Some x.
Proof.
  intros H. apply last_Some_elem_of in H. now apply list_elem_of_omap in H.
Qed.

(** X18.  What reaches the dispatch chains.  After parsing, use_for is seq,
    omp or tbb and the name printed for it is Sequential, OpenMP or TBB
    accordingly; use_permute is no, ij or ji; and in a build with both back
    ends the chain calls one instance of the kernel: the case in which no
    branch is taken does not occur. *)
Theorem parsed_variant_is_dispatched (argv : list string) (iterations order : Z)
    (v : variant) :
  parse argv = Parsed iterations order v ->
  ((use_for v = "seq" /\ for_name v = "Sequential") \/
   (use_for v = "omp" /\ for_name v = "OpenMP") \/
   (use_for v = "tbb" /\ for_name v = "TBB")) /\
  (use_permute v = "no" \/ use_permute v = "ij" \/ use_permute v = "ji") /\
  (forall kN k2 m,
     (exists p, select OpenMP_and_TBB v kN k2 order m = (kN p order m, None)) \/
     (exists o i, select OpenMP_and_TBB v kN k2 order m = (k2 o i order m, None))) /\
  dispatched OpenMP_and_TBB v = true.
Proof.
  intros Hp.
  pose proof (parse_Parsed argv iterations order v Hp) as (_ & _ & _ & _ & _ & Hv & Hk).
  rewrite flags_resolve_all in Hv. injection Hv as Hv.
  split; [| split; [| split]].
  - unfold for_name. destruct Hk as [-> | [-> | ->]]; auto.
  - rewrite <- Hv. cbn [resolve use_permute default_variant].
    destruct (list.last (omap token_permute (drop 3 argv))) as [x |] eqn:E; [| now left].
    apply last_omap_value in E as (s & _ & E). apply token_permute_value in E.
    right. exact E.
  - intros kN k2 m. unfold select, variant_seq, variant_omp, variant_tbb.
    destruct Hk as [-> | [-> | ->]]; cbn [String.eqb Ascii.eqb Bool.eqb];
      destruct (use_nested v), (use_tiled v), (use_simd v); eauto.
  - unfold dispatched. destruct Hk as [-> | [-> | ->]]; reflexivity.
Qed.

Lemma parsed_variant_is_dispatched_witness :
  for_name (set_for "omp" default_variant) = "OpenMP" /\
  dispatched OpenMP_and_TBB (set_for "omp" default_variant) = true.
Proof.
  destruct (parsed_variant_is_dispatched ["transpose"; "2"; "2"; "for=openmp"; "for=seq"]
              2 2 (set_for "omp" default_variant)) as (H1 & _ & _ & H4).
  - vm_compute. reflexivity.
  - split; [| exact H4].
    destruct H1 as [[H _] | [[_ H] | [H _]]]; [discriminate H | exact H | discriminate H].
Defined.

(** ** The loop counter *)





(** ** The byte count of the rate line *)

Lemma size_t_small (z : Z) : 0 <= z < 2 ^ 64 -> size_t z = z.
Proof. intros H. unfold size_t. now apply Z.mod_small. Qed.

(** X20.  The byte count of the rate line does not wrap: for an accepted
    order, bytes = 8*order*order and 2L*bytes = 16*order*order, which a
    double holds exactly.  From order 16384 on bytes exceeds INT_MAX, so the
    conversions to size_t in line 415 are needed. *)
Theorem bytes_do_not_wrap (order : Z) :
  0 < order <= Z.sqrt INT_MAX ->
  bytes order = 8 * (order * order) /\
  bytes_moved order = 16 * (order * order) /\
  (16384 <= order -> INT_MAX < bytes order).
Proof.
  rewrite sqrt_INT_MAX. intros Ho.
  assert (Hsq : 0 < order * order <= 46340 * 46340) by nia.
  assert (Hb : bytes order = 8 * (order * order)).
  { unfold bytes. rewrite (size_t_small order) by lia.
    rewrite (size_t_small (order * order)) by lia.
    rewrite size_t_small by lia. lia. }
  split; [exact Hb | split].
  - unfold bytes_moved. rewrite Hb. rewrite (size_t_small 2) by lia.
    rewrite size_t_small by lia. rewrite round_double_exact by lia. lia.
  - intros H. rewrite Hb. unfold INT_MAX. nia.
Qed.

Lemma bytes_do_not_wrap_witness :
  bytes 46340 = 17179164800 /\ bytes_moved 46340 = 34358329600 /\
  INT_MAX < bytes 46340.
Proof.
  destruct (bytes_do_not_wrap 46340) as (H1 & H2 & H3).
  - rewrite sqrt_INT_MAX. lia.
  - split; [exact H1 | split; [exact H2 | apply H3; lia]].
Defined.
